(** * Incremental light baker (Urho3D/Glow/IncrementalLightBaker.cpp)

    A shallow embedding of the incremental light baking pipeline of rbfx:
    the chunk locality sort ([Swizzle], [Initialize]), chart allocation
    ([GenerateChartsAndUpdateScene]), the cancellable bake
    ([BakeDirectCharts], [BakeIndirectAndFilter], [Bake]) and the image
    export ([StitchAndSaveImages], [CommitScene]).

    Conventions.
    - [unsigned] and [unsigned long long] values are integers of [Z] kept
      in range by [wrap32] and [wrap64]; [int] coordinates are integers
      of [Z] and the conversion to [unsigned] is [wrap32].
    - [float] values are IEEE-754 binary32 numbers of [spec_float].
    - Collaborators that live in other files of the engine (tracer,
      charter, filters, stitcher, file system) are fields of the
      [Collaborators] class, and so is the order in which an EASTL hash
      set is iterated; the baked light cache is an in-memory store.
    - Reading a vector out of range or through a null pointer is
      undefined in C++; the embedding stops with [Fault] there. *)

From Stdlib Require Import ZArith List Bool Lia SpecFloat Permutation Sorted.
From stdpp Require Import base option list sorting gmap strings pretty.

Local Open Scope Z_scope.

(** ** Machine integers *)

Definition wrap32 (z : Z) : Z := z mod 2 ^ 32.
Definition wrap64 (z : Z) : Z := z mod 2 ^ 64.

(** [M_MAX_UNSIGNED], the null lightmap index. *)
Definition M_MAX_UNSIGNED : Z := 2 ^ 32 - 1.

(** ** Chunk coordinates *)

Record IntVector3 := mkIntVector3 { x_ : Z; y_ : Z; z_ : Z }.

Global Instance IntVector3_eq_dec : EqDecision IntVector3.
Proof. solve_decision. Defined.

Global Instance IntVector3_countable : Countable IntVector3.
Proof.
  apply (inj_countable' (fun v => (x_ v, y_ v, z_ v))
                        (fun t => mkIntVector3 t.1.1 t.1.2 t.2)).
  intros []; reflexivity.
Defined.

Module Locality.

(** [VectorMin] on [IntVector3]: the per-component minimum. *)
Definition MinIntVector3 (lhs rhs : IntVector3) : IntVector3 :=
  mkIntVector3 (Z.min (x_ lhs) (x_ rhs)) (Z.min (y_ lhs) (y_ rhs))
               (Z.min (z_ lhs) (z_ rhs)).

Definition numComponents : Z := 3.
(** [8 * sizeof(unsigned long long)]. *)
Definition resultBits : Z := 8 * 8.
Definition maxBitsPerComponent : Z := resultBits / numComponents.

(** The array [xyz] of [Swizzle]: the translated coordinates converted
    to [unsigned]. *)
Definition xyz (vec base : IntVector3) : list Z :=
  [ wrap32 (x_ vec - x_ base);
    wrap32 (y_ vec - y_ base);
    wrap32 (z_ vec - z_ base) ].

(** [!!(xyz[j] & (1 << i))] as an [unsigned long long]. *)
Definition bitAt (c i : Z) : Z :=
  if Z.land c (Z.shiftl 1 i) =? 0 then 0 else 1.

(** One pass of the inner loop body.  [result] is declared [unsigned]
    in the source, so the 64-bit value [result | (bit << i * 3 + j)] is
    converted back to 32 bits by the compound assignment. *)
Definition swizzleStep (c j : Z) (result : Z) (i : nat) : Z :=
  wrap32 (Z.lor result (wrap64 (Z.shiftl (bitAt c (Z.of_nat i))
                                         (Z.of_nat i * numComponents + j)))).

Definition swizzleComponent (result : Z) (jc : Z * Z) : Z :=
  fold_left (swizzleStep jc.2 jc.1) (seq 0 (Z.to_nat maxBitsPerComponent)) result.

Definition Swizzle (vec base : IntVector3) : Z :=
  fold_left swizzleComponent (combine [0; 1; 2] (xyz vec base)) 0.

(** The comparator [compareSwizzled] of [Initialize]. *)
Definition compareSwizzled (base lhs rhs : IntVector3) : bool :=
  Swizzle lhs base <? Swizzle rhs base.

(** [ea::sort] is EASTL library code; it is a comparison sort that
    looks at the elements only through the comparator.  It is embedded
    as the insertion sort below. *)
Fixpoint sort_insert {A : Type} (less : A -> A -> bool) (x : A) (l : list A)
  : list A :=
  match l with
  | [] => [x]
  | y :: l' => if less x y then x :: y :: l' else y :: sort_insert less x l'
  end.

Definition ea_sort {A : Type} (less : A -> A -> bool) (l : list A) : list A :=
  fold_left (fun acc x => sort_insert less x acc) l [].

(** The chunk sorting block of [Initialize]. *)
Definition baseChunkIndex (chunks : list IntVector3) : option IntVector3 :=
  match chunks with
  | [] => None
  | front :: _ => Some (fold_left MinIntVector3 chunks front)
  end.

Definition sortChunks (chunks : list IntVector3) : list IntVector3 :=
  match baseChunkIndex chunks with
  | None => chunks
  | Some base => ea_sort (compareSwizzled base) chunks
  end.

(** The chunk set moved by an integer vector [t] (used to state that the
    order does not depend on where the origin lies). *)
Definition translate (t v : IntVector3) : IntVector3 :=
  mkIntVector3 (x_ v + x_ t) (y_ v + y_ t) (z_ v + z_ t).

End Locality.

(** ** Single-precision floats and the math vectors *)

(** [float] is IEEE-754 binary32: 24 bits of precision, exponents below
    128. *)
Definition float : Type := spec_float.
Definition prec32 : Z := 24.
Definition emax32 : Z := 128.

Definition fadd (a b : float) : float := SFadd prec32 emax32 a b.
Definition fmul (a b : float) : float := SFmul prec32 emax32 a b.
Definition flt (a b : float) : bool := SFltb a b.
Definition fle (a b : float) : bool := SFleb a b.
Definition feq (a b : float) : bool := SFeqb a b.

Definition fzero : float := S754_zero false.
(** [1.0f] and [1.0f / 2.0f]. *)
Definition fone : float := S754_finite false 8388608 (-23).
Definition fhalf : float := S754_finite false 8388608 (-24).

Definition is_nan (a : float) : bool :=
  match a with S754_nan => true | _ => false end.

(** Modelled from the spec: [Max] belongs to Math/MathDefs.h, another
    file of the engine; the spec's channel-wise "max(0, direct)", written
    as the engine's comparison [lhs > rhs ? lhs : rhs]. *)
Definition Max (lhs rhs : float) : float := if flt rhs lhs then lhs else rhs.

Record Vector2 := mkVector2 { v2x_ : float; v2y_ : float }.
Record Vector3 := mkVector3 { v3x_ : float; v3y_ : float; v3z_ : float }.
Record Vector4 := mkVector4 { v4x_ : float; v4y_ : float; v4z_ : float; v4w_ : float }.
Record Color := mkColor { r_ : float; g_ : float; b_ : float; a_ : float }.

Definition Vector2_ZERO : Vector2 := mkVector2 fzero fzero.
Definition Vector3_ZERO : Vector3 := mkVector3 fzero fzero fzero.
Definition Vector4_ZERO : Vector4 := mkVector4 fzero fzero fzero fzero.

(** [Vector2::operator !=]. *)
Definition Vector2_ne (a b : Vector2) : bool :=
  negb (feq (v2x_ a) (v2x_ b)) || negb (feq (v2y_ a) (v2y_ b)).

(** [VectorMax] of Math/Vector3.h: [Max] on every component. *)
Definition VectorMax (lhs rhs : Vector3) : Vector3 :=
  mkVector3 (Max (v3x_ lhs) (v3x_ rhs)) (Max (v3y_ lhs) (v3y_ rhs))
            (Max (v3z_ lhs) (v3z_ rhs)).

(** [Vector3::operator +=]. *)
Definition Vector3_add (a b : Vector3) : Vector3 :=
  mkVector3 (fadd (v3x_ a) (v3x_ b)) (fadd (v3y_ a) (v3y_ b))
            (fadd (v3z_ a) (v3z_ b)).

(** [static_cast<Vector3>(Vector4)], [Vector4(Vector3, w)] and
    [static_cast<Color>(Vector3)]. *)
Definition Vector4_to_Vector3 (v : Vector4) : Vector3 :=
  mkVector3 (v4x_ v) (v4y_ v) (v4z_ v).
Definition Vector4_of (v : Vector3) (w : float) : Vector4 :=
  mkVector4 (v3x_ v) (v3y_ v) (v3z_ v) w.
Definition Color_of_Vector3 (v : Vector3) : Color :=
  mkColor (v3x_ v) (v3y_ v) (v3z_ v) fone.

Definition channels (v : Vector3) : list float := [v3x_ v; v3y_ v; v3z_ v].

(** ** Settings *)

Record IncrementalSettings := mkIncrementalSettings {
  outputDirectory_ : string;
  giDataFileName_ : string;
  lightmapNamePrefix_ : string;
  lightmapNameSuffix_ : string;
  lightProbeGroupNamePrefix_ : string;
  lightProbeGroupNameSuffix_ : string;
}.

(** The fields of [LightBakingSettings] that the baker reads itself.
    The sub-records it only forwards to the tracer, the filters and the
    stitcher travel as [forwarded_]. *)
Record LightBakingSettings (Forwarded : Type) := mkLightBakingSettings {
  lightmapSize_ : Z;
  directFilter_kernelRadius_ : Z;
  indirectFilter_kernelRadius_ : Z;
  stitching_numIterations_ : Z;
  incremental_ : IncrementalSettings;
  forwarded_ : Forwarded;
}.
Arguments mkLightBakingSettings {Forwarded}.
Arguments lightmapSize_ {Forwarded}.
Arguments directFilter_kernelRadius_ {Forwarded}.
Arguments indirectFilter_kernelRadius_ {Forwarded}.
Arguments stitching_numIterations_ {Forwarded}.
Arguments incremental_ {Forwarded}.
Arguments forwarded_ {Forwarded}.

(** ** Baked data *)

(** [BakedLightmap]: the final lightmap, a dense array of
    [lightmapSize_ * lightmapSize_] texels. *)
Record BakedLightmap := mkBakedLightmap {
  bl_lightmapSize_ : Z;
  lightmap_ : list Vector3;
}.

(** Modelled from the spec: the constructor [BakedLightmap(lightmapSize)]
    is declared in another file of the engine; "all per-texel buffers are
    dense fixed-size arrays sized at allocation time from configuration
    (lightmap resolution)". *)
Definition NewBakedLightmap (lightmapSize : Z) : BakedLightmap :=
  mkBakedLightmap lightmapSize
    (replicate (Z.to_nat (wrap32 (lightmapSize * lightmapSize))) Vector3_ZERO).

(** ** Collaborators

    Everything the baker uses from other files of the engine.  Types the
    baker never looks into are abstract. *)
Class EngineTypes := {
  (** Scene objects and the settings the baker only forwards. *)
  Component : Type;
  LightProbeGroup : Type;
  Forwarded : Type;
  Collector : Type;
  FileSystem : Type;
  (** Glow/LightmapCharter.h. *)
  LightmapChart : Type;
  index_ : LightmapChart -> Z;
  (** Glow/LightmapGeometryBuffer.h and Glow/RaytracerScene.h. *)
  LightmapSeam : Type;
  GeometryData : Type;
  RaytracerScene : Type;
  RaytracerGeometry : Type;
  GetGeometries : RaytracerScene -> list RaytracerGeometry;
  lightmapIndex_ : RaytracerGeometry -> Z;
  BakedLight : Type;
  (** Graphics/LightProbeGroup.h and Math/TetrahedralMesh.h. *)
  LightProbeCollection : Type;
  GetNumProbes : LightProbeCollection -> Z;
  GetNumGroups : LightProbeCollection -> Z;
  names_ : LightProbeCollection -> list string;
  LightProbeCollectionBakedData : Type;
  TetrahedralMesh : Type;
  (** Glow/LightTracer.h. *)
  LightmapChartBakedDirect : Type;
  directLight_ : LightmapChartBakedDirect -> list Vector3;
  LightmapChartBakedIndirect : Type;
  light_ : LightmapChartBakedIndirect -> list Vector4;
  (** Glow/LightmapStitcher.h and Resource/Image.h. *)
  LightmapStitchingContext : Type;
  SeamsModel : Type;
  Image : Type;
}.

Section EngineData.
Context `{EngineTypes}.

Definition Settings : Type := LightBakingSettings Forwarded.

(** [LightmapChartGeometryBuffer]. *)
Record LightmapChartGeometryBuffer := mkGeometryBuffer {
  gb_lightmapSize_ : Z;
  seams_ : list LightmapSeam;
  gb_data_ : GeometryData;
}.

(** [BakedChunkVicinity]. *)
Record BakedChunkVicinity := mkBakedChunkVicinity {
  lightmaps_ : list Z;
  geometryBuffers_ : list LightmapChartGeometryBuffer;
  bakedLights_ : list BakedLight;
  raytracerScene_ : RaytracerScene;
  geometryBufferToRaytracer_ : list Z;
  lightProbesCollection_ : LightProbeCollection;
  numUniqueLightProbes_ : Z;
}.

End EngineData.

(** The functions of the collaborators.  A function that mutates an
    argument in place returns the new value of that argument. *)
Class Collaborators `{EngineTypes} := {
  (** Glow/BakedSceneCollector.h. *)
  LockScene : Collector -> Settings -> Collector;
  GetChunks : Collector -> list IntVector3;
  GetUniqueGeometries : Collector -> IntVector3 -> list Component;
  GetUniqueLightProbeGroups : Collector -> IntVector3 -> list LightProbeGroup;
  CommitGeometries : Collector -> IntVector3 -> Collector;
  (** Glow/LightmapCharter.h and Glow/BakedChunkVicinity.h. *)
  GenerateLightmapCharts : list Component -> Settings -> Z -> list LightmapChart;
  CreateBakedChunkVicinity : Collector -> IntVector3 -> Settings -> BakedChunkVicinity;
  (** Glow/LightTracer.h. *)
  NewBakedDirect : Z -> LightmapChartBakedDirect;
  NewBakedIndirect : Z -> LightmapChartBakedIndirect;
  NormalizeLight : LightmapChartBakedIndirect -> LightmapChartBakedIndirect;
  BakeEmissionLight :
    LightmapChartBakedDirect -> LightmapChartGeometryBuffer -> Settings ->
    LightmapChartBakedDirect;
  BakeDirectLightForCharts :
    LightmapChartBakedDirect -> LightmapChartGeometryBuffer -> RaytracerScene ->
    list Z -> BakedLight -> Settings -> LightmapChartBakedDirect;
  BakeIndirectLightForLightProbes :
    LightProbeCollectionBakedData -> LightProbeCollection ->
    list (option LightmapChartBakedDirect) -> RaytracerScene -> Settings ->
    LightProbeCollectionBakedData;
  BakeIndirectLightForCharts :
    LightmapChartBakedIndirect -> list (option LightmapChartBakedDirect) ->
    LightmapChartGeometryBuffer -> TetrahedralMesh ->
    LightProbeCollectionBakedData -> RaytracerScene -> list Z -> Settings ->
    LightmapChartBakedIndirect;
  BakeDirectLightForLightProbes :
    LightProbeCollectionBakedData -> LightProbeCollection -> RaytracerScene ->
    BakedLight -> Settings -> LightProbeCollectionBakedData;
  (** Glow/LightmapFilter.h: the second component is the scratch buffer. *)
  FilterDirectLight :
    LightmapChartBakedDirect -> list Vector3 -> LightmapChartGeometryBuffer ->
    Settings -> LightmapChartBakedDirect * list Vector3;
  FilterIndirectLight :
    LightmapChartBakedIndirect -> list Vector4 -> LightmapChartGeometryBuffer ->
    Settings -> LightmapChartBakedIndirect * list Vector4;
  (** Graphics/LightProbeGroup.h and Math/TetrahedralMesh.h. *)
  EmptyBakedData : LightProbeCollectionBakedData;
  Resize : LightProbeCollectionBakedData -> Z -> LightProbeCollectionBakedData;
  Define : LightProbeCollection -> TetrahedralMesh;
  SaveLightProbesBakedData :
    FileSystem -> LightProbeCollection -> LightProbeCollectionBakedData -> Z ->
    bool * FileSystem;
  (** Glow/LightmapStitcher.h and Resource/Image.h. *)
  InitializeStitchingContext : Z -> Z -> LightmapStitchingContext;
  CreateSeamsModel : list LightmapSeam -> SeamsModel;
  StitchLightmapSeams :
    LightmapStitchingContext -> list Vector3 -> list Vector4 -> Settings ->
    SeamsModel -> LightmapStitchingContext * list Vector4;
  NewImage : Image;
  SetSize : Image -> Z -> Z -> Z -> bool * Image;
  SetPixel : Image -> Z -> Z -> Color -> Image;
  Image_SaveFile : FileSystem -> Image -> string -> bool * FileSystem;
  LinearToGamma : Color -> Color;
  (** IO/FileSystem.h and Resource/BinaryFile.h. *)
  CreateDir : FileSystem -> string -> bool * FileSystem;
  CreateDirsRecursive : FileSystem -> string -> bool * FileSystem;
  BinaryFile_SaveFile : FileSystem -> string -> bool * FileSystem;
  ReplaceExtension : string -> string -> string;
  AddTrailingSlash : string -> string;
  GetPath : string -> string;
  (** [Graphics::GetPixelUVOffset]. *)
  GetPixelUVOffset : Vector2;
  (** [ea::hash_set<unsigned>] (EASTL/hash_set.h): the order in which the
      set is iterated once the given keys have been inserted one after the
      other.  The order is the container's own; an iteration visits every
      key of the set once. *)
  hash_set_order : list Z -> list Z;
  hash_set_order_NoDup : forall inserted, NoDup (hash_set_order inserted);
  hash_set_order_elem :
    forall inserted key, key ∈ hash_set_order inserted <-> key ∈ inserted;
}.

(** ** The state the baker runs in *)

Section Engine.
Context `{Collaborators}.

(** Modelled from the spec: the baked-light cache (Glow/BakedLightCache.h)
    is "keyed store/load for chunk vicinities, direct buffers, and final
    lightmaps, each keyed by chunk coordinate or global lightmap index";
    "loads return shared, read-only, reference-counted handles; stores
    take ownership".  A handle to a direct buffer is the key of the stored
    object, so a buffer filtered in place is seen through every handle. *)
Record BakedLightCache := mkBakedLightCache {
  chunkVicinities : gmap IntVector3 BakedChunkVicinity;
  directLights : gmap Z LightmapChartBakedDirect;
  lightmaps : gmap Z BakedLightmap;
}.

(** [ResourceRef]: a resource type and a resource name. *)
Definition ResourceRef : Type := string * string.

Inductive LogLevel := LOG_ERROR | LOG_WARNING.

(** Calls that leave the baker, in the order they happen. *)
Inductive Event :=
| Log (level : LogLevel) (format : string) (args : list string)
| EvCreateDir (path : string) (ok : bool)
| EvCreateDirsRecursive (path : string)
| EvSaveBinaryFile (fileName : string) (ok : bool)
| EvIsStopped (stopped : bool)
| EvStoreChunkVicinity (chunk : IntVector3)
| EvLoadChunkVicinity (chunk : IntVector3)
| EvStoreDirectLight (lightmapIndex : Z) (baked : LightmapChartBakedDirect)
| EvLoadDirectLight (lightmapIndex : Z)
| EvStoreLightmap (lightmapIndex : Z) (baked : BakedLightmap)
| EvLoadLightmap (lightmapIndex : Z)
| EvApplyLightmapCharts (charts : list LightmapChart)
| EvSetBakedDataFileRef (group : LightProbeGroup) (ref : ResourceRef)
| EvBakeIndirectLightForLightProbes (chunk : IntVector3)
| EvBakeDirectLightForLightProbes (chunk : IntVector3) (light : BakedLight)
| EvSaveLightProbesBakedData (chunk : IntVector3) (groupIndex : Z) (ok : bool)
| EvInitializeStitchingContext (lightmapSize : Z)
| EvSaveImage (fileName : string) (image : Image).

(** The fields of [IncrementalLightBaker::Impl] ([settings_], [chunks_],
    [numLightmapCharts_]), the objects its pointers lead to, the number of
    times the stop token has been polled, and the calls made so far. *)
Record World := mkWorld {
  settings_ : Settings;
  chunks_ : list IntVector3;
  numLightmapCharts_ : Z;
  collector_ : Collector;
  cache_ : BakedLightCache;
  fileSystem_ : FileSystem;
  sceneFileName_ : string;
  globalIllumination_ : option ResourceRef;
  sceneLightmaps_ : list string;
  resourceDirs_ : list string;
  polls_ : nat;
  trace_ : list Event;
}.

Definition with_settings (s : Settings) (w : World) : World :=
  mkWorld s (chunks_ w) (numLightmapCharts_ w) (collector_ w) (cache_ w)
    (fileSystem_ w) (sceneFileName_ w) (globalIllumination_ w) (sceneLightmaps_ w) (resourceDirs_ w)
    (polls_ w) (trace_ w).
Definition with_chunks (c : list IntVector3) (w : World) : World :=
  mkWorld (settings_ w) c (numLightmapCharts_ w) (collector_ w) (cache_ w)
    (fileSystem_ w) (sceneFileName_ w) (globalIllumination_ w) (sceneLightmaps_ w) (resourceDirs_ w)
    (polls_ w) (trace_ w).
Definition with_numLightmapCharts (n : Z) (w : World) : World :=
  mkWorld (settings_ w) (chunks_ w) n (collector_ w) (cache_ w)
    (fileSystem_ w) (sceneFileName_ w) (globalIllumination_ w) (sceneLightmaps_ w) (resourceDirs_ w)
    (polls_ w) (trace_ w).
Definition with_collector (c : Collector) (w : World) : World :=
  mkWorld (settings_ w) (chunks_ w) (numLightmapCharts_ w) c (cache_ w)
    (fileSystem_ w) (sceneFileName_ w) (globalIllumination_ w) (sceneLightmaps_ w) (resourceDirs_ w)
    (polls_ w) (trace_ w).
Definition with_cache (c : BakedLightCache) (w : World) : World :=
  mkWorld (settings_ w) (chunks_ w) (numLightmapCharts_ w) (collector_ w) c
    (fileSystem_ w) (sceneFileName_ w) (globalIllumination_ w) (sceneLightmaps_ w) (resourceDirs_ w)
    (polls_ w) (trace_ w).
Definition with_fileSystem (f : FileSystem) (w : World) : World :=
  mkWorld (settings_ w) (chunks_ w) (numLightmapCharts_ w) (collector_ w)
    (cache_ w) f (sceneFileName_ w) (globalIllumination_ w) (sceneLightmaps_ w) (resourceDirs_ w)
    (polls_ w) (trace_ w).
Definition with_globalIllumination (r : option ResourceRef) (w : World) : World :=
  mkWorld (settings_ w) (chunks_ w) (numLightmapCharts_ w) (collector_ w)
    (cache_ w) (fileSystem_ w) (sceneFileName_ w) r (sceneLightmaps_ w) (resourceDirs_ w)
    (polls_ w) (trace_ w).
Definition with_sceneLightmaps (l : list string) (w : World) : World :=
  mkWorld (settings_ w) (chunks_ w) (numLightmapCharts_ w) (collector_ w)
    (cache_ w) (fileSystem_ w) (sceneFileName_ w) (globalIllumination_ w) l (resourceDirs_ w) (polls_ w) (trace_ w).
Definition with_polls (n : nat) (w : World) : World :=
  mkWorld (settings_ w) (chunks_ w) (numLightmapCharts_ w) (collector_ w)
    (cache_ w) (fileSystem_ w) (sceneFileName_ w) (globalIllumination_ w) (sceneLightmaps_ w) (resourceDirs_ w) n
    (trace_ w).
Definition with_trace (t : list Event) (w : World) : World :=
  mkWorld (settings_ w) (chunks_ w) (numLightmapCharts_ w) (collector_ w)
    (cache_ w) (fileSystem_ w) (sceneFileName_ w) (globalIllumination_ w) (sceneLightmaps_ w) (resourceDirs_ w)
    (polls_ w) t.

(** *** The state and fault monad *)

Inductive Res (A : Type) :=
| Ok (a : A) (w : World)
| Fault (w : World).
Arguments Ok {A}.
Arguments Fault {A}.

Definition M (A : Type) : Type := World -> Res A.

Definition ret {A} (a : A) : M A := fun w => Ok a w.
Definition bind {A B} (m : M A) (k : A -> M B) : M B :=
  fun w => match m w with Ok a w' => k a w' | Fault w' => Fault w' end.
Definition fault {A} : M A := fun w => Fault w.
Definition gets {A} (f : World -> A) : M A := fun w => Ok (f w) w.
Definition modify (f : World -> World) : M unit := fun w => Ok tt (f w).

Definition emit (e : Event) : M unit :=
  modify (fun w => with_trace (trace_ w ++ [e]) w).

(** [v[i]] on a vector and [*p] on a pointer. *)
Definition at_ {A} (v : list A) (i : nat) : M A :=
  match v !! i with Some a => ret a | None => fault end.
Definition deref {A} (p : option A) : M A :=
  match p with Some a => ret a | None => fault end.

End Engine.

Arguments Ok {_ A} a w.
Arguments Fault {_ A} w.

Notation "'let*' x ':=' m 'in' k" := (bind m (fun x => k))
  (at level 10, x name, m at level 100, k at level 200).
Notation "'let*' ' p ':=' m 'in' k" := (bind m (fun x => match x with p => k end))
  (at level 10, p pattern, m at level 100, k at level 200).
Notation "m ';;;' k" := (bind m (fun _ => k))
  (at level 100, k at level 200, right associativity).

Section Loops.
Context `{Collaborators}.

(** Loops: [foldM] runs the body over a range with the local variables
    [s]; in [foldBreak] the body answers [None] when it executes
    [return false]. *)
Fixpoint foldM {S A} (l : list A) (s : S) (body : S -> A -> M S) : M S :=
  match l with
  | [] => ret s
  | x :: l' => let* s' := body s x in foldM l' s' body
  end.

Fixpoint foldBreak {S A} (l : list A) (s : S) (body : S -> A -> M (option S))
  : M (option S) :=
  match l with
  | [] => ret (Some s)
  | x :: l' =>
      let* r := body s x in
      match r with
      | Some s' => foldBreak l' s' body
      | None => ret None
      end
  end.

Definition forEach {A} (l : list A) (body : A -> M unit) : M unit :=
  foldM l tt (fun _ x => body x).

(** [for (unsigned i = 0; i < n; ++i)]. *)
Definition upto (n : Z) : list nat := seq 0 (Z.to_nat n).
Definition indices {A} (v : list A) : list nat := seq 0 (length v).

End Loops.

(** ** The baker *)

Section Baker.
Context `{Collaborators}.

(** The stop token answers [IsStopped] as a function of how many times it
    has been asked before. *)
Definition StopToken : Type := nat -> bool.

Definition IsStopped (stopToken : StopToken) : M bool :=
  let* n := gets polls_ in
  modify (with_polls (S n));;;
  emit (EvIsStopped (stopToken n));;;
  ret (stopToken n).

(** *** Cache, log and file system calls *)

Definition StoreChunkVicinity (chunk : IntVector3) (v : BakedChunkVicinity) : M unit :=
  modify (fun w => with_cache
    (mkBakedLightCache (<[chunk := v]> (chunkVicinities (cache_ w)))
                       (directLights (cache_ w)) (lightmaps (cache_ w))) w);;;
  emit (EvStoreChunkVicinity chunk).

(** The callers dereference the vicinity at once, so a missing entry is a
    fault here. *)
Definition LoadChunkVicinity (chunk : IntVector3) : M BakedChunkVicinity :=
  emit (EvLoadChunkVicinity chunk);;;
  let* c := gets cache_ in
  deref (chunkVicinities c !! chunk).

Definition StoreDirectLight (lightmapIndex : Z) (baked : LightmapChartBakedDirect)
  : M unit :=
  modify (fun w => with_cache
    (mkBakedLightCache (chunkVicinities (cache_ w))
                       (<[lightmapIndex := baked]> (directLights (cache_ w)))
                       (lightmaps (cache_ w))) w);;;
  emit (EvStoreDirectLight lightmapIndex baked).

(** The handle is the key when the cache holds the buffer and null
    otherwise. *)
Definition LoadDirectLight (lightmapIndex : Z) : M (option Z) :=
  emit (EvLoadDirectLight lightmapIndex);;;
  let* c := gets cache_ in
  ret (match directLights c !! lightmapIndex with
       | Some _ => Some lightmapIndex
       | None => None
       end).

(** [*handle] and a write through [*handle]. *)
Definition readDirect (handle : option Z) : M LightmapChartBakedDirect :=
  let* c := gets cache_ in
  deref (handle ≫= fun k => directLights c !! k).

Definition writeDirect (handle : option Z) (baked : LightmapChartBakedDirect) : M unit :=
  let* k := deref handle in
  modify (fun w => with_cache
    (mkBakedLightCache (chunkVicinities (cache_ w))
                       (<[k := baked]> (directLights (cache_ w)))
                       (lightmaps (cache_ w))) w).

(** The vector of raw pointers [bakedDirectLightmaps] as the tracer reads
    it. *)
Definition viewDirect (table : list (option Z)) : M (list (option LightmapChartBakedDirect)) :=
  let* c := gets cache_ in
  ret (map (fun handle => handle ≫= fun k => directLights c !! k) table).

Definition StoreLightmap (lightmapIndex : Z) (baked : BakedLightmap) : M unit :=
  modify (fun w => with_cache
    (mkBakedLightCache (chunkVicinities (cache_ w)) (directLights (cache_ w))
                       (<[lightmapIndex := baked]> (lightmaps (cache_ w)))) w);;;
  emit (EvStoreLightmap lightmapIndex baked).

Definition LoadLightmap (lightmapIndex : Z) : M (option BakedLightmap) :=
  emit (EvLoadLightmap lightmapIndex);;;
  let* c := gets cache_ in
  ret (lightmaps c !! lightmapIndex).

Definition URHO3D_LOGERROR (format : string) (args : list string) : M unit :=
  emit (Log LOG_ERROR format args).
Definition URHO3D_LOGWARNING (format : string) (args : list string) : M unit :=
  emit (Log LOG_WARNING format args).

Definition fs_CreateDir (path : string) : M bool :=
  let* fs := gets fileSystem_ in
  let r := CreateDir fs path in
  modify (with_fileSystem r.2);;;
  emit (EvCreateDir path r.1);;;
  ret r.1.

Definition fs_CreateDirsRecursive (path : string) : M unit :=
  let* fs := gets fileSystem_ in
  modify (with_fileSystem (CreateDirsRecursive fs path).2);;;
  emit (EvCreateDirsRecursive path).

(** *** File names *)

(** The double quote of the log formats. *)
Definition dquote : string := String (Ascii.ascii_of_nat 34) EmptyString.

(** [ea::to_string] and the [{}] of [Format] on integers. *)
Definition to_string (z : Z) : string := pretty z.

(** [GetResourceName] over the resource directories of the cache. *)
Fixpoint GetResourceName (resourceDirs : list string) (fileName : string) : string :=
  match resourceDirs with
  | [] => EmptyString
  | resourceDir :: rest =>
      if String.prefix resourceDir fileName
      then String.substring (String.length resourceDir)
             (String.length fileName - String.length resourceDir) fileName
      else GetResourceName rest fileName
  end.

Definition GetLightmapFileName (s : Settings) (lightmapIndex : Z) : string :=
  outputDirectory_ (incremental_ s) +:+ lightmapNamePrefix_ (incremental_ s)
  +:+ to_string lightmapIndex +:+ lightmapNameSuffix_ (incremental_ s).

Definition GetLightProbeBakedDataFileName (s : Settings) (chunk : IntVector3)
  (index : Z) : string :=
  outputDirectory_ (incremental_ s) +:+ lightProbeGroupNamePrefix_ (incremental_ s)
  +:+ (to_string (x_ chunk) +:+ "-" +:+ to_string (y_ chunk) +:+ "-"
       +:+ to_string (z_ chunk) +:+ "-" +:+ to_string index)
  +:+ lightProbeGroupNameSuffix_ (incremental_ s).

Definition set_outputDirectory (dir : string) (s : Settings) : Settings :=
  mkLightBakingSettings (lightmapSize_ s) (directFilter_kernelRadius_ s)
    (indirectFilter_kernelRadius_ s) (stitching_numIterations_ s)
    (mkIncrementalSettings dir (giDataFileName_ (incremental_ s))
       (lightmapNamePrefix_ (incremental_ s)) (lightmapNameSuffix_ (incremental_ s))
       (lightProbeGroupNamePrefix_ (incremental_ s))
       (lightProbeGroupNameSuffix_ (incremental_ s)))
    (forwarded_ s).

(** *** Initialize *)

Definition msg_DX9 : string := "Cannot bake light on DX9".
Definition msg_undefined : string :=
  "Cannot find output directory for lightmaps: scene file name is undefined".
Definition msg_noExtension : string :=
  "Cannot find output directory for lightmaps: scene file name has no extension".
Definition msg_outputDirectory : string :=
  "Cannot create output directory " +:+ dquote +:+ "{}" +:+ dquote +:+ " for lightmaps".
Definition msg_giDirectory : string :=
  "Cannot create output directory " +:+ dquote +:+ "{}" +:+ dquote +:+ " for GI data file".
Definition msg_giFile : string :=
  "Cannot allocate GI data file at " +:+ dquote +:+ "{}" +:+ dquote.

Definition is_empty (s : string) : bool := bool_decide (s = EmptyString).

(** "Find or fix output directory": answers [false] when [Initialize]
    returns from inside the block. *)
Definition findOutputDirectory : M bool :=
  let* s := gets settings_ in
  if is_empty (outputDirectory_ (incremental_ s)) then
    let* sceneFileName := gets sceneFileName_ in
    if is_empty sceneFileName then
      URHO3D_LOGERROR msg_undefined [];;; ret false
    else
      modify (with_settings
                (set_outputDirectory (ReplaceExtension sceneFileName EmptyString) s));;;
      if bool_decide (ReplaceExtension sceneFileName EmptyString = sceneFileName) then
        URHO3D_LOGERROR msg_noExtension [];;; ret false
      else ret true
  else ret true.

(** "Initialize GI data file". *)
Definition initializeGIDataFile : M bool :=
  let* s := gets settings_ in
  let giFileName := outputDirectory_ (incremental_ s) +:+ giDataFileName_ (incremental_ s) in
  let giFilePath := GetPath giFileName in
  let* created := fs_CreateDir giFilePath in
  if negb created then
    URHO3D_LOGERROR msg_giDirectory [giFilePath];;; ret false
  else
    let* fs := gets fileSystem_ in
    let saved := BinaryFile_SaveFile fs giFileName in
    modify (with_fileSystem saved.2);;;
    emit (EvSaveBinaryFile giFileName saved.1);;;
    if negb saved.1 then
      URHO3D_LOGERROR msg_giFile [giFileName];;; ret false
    else
      let* gi := gets globalIllumination_ in
      let* _ := deref gi in
      let* dirs := gets resourceDirs_ in
      modify (with_globalIllumination
                (Some ("BinaryFile", GetResourceName dirs giFileName)));;;
      ret true.

Definition Initialize : M bool :=
  if Vector2_ne GetPixelUVOffset Vector2_ZERO then
    URHO3D_LOGERROR msg_DX9 [];;; ret false
  else
    let* found := findOutputDirectory in
    if negb found then ret false
    else
      let* s := gets settings_ in
      let outputDirectory := AddTrailingSlash (outputDirectory_ (incremental_ s)) in
      modify (with_settings (set_outputDirectory outputDirectory s));;;
      let* created := fs_CreateDir outputDirectory in
      if negb created then
        URHO3D_LOGERROR msg_outputDirectory [outputDirectory];;; ret false
      else
        let* s := gets settings_ in
        let* c := gets collector_ in
        modify (with_collector (LockScene c s));;;
        modify (with_chunks (GetChunks (LockScene c s)));;;
        modify (fun w => with_chunks (Locality.sortChunks (chunks_ w)) w);;;
        initializeGIDataFile.

(** *** ProcessScene *)

Definition ResetLightmaps : M unit := modify (with_sceneLightmaps []).
Definition AddLightmap (name : string) : M unit :=
  modify (fun w => with_sceneLightmaps (sceneLightmaps_ w ++ [name]) w).

(** "Assign baked data files for light probe groups". *)
Definition assignBakedDataFiles (chunk : IntVector3)
  (uniqueLightProbes : list LightProbeGroup) : M unit :=
  forEach (indices uniqueLightProbes) (fun i =>
    let* group := at_ uniqueLightProbes i in
    let* s := gets settings_ in
    let fileName := GetLightProbeBakedDataFileName s chunk (Z.of_nat i) in
    fs_CreateDirsRecursive (GetPath fileName);;;
    emit (EvSetBakedDataFileRef group ("BinaryFile", fileName))).

(** The body of the loop over the chunks. *)
Definition generateChartsForChunk (chunk : IntVector3) : M unit :=
  let* c := gets collector_ in
  let uniqueGeometries := GetUniqueGeometries c chunk in
  let uniqueLightProbes := GetUniqueLightProbeGroups c chunk in
  let* s := gets settings_ in
  let* base := gets numLightmapCharts_ in
  let charts := GenerateLightmapCharts uniqueGeometries s base in
  emit (EvApplyLightmapCharts charts);;;
  modify (with_collector (CommitGeometries c chunk));;;
  assignBakedDataFiles chunk uniqueLightProbes;;;
  modify (with_numLightmapCharts (wrap32 (base + Z.of_nat (length charts)))).

(** "Update scene": the body of the loop over the chart indices. *)
Definition addLightmapFor (i : nat) : M unit :=
  let* s := gets settings_ in
  let* dirs := gets resourceDirs_ in
  let fileName := GetLightmapFileName s (Z.of_nat i) in
  let resourceName := GetResourceName dirs fileName in
  if is_empty resourceName then
    URHO3D_LOGWARNING
      ("Cannot find resource name for lightmap " +:+ dquote +:+ "{}" +:+ dquote
       +:+ ", absolute path is used") [fileName];;;
    AddLightmap fileName
  else AddLightmap resourceName.

Definition GenerateChartsAndUpdateScene : M unit :=
  modify (with_numLightmapCharts 0);;;
  let* chunks := gets chunks_ in
  forEach chunks generateChartsForChunk;;;
  ResetLightmaps;;;
  let* n := gets numLightmapCharts_ in
  forEach (upto n) addLightmapFor.

Definition GenerateBakingChunks : M unit :=
  let* chunks := gets chunks_ in
  forEach chunks (fun chunk =>
    let* c := gets collector_ in
    let* s := gets settings_ in
    StoreChunkVicinity chunk (CreateBakedChunkVicinity c chunk s)).

Definition ProcessScene : M unit :=
  GenerateChartsAndUpdateScene;;; GenerateBakingChunks.

(** *** Bake: direct light *)

(** What [BakeDirectCharts] computes for one lightmap between the poll of
    the stop token and the store. *)
Definition bakeDirect (s : Settings) (bakingChunk : BakedChunkVicinity)
  (geometryBuffer : LightmapChartGeometryBuffer) : LightmapChartBakedDirect :=
  let bakedDirect := NewBakedDirect (gb_lightmapSize_ geometryBuffer) in
  let bakedDirect := BakeEmissionLight bakedDirect geometryBuffer s in
  fold_left
    (fun baked bakedLight =>
       BakeDirectLightForCharts baked geometryBuffer (raytracerScene_ bakingChunk)
         (geometryBufferToRaytracer_ bakingChunk) bakedLight s)
    (bakedLights_ bakingChunk) bakedDirect.

(** The body of the loop over the lightmaps of a chunk. *)
Definition bakeDirectChart (stopToken : StopToken) (bakingChunk : BakedChunkVicinity)
  (_ : unit) (i : nat) : M (option unit) :=
  let* stopped := IsStopped stopToken in
  if stopped then ret None
  else
    let* lightmapIndex := at_ (lightmaps_ bakingChunk) i in
    let* geometryBuffer := at_ (geometryBuffers_ bakingChunk) i in
    let* s := gets settings_ in
    StoreDirectLight lightmapIndex (bakeDirect s bakingChunk geometryBuffer);;;
    ret (Some tt).

Definition bakeDirectChunk (stopToken : StopToken) (_ : unit) (chunk : IntVector3)
  : M (option unit) :=
  let* bakingChunk := LoadChunkVicinity chunk in
  foldBreak (indices (lightmaps_ bakingChunk)) tt (bakeDirectChart stopToken bakingChunk).

Definition BakeDirectCharts (stopToken : StopToken) : M bool :=
  let* chunks := gets chunks_ in
  let* r := foldBreak chunks tt (bakeDirectChunk stopToken) in
  ret (bool_decide (r = Some tt)).

(** *** Bake: indirect light and filtering *)

(** The local variables [directFilterBuffer], [indirectFilterBuffer] and
    [lightProbesBakedData], which live across the chunks. *)
Record IndirectLocals := mkIndirectLocals {
  directFilterBuffer : list Vector3;
  indirectFilterBuffer : list Vector4;
  lightProbesBakedData : LightProbeCollectionBakedData;
}.

(** "Collect required direct lightmaps": the set of keys that the hash set
    [requiredDirectLightmaps] holds after the loop over the geometries. *)
Definition collectRequiredDirectLightmaps (chunkVicinity : BakedChunkVicinity)
  : gset Z :=
  fold_left
    (fun required raytracerGeometry =>
       if bool_decide (lightmapIndex_ raytracerGeometry ≠ M_MAX_UNSIGNED)
       then required ∪ {[ lightmapIndex_ raytracerGeometry ]}
       else required)
    (GetGeometries (raytracerScene_ chunkVicinity)) ∅.

(** The keys that the loop over the geometries inserts into the hash set,
    one after the other, and the order in which the loop over the hash set
    then visits its keys: the order of [ea::hash_set], which depends on the
    insertions. *)
Definition requiredInsertions (chunkVicinity : BakedChunkVicinity) : list Z :=
  filter (fun lightmapIndex => lightmapIndex ≠ M_MAX_UNSIGNED)
    (map lightmapIndex_ (GetGeometries (raytracerScene_ chunkVicinity))).

Definition requiredDirectLightmaps (chunkVicinity : BakedChunkVicinity) : list Z :=
  hash_set_order (requiredInsertions chunkVicinity).

(** The vectors [bakedDirectLightmapsRefs] and [bakedDirectLightmaps],
    filled in the iteration order of the hash set. *)
Definition loadRequiredDirectLightmaps (required : list Z) : M (list (option Z)) :=
  let* n := gets numLightmapCharts_ in
  foldM required (replicate (Z.to_nat n) None)
    (fun table lightmapIndex =>
       let* handle := LoadDirectLight lightmapIndex in
       if bool_decide (0 <= lightmapIndex < n)
       then ret (<[Z.to_nat lightmapIndex := handle]> table)
       else fault).

(** "Generate final images": one pass of the loop over the texels. *)
Definition combineTexel (bakedDirect : option LightmapChartBakedDirect)
  (bakedIndirect : LightmapChartBakedIndirect)
  (acc : option (list Vector3)) (i : nat) : option (list Vector3) :=
  lightmap ← acc;
  direct ← bakedDirect;
  directLight ← directLight_ direct !! i;
  indirectLight ← Vector4_to_Vector3 <$> light_ bakedIndirect !! i;
  Some (<[i := Vector3_add (VectorMax Vector3_ZERO directLight)
                           (VectorMax Vector3_ZERO indirectLight)]> lightmap).

Definition generateFinalImage (lightmapSize : Z)
  (bakedDirect : option LightmapChartBakedDirect)
  (bakedIndirect : LightmapChartBakedIndirect) : option BakedLightmap :=
  let bakedLightmap := NewBakedLightmap lightmapSize in
  mkBakedLightmap lightmapSize <$>
    fold_left (combineTexel bakedDirect bakedIndirect)
      (indices (lightmap_ bakedLightmap)) (Some (lightmap_ bakedLightmap)).

(** The body of the loop over the lightmaps of a chunk. *)
Definition bakeIndirectChart (stopToken : StopToken)
  (chunkVicinity : BakedChunkVicinity) (bakedDirectLightmaps : list (option Z))
  (lightProbesMesh : TetrahedralMesh) (loc : IndirectLocals) (i : nat)
  : M (option IndirectLocals) :=
  let* stopped := IsStopped stopToken in
  if stopped then ret None
  else
    let* lightmapIndex := at_ (lightmaps_ chunkVicinity) i in
    let* geometryBuffer := at_ (geometryBuffers_ chunkVicinity) i in
    let* bakedDirect := LoadDirectLight lightmapIndex in
    let* s := gets settings_ in
    let* directs := viewDirect bakedDirectLightmaps in
    let bakedIndirect :=
      NormalizeLight
        (BakeIndirectLightForCharts (NewBakedIndirect (gb_lightmapSize_ geometryBuffer))
           directs geometryBuffer lightProbesMesh (lightProbesBakedData loc)
           (raytracerScene_ chunkVicinity) (geometryBufferToRaytracer_ chunkVicinity) s) in
    let* directBuffer :=
      (if 0 <? directFilter_kernelRadius_ s then
         let* direct := readDirect bakedDirect in
         let filtered := FilterDirectLight direct (directFilterBuffer loc) geometryBuffer s in
         writeDirect bakedDirect filtered.1;;; ret filtered.2
       else ret (directFilterBuffer loc)) in
    let filtered :=
      if 0 <? indirectFilter_kernelRadius_ s
      then FilterIndirectLight bakedIndirect (indirectFilterBuffer loc) geometryBuffer s
      else (bakedIndirect, indirectFilterBuffer loc) in
    let* c := gets cache_ in
    let* bakedLightmap :=
      deref (generateFinalImage (lightmapSize_ s)
               (bakedDirect ≫= fun k => directLights c !! k) filtered.1) in
    StoreLightmap lightmapIndex bakedLightmap;;;
    ret (Some (mkIndirectLocals directBuffer filtered.2 (lightProbesBakedData loc))).

(** "Bake direct lights for light probes". *)
Definition bakeDirectLightProbes (chunk : IntVector3)
  (chunkVicinity : BakedChunkVicinity) (data : LightProbeCollectionBakedData)
  : M LightProbeCollectionBakedData :=
  foldM (bakedLights_ chunkVicinity) data (fun data bakedLight =>
    let* s := gets settings_ in
    emit (EvBakeDirectLightForLightProbes chunk bakedLight);;;
    ret (BakeDirectLightForLightProbes data (lightProbesCollection_ chunkVicinity)
           (raytracerScene_ chunkVicinity) bakedLight s)).

(** [IntVector3::ToString]. *)
Definition IntVector3_ToString (v : IntVector3) : string :=
  to_string (x_ v) +:+ " " +:+ to_string (y_ v) +:+ " " +:+ to_string (z_ v).

Definition msg_saveProbes : string :=
  "Cannot save light probes for group '{}' in chunk {}".

(** "Save light probes". *)
Definition saveLightProbes (chunk : IntVector3) (chunkVicinity : BakedChunkVicinity)
  (data : LightProbeCollectionBakedData) : M unit :=
  forEach (upto (numUniqueLightProbes_ chunkVicinity)) (fun groupIndex =>
    let* fs := gets fileSystem_ in
    let saved := SaveLightProbesBakedData fs (lightProbesCollection_ chunkVicinity)
                   data (Z.of_nat groupIndex) in
    modify (with_fileSystem saved.2);;;
    emit (EvSaveLightProbesBakedData chunk (Z.of_nat groupIndex) saved.1);;;
    if negb saved.1 then
      let* groupName :=
        (if Z.of_nat groupIndex <? GetNumGroups (lightProbesCollection_ chunkVicinity)
         then at_ (names_ (lightProbesCollection_ chunkVicinity)) groupIndex
         else ret EmptyString) in
      URHO3D_LOGERROR msg_saveProbes [groupName; IntVector3_ToString chunk]
    else ret tt).

(** The body of the loop over the chunks. *)
Definition bakeIndirectChunk (stopToken : StopToken) (loc : IndirectLocals)
  (chunk : IntVector3) : M (option IndirectLocals) :=
  let* chunkVicinity := LoadChunkVicinity chunk in
  let* bakedDirectLightmaps :=
    loadRequiredDirectLightmaps (requiredDirectLightmaps chunkVicinity) in
  let* s := gets settings_ in
  let* directs := viewDirect bakedDirectLightmaps in
  emit (EvBakeIndirectLightForLightProbes chunk);;;
  let data :=
    BakeIndirectLightForLightProbes
      (Resize (lightProbesBakedData loc)
         (GetNumProbes (lightProbesCollection_ chunkVicinity)))
      (lightProbesCollection_ chunkVicinity) directs (raytracerScene_ chunkVicinity) s in
  let lightProbesMesh := Define (lightProbesCollection_ chunkVicinity) in
  let* r := foldBreak (indices (lightmaps_ chunkVicinity))
              (mkIndirectLocals (directFilterBuffer loc) (indirectFilterBuffer loc) data)
              (bakeIndirectChart stopToken chunkVicinity bakedDirectLightmaps
                 lightProbesMesh) in
  match r with
  | None => ret None
  | Some loc' =>
      let* data' := bakeDirectLightProbes chunk chunkVicinity (lightProbesBakedData loc') in
      saveLightProbes chunk chunkVicinity data';;;
      ret (Some (mkIndirectLocals (directFilterBuffer loc') (indirectFilterBuffer loc')
                   data'))
  end.

Definition BakeIndirectAndFilter (stopToken : StopToken) : M bool :=
  let* s := gets settings_ in
  let numTexels := wrap32 (lightmapSize_ s * lightmapSize_ s) in
  let* chunks := gets chunks_ in
  let* r := foldBreak chunks
              (mkIndirectLocals (replicate (Z.to_nat numTexels) Vector3_ZERO)
                 (replicate (Z.to_nat numTexels) Vector4_ZERO) EmptyBakedData)
              (bakeIndirectChunk stopToken) in
  ret (match r with Some _ => true | None => false end).

Definition Bake (stopToken : StopToken) : M bool :=
  let* direct := BakeDirectCharts stopToken in
  if negb direct then ret false
  else
    let* indirect := BakeIndirectAndFilter stopToken in
    if negb indirect then ret false else ret true.

(** *** CommitScene: stitching and image export *)

(** The stitching context, the blend buffer and the image, which are
    reused for every lightmap. *)
Record StitchLocals := mkStitchLocals {
  stitchingContext : LightmapStitchingContext;
  buffer : list Vector4;
  lightmapImage : Image;
}.

Definition msg_image : string := "Cannot allocate image for lightmap".

(** The [else] branch of "stitch seams or just copy data to buffer". *)
Definition copyTexel (bakedLightmap : option BakedLightmap)
  (acc : option (list Vector4)) (i : nat) : option (list Vector4) :=
  buffer ← acc;
  baked ← bakedLightmap;
  texel ← lightmap_ baked !! i;
  if bool_decide (i < length buffer)%nat
  then Some (<[i := Vector4_of texel fone]> buffer)
  else None.

Definition copyToBuffer (numTexels : Z) (bakedLightmap : option BakedLightmap)
  (buffer : list Vector4) : option (list Vector4) :=
  fold_left (copyTexel bakedLightmap) (upto numTexels) (Some buffer).

(** "Stitch seams or just copy data to buffer". *)
Definition fillBuffer (s : Settings) (numTexels : Z)
  (bakedLightmap : option BakedLightmap)
  (geometryBuffer : LightmapChartGeometryBuffer) (loc : StitchLocals)
  : option StitchLocals :=
  if (0 <? stitching_numIterations_ s)
     && negb (bool_decide (seams_ geometryBuffer = [])) then
    baked ← bakedLightmap;
    let seamsModel := CreateSeamsModel (seams_ geometryBuffer) in
    let stitched := StitchLightmapSeams (stitchingContext loc) (lightmap_ baked)
                      (buffer loc) s seamsModel in
    Some (mkStitchLocals stitched.1 stitched.2 (lightmapImage loc))
  else
    buffer' ← copyToBuffer numTexels bakedLightmap (buffer loc);
    Some (mkStitchLocals (stitchingContext loc) buffer' (lightmapImage loc)).

(** [1.0f / 2.0f]. *)
Definition multiplier : float :=
  SFdiv prec32 emax32 fone (S754_finite false 8388608 (-22)).

(** "Generate image": one pass of the loop over the texels. *)
Definition exportTexel (geometryBuffer : LightmapChartGeometryBuffer)
  (buffer : list Vector4) (acc : option Image) (i : nat) : option Image :=
  image ← acc;
  texel ← buffer !! i;
  if gb_lightmapSize_ geometryBuffer =? 0 then None
  else
    let x := Z.of_nat i mod gb_lightmapSize_ geometryBuffer in
    let y := Z.of_nat i / gb_lightmapSize_ geometryBuffer in
    let color := LinearToGamma (Color_of_Vector3 (Vector4_to_Vector3 texel)) in
    Some (SetPixel image x y
            (mkColor (fmul (r_ color) multiplier) (fmul (g_ color) multiplier)
                     (fmul (b_ color) multiplier) (a_ color))).

Definition generateImage (numTexels : Z) (geometryBuffer : LightmapChartGeometryBuffer)
  (buffer : list Vector4) (image : Image) : option Image :=
  fold_left (exportTexel geometryBuffer buffer) (upto numTexels) (Some image).

(** The body of the loop over the lightmaps of a chunk. *)
Definition stitchAndSaveLightmap (numTexels : Z) (chunkVicinity : BakedChunkVicinity)
  (loc : StitchLocals) (i : nat) : M StitchLocals :=
  let* lightmapIndex := at_ (lightmaps_ chunkVicinity) i in
  let* bakedLightmap := LoadLightmap lightmapIndex in
  let* geometryBuffer := at_ (geometryBuffers_ chunkVicinity) i in
  let* s := gets settings_ in
  let* loc := deref (fillBuffer s numTexels bakedLightmap geometryBuffer loc) in
  let* image := deref (generateImage numTexels geometryBuffer (buffer loc)
                         (lightmapImage loc)) in
  let fileName := GetLightmapFileName s lightmapIndex in
  fs_CreateDirsRecursive (GetPath fileName);;;
  let* fs := gets fileSystem_ in
  modify (with_fileSystem (Image_SaveFile fs image fileName).2);;;
  emit (EvSaveImage fileName image);;;
  ret (mkStitchLocals (stitchingContext loc) (buffer loc) image).

Definition StitchAndSaveImages : M unit :=
  let* s := gets settings_ in
  let numTexels := wrap32 (lightmapSize_ s * lightmapSize_ s) in
  emit (EvInitializeStitchingContext (lightmapSize_ s));;;
  let stitchingContext := InitializeStitchingContext (lightmapSize_ s) 4 in
  let buffer := replicate (Z.to_nat numTexels) Vector4_ZERO in
  let sized := SetSize NewImage (lightmapSize_ s) (lightmapSize_ s) 4 in
  if negb sized.1 then URHO3D_LOGERROR msg_image []
  else
    let* chunks := gets chunks_ in
    let* _ := foldM chunks (mkStitchLocals stitchingContext buffer sized.2)
      (fun loc chunk =>
         let* chunkVicinity := LoadChunkVicinity chunk in
         foldM (indices (lightmaps_ chunkVicinity)) loc
           (stitchAndSaveLightmap numTexels chunkVicinity)) in
    ret tt.

Definition CommitScene : M unit := StitchAndSaveImages.

End Baker.

(** ** Observations on the calls made *)

Section Observations.
Context `{Collaborators}.

(** The errors reported, as format and arguments. *)
Definition errors (t : list Event) : list (string * list string) :=
  omap (fun e => match e with
                 | Log LOG_ERROR format args => Some (format, args)
                 | _ => None
                 end) t.

Definition storedDirectLights (t : list Event) : list (Z * LightmapChartBakedDirect) :=
  omap (fun e => match e with
                 | EvStoreDirectLight i baked => Some (i, baked)
                 | _ => None
                 end) t.

Definition loadedDirectLights (t : list Event) : list Z :=
  omap (fun e => match e with EvLoadDirectLight i => Some i | _ => None end) t.

Definition storedLightmaps (t : list Event) : list (Z * BakedLightmap) :=
  omap (fun e => match e with
                 | EvStoreLightmap i baked => Some (i, baked)
                 | _ => None
                 end) t.

Definition loadedLightmaps (t : list Event) : list Z :=
  omap (fun e => match e with EvLoadLightmap i => Some i | _ => None end) t.

Definition savedImages (t : list Event) : list (string * Image) :=
  omap (fun e => match e with
                 | EvSaveImage fileName image => Some (fileName, image)
                 | _ => None
                 end) t.

(** The chart vectors applied to the scene, one per chunk, and all their
    charts in order. *)
Definition chartRuns (t : list Event) : list (list LightmapChart) :=
  omap (fun e => match e with EvApplyLightmapCharts charts => Some charts | _ => None end) t.

Definition appliedCharts (t : list Event) : list LightmapChart :=
  concat (chartRuns t).

(** Every chart vector comes from a call of the generator whose base index
    is [base] plus the number of charts of the vectors before it. *)
Fixpoint generatedFrom (s : Settings) (base : Z) (runs : list (list LightmapChart))
  : Prop :=
  match runs with
  | [] => True
  | charts :: rest =>
      (exists geometries, charts = GenerateLightmapCharts geometries s base) /\
      generatedFrom s (wrap32 (base + Z.of_nat (length charts))) rest
  end.

(** The entry [AddLightmap] receives for chart index [i]: the resource
    name of the lightmap file, or its absolute path when it has none. *)
Definition lightmapEntry (w : World) (i : nat) : string :=
  let fileName := GetLightmapFileName (settings_ w) (Z.of_nat i) in
  let resourceName := GetResourceName (resourceDirs_ w) fileName in
  if is_empty resourceName then fileName else resourceName.

(** The contract of the chart generator: the charts it returns for a base
    index carry the consecutive indices that start at the base. *)
Definition chartsStartAtBase : Prop :=
  forall geometries s base,
    map index_ (GenerateLightmapCharts geometries s base) =
    map (fun k => wrap32 (base + Z.of_nat k))
        (seq 0 (length (GenerateLightmapCharts geometries s base))).

(** The answers of the stop token. *)
Definition pollAnswers (t : list Event) : list bool :=
  omap (fun e => match e with EvIsStopped b => Some b | _ => None end) t.

End Observations.

(** ** The failures of [Initialize], in the spec's words

    "Failure conditions: unsupported rendering backend, undeterminable
    output location, directory-creation failure, metadata-file-creation
    failure". *)

Section InitializeSpec.
Context `{Collaborators}.

Inductive InitFailure :=
| UnsupportedBackend
| UndeterminableOutput
| DirectoryCreation
| MetadataFileCreation.

(** The failure class a reported error belongs to. *)
Definition failureOfMessage (format : string) : option InitFailure :=
  if bool_decide (format = msg_DX9) then Some UnsupportedBackend
  else if bool_decide (format = msg_undefined) then Some UndeterminableOutput
  else if bool_decide (format = msg_noExtension) then Some UndeterminableOutput
  else if bool_decide (format = msg_outputDirectory) then Some DirectoryCreation
  else if bool_decide (format = msg_giDirectory) then Some DirectoryCreation
  else if bool_decide (format = msg_giFile) then Some MetadataFileCreation
  else None.

(** The output directory once resolved: the configured one, or the scene
    file name without its extension, with a trailing slash. *)
Definition resolvedOutputDirectory (w : World) : string :=
  let configured := outputDirectory_ (incremental_ (settings_ w)) in
  AddTrailingSlash
    (if is_empty configured
     then ReplaceExtension (sceneFileName_ w) EmptyString
     else configured).

Definition giFileNameOf (w : World) : string :=
  resolvedOutputDirectory w +:+ giDataFileName_ (incremental_ (settings_ w)).

(** The failure that applies to a state, if any. *)
Definition initFailure (w : World) : option InitFailure :=
  let configured := outputDirectory_ (incremental_ (settings_ w)) in
  if Vector2_ne GetPixelUVOffset Vector2_ZERO then Some UnsupportedBackend
  else if is_empty configured
          && (is_empty (sceneFileName_ w)
              || bool_decide (ReplaceExtension (sceneFileName_ w) EmptyString
                              = sceneFileName_ w))
  then Some UndeterminableOutput
  else
    let outputCreated := CreateDir (fileSystem_ w) (resolvedOutputDirectory w) in
    if negb outputCreated.1 then Some DirectoryCreation
    else
      let giCreated := CreateDir outputCreated.2 (GetPath (giFileNameOf w)) in
      if negb giCreated.1 then Some DirectoryCreation
      else if negb (BinaryFile_SaveFile giCreated.2 (giFileNameOf w)).1
      then Some MetadataFileCreation
      else None.

End InitializeSpec.

(** ** The direct phase, as a list of jobs

    A description of what [BakeDirectCharts] is to do, used to state how far
    it gets when the stop token fires. *)

(** A job: the lightmap index and the direct buffer baked for it. *)
Abbreviation DirectJob := (Z * LightmapChartBakedDirect)%type.

Section DirectJobs.
Context `{Collaborators}.

Definition directJobs (s : Settings) (v : BakedChunkVicinity) : list DirectJob :=
  zip_with (fun lightmapIndex geometryBuffer =>
              (lightmapIndex, bakeDirect s v geometryBuffer))
           (lightmaps_ v) (geometryBuffers_ v).

Definition chunkDirectJobs (w : World) (chunk : IntVector3) : list DirectJob :=
  match chunkVicinities (cache_ w) !! chunk with
  | Some v => directJobs (settings_ w) v
  | None => []
  end.

Definition allDirectJobs (w : World) : list DirectJob :=
  flat_map (chunkDirectJobs w) (chunks_ w).

(** Every chunk of the list has its vicinity in the cache, with a geometry
    buffer for each of its lightmaps. *)
Definition vicinityReady (w : World) (chunk : IntVector3) : Prop :=
  exists v, chunkVicinities (cache_ w) !! chunk = Some v /\
            (length (lightmaps_ v) <= length (geometryBuffers_ v))%nat.

Definition vicinitiesReady (w : World) : Prop :=
  Forall (vicinityReady w) (chunks_ w).

(** The direct buffers of the cache after the jobs have been stored. *)
Definition storeAll (jobs : list DirectJob)
  (m : gmap Z LightmapChartBakedDirect) : gmap Z LightmapChartBakedDirect :=
  fold_left (fun m job => <[job.1 := job.2]> m) jobs m.

(** The calls of one job that is not stopped, and of the whole phase when
    the token answers [true] at poll number [K]. *)
Definition jobEvents (job : DirectJob) : list Event :=
  [EvIsStopped false; EvStoreDirectLight job.1 job.2].

Fixpoint directTrace (jobsOf : IntVector3 -> list DirectJob)
  (chunks : list IntVector3) (K : nat) : list Event :=
  match chunks with
  | [] => []
  | chunk :: rest =>
      EvLoadChunkVicinity chunk ::
      if (K <? length (jobsOf chunk))%nat
      then flat_map jobEvents (take K (jobsOf chunk)) ++ [EvIsStopped true]
      else flat_map jobEvents (jobsOf chunk)
           ++ directTrace jobsOf rest (K - length (jobsOf chunk))
  end.

(** The state after a part of the direct phase: [jobs] stored, the calls
    [t] made, the token polled [n] times. *)
Definition afterDirect (w : World) (jobs : list DirectJob) (t : list Event)
  (n : nat) : World :=
  with_trace (trace_ w ++ t)
    (with_polls (polls_ w + n)
       (with_cache
          (mkBakedLightCache (chunkVicinities (cache_ w))
             (storeAll jobs (directLights (cache_ w)))
             (lightmaps (cache_ w))) w)).

(** Calls of the direct phase. *)
Definition isDirectPhaseEvent (e : Event) : Prop :=
  match e with
  | EvLoadChunkVicinity _ | EvIsStopped _ | EvStoreDirectLight _ _ => True
  | _ => False
  end.

End DirectJobs.

(** ** The indirect phase, as a grammar of calls

    The calls [BakeIndirectAndFilter] makes when it does not fault. *)

Section IndirectShape.
Context `{Collaborators}.

(** Whether a loop ran to its end (it answers [None] when it executed
    [return false]). *)
Definition completed {A} (r : option A) : bool :=
  match r with Some _ => true | None => false end.

(** The calls of one lightmap that is not stopped. *)
Definition chartEvents (lightmapIndex : Z) (baked : BakedLightmap) : list Event :=
  [EvIsStopped false; EvLoadDirectLight lightmapIndex;
   EvStoreLightmap lightmapIndex baked].

(** The loop over the lightmaps [l] of a chunk; the flag tells whether the
    loop ran to its end. *)
Inductive chartLoopShape (s : Settings) (v : BakedChunkVicinity)
  : list nat -> bool -> list Event -> Prop :=
| loop_done : chartLoopShape s v [] true []
| loop_stop i l : chartLoopShape s v (i :: l) false [EvIsStopped true]
| loop_step i l lightmapIndex direct indirect baked completed t :
    lightmaps_ v !! i = Some lightmapIndex ->
    generateFinalImage (lightmapSize_ s) direct indirect = Some baked ->
    chartLoopShape s v l completed t ->
    chartLoopShape s v (i :: l) completed (chartEvents lightmapIndex baked ++ t).

(** "Save light probes": each group is saved, and a failed save is
    reported. *)
Inductive saveShape (chunk : IntVector3) : list nat -> list Event -> Prop :=
| save_done : saveShape chunk [] []
| save_ok g l t :
    saveShape chunk l t ->
    saveShape chunk (g :: l)
      (EvSaveLightProbesBakedData chunk (Z.of_nat g) true :: t)
| save_failed g l groupName t :
    saveShape chunk l t ->
    saveShape chunk (g :: l)
      (EvSaveLightProbesBakedData chunk (Z.of_nat g) false
       :: Log LOG_ERROR msg_saveProbes [groupName; IntVector3_ToString chunk] :: t).

(** What follows the loop over the lightmaps. *)
Definition tailShape (chunk : IntVector3) (v : BakedChunkVicinity)
  (t : list Event) : Prop :=
  exists saves,
    t = map (EvBakeDirectLightForLightProbes chunk) (bakedLights_ v) ++ saves /\
    saveShape chunk (upto (numUniqueLightProbes_ v)) saves.

(** One chunk. *)
Inductive chunkShape (V : gmap IntVector3 BakedChunkVicinity) (s : Settings)
  (chunk : IntVector3) : bool -> list Event -> Prop :=
| chunk_shape v completed loop tail :
    V !! chunk = Some v ->
    chartLoopShape s v (indices (lightmaps_ v)) completed loop ->
    (if completed then tailShape chunk v tail else tail = []) ->
    chunkShape V s chunk completed
      (EvLoadChunkVicinity chunk
       :: map EvLoadDirectLight (requiredDirectLightmaps v)
       ++ EvBakeIndirectLightForLightProbes chunk :: loop ++ tail).

(** The loop over the chunks. *)
Inductive phaseShape (V : gmap IntVector3 BakedChunkVicinity) (s : Settings)
  : list IntVector3 -> bool -> list Event -> Prop :=
| phase_done : phaseShape V s [] true []
| phase_stop chunk l t :
    chunkShape V s chunk false t -> phaseShape V s (chunk :: l) false t
| phase_step chunk l t completed t' :
    chunkShape V s chunk true t ->
    phaseShape V s l completed t' ->
    phaseShape V s (chunk :: l) completed (t ++ t').

(** The inputs of [Bake] that [Bake] does not change. *)
Definition sameBakeInputs (w w' : World) : Prop :=
  settings_ w' = settings_ w /\ chunks_ w' = chunks_ w /\
  numLightmapCharts_ w' = numLightmapCharts_ w /\
  chunkVicinities (cache_ w') = chunkVicinities (cache_ w).

(** *** Probe work *)

Inductive ProbeWork :=
| PIndirect (chunk : IntVector3)
| PDirect (chunk : IntVector3) (light : BakedLight)
| PSave (chunk : IntVector3) (groupIndex : Z).

Definition probeWork (t : list Event) : list ProbeWork :=
  omap (fun e => match e with
                 | EvBakeIndirectLightForLightProbes chunk => Some (PIndirect chunk)
                 | EvBakeDirectLightForLightProbes chunk light => Some (PDirect chunk light)
                 | EvSaveLightProbesBakedData chunk g _ => Some (PSave chunk g)
                 | _ => None
                 end) t.

(** All the probe work of a chunk: indirect light, direct light of every
    light, and the save of every group. *)
Definition chunkProbeWork (V : gmap IntVector3 BakedChunkVicinity)
  (chunk : IntVector3) : list ProbeWork :=
  match V !! chunk with
  | Some v =>
      PIndirect chunk :: map (PDirect chunk) (bakedLights_ v)
      ++ map (fun g => PSave chunk (Z.of_nat g)) (upto (numUniqueLightProbes_ v))
  | None => []
  end.

(** *** Where the stop token is polled

    A monitor that reads the calls of [Bake] one by one.  A poll answered
    [false] must be followed at once by the work of a lightmap (the store
    of its direct buffer, or the load of its direct buffer and then the
    store of its final lightmap); no lightmap is stored otherwise; after a
    poll answered [true] nothing may follow. *)
Inductive PollState := Idle | Polled | Loaded (lightmapIndex : Z) | Stopped.

Definition pollStep (st : PollState) (e : Event) : option PollState :=
  match st, e with
  | Idle, EvIsStopped false => Some Polled
  | Idle, EvIsStopped true => Some Stopped
  | Idle, (EvStoreDirectLight _ _ | EvStoreLightmap _ _) => None
  | Idle, _ => Some Idle
  | Polled, EvStoreDirectLight _ _ => Some Idle
  | Polled, EvLoadDirectLight i => Some (Loaded i)
  | Polled, _ => None
  | Loaded i, EvStoreLightmap j _ => if bool_decide (i = j) then Some Idle else None
  | Loaded _, _ => None
  | Stopped, _ => None
  end.

Definition pollRun (st : PollState) (t : list Event) : option PollState :=
  fold_left (fun st e => st ≫= fun st => pollStep st e) t (Some st).

End IndirectShape.

(** ** The direct phase, as a grammar of calls

    The calls [BakeDirectCharts] makes when it does not fault. *)

Section DirectShape.
Context `{Collaborators}.

(** The loop over the lightmaps [l] of a chunk; the flag tells whether the
    loop ran to its end. *)
Inductive directLoopShape (s : Settings) (v : BakedChunkVicinity)
  : list nat -> bool -> list Event -> Prop :=
| direct_loop_done : directLoopShape s v [] true []
| direct_loop_stop i l : directLoopShape s v (i :: l) false [EvIsStopped true]
| direct_loop_step i l lightmapIndex geometryBuffer completed t :
    lightmaps_ v !! i = Some lightmapIndex ->
    geometryBuffers_ v !! i = Some geometryBuffer ->
    directLoopShape s v l completed t ->
    directLoopShape s v (i :: l) completed
      (jobEvents (lightmapIndex, bakeDirect s v geometryBuffer) ++ t).

(** The loop over the chunks. *)
Inductive directPhaseShape (V : gmap IntVector3 BakedChunkVicinity) (s : Settings)
  : list IntVector3 -> bool -> list Event -> Prop :=
| direct_phase_done : directPhaseShape V s [] true []
| direct_phase_stop chunk l v t :
    V !! chunk = Some v ->
    directLoopShape s v (indices (lightmaps_ v)) false t ->
    directPhaseShape V s (chunk :: l) false (EvLoadChunkVicinity chunk :: t)
| direct_phase_step chunk l v t completed t' :
    V !! chunk = Some v ->
    directLoopShape s v (indices (lightmaps_ v)) true t ->
    directPhaseShape V s l completed t' ->
    directPhaseShape V s (chunk :: l) completed
      (EvLoadChunkVicinity chunk :: t ++ t').

(** A chunk that owns no lightmap and whose vicinity is in the cache and
    well formed: the lightmap indices its geometries refer to are chart
    indices, and every group the collection counts has a name. *)
Definition noLightmapChunk (w : World) (chunk : IntVector3) : Prop :=
  exists v,
    chunkVicinities (cache_ w) !! chunk = Some v /\
    lightmaps_ v = [] /\
    (forall i, i ∈ collectRequiredDirectLightmaps v -> 0 <= i < numLightmapCharts_ w) /\
    (GetNumGroups (lightProbesCollection_ v)
       <= Z.of_nat (length (names_ (lightProbesCollection_ v)))).

(** What is left of the probe work of the chunk at position [n] when the
    run stopped there: nothing, or the indirect light of its probes, which
    is baked before the loop over its lightmaps. *)
Definition interruptedProbeWork (chunks : list IntVector3) (n : nat)
  (partial : list ProbeWork) : Prop :=
  partial = [] \/ exists chunk, chunks !! n = Some chunk /\ partial = [PIndirect chunk].

End DirectShape.

(** ** Copy with alpha 1, in the spec's words

    "otherwise copy values directly (alpha forced to 1)". *)
Definition copyWithAlpha1 (lightmap : list Vector3) : list Vector4 :=
  map (fun texel => Vector4_of texel fone) lightmap.

(** ** A small scene

    A concrete engine and a concrete scene on which the properties below
    are exercised: two chunks with one lightmap of one texel each, a
    tracer whose light has negative channels, and a file system that
    refuses the paths it lists. *)

Module Example.

(** [-1.0f]. *)
Definition fminus : float := S754_finite true 8388608 (-23).

Definition slash : Ascii.ascii := Ascii.ascii_of_nat 47.
Definition dot : Ascii.ascii := Ascii.ascii_of_nat 46.

Fixpoint hasChar (c : Ascii.ascii) (s : string) : bool :=
  match s with
  | EmptyString => false
  | String c' rest => Ascii.eqb c c' || hasChar c rest
  end.

Fixpoint endsWithSlash (s : string) : bool :=
  match s with
  | EmptyString => false
  | String c EmptyString => Ascii.eqb c slash
  | String _ rest => endsWithSlash rest
  end.

(** The part of a file name up to its last slash, and up to its last
    dot. *)
Fixpoint pathOf (s : string) : string :=
  match s with
  | EmptyString => EmptyString
  | String c rest =>
      if hasChar slash rest then String c (pathOf rest)
      else if Ascii.eqb c slash then String c EmptyString else EmptyString
  end.

Fixpoint stem (s : string) : string :=
  match s with
  | EmptyString => EmptyString
  | String c rest =>
      if hasChar dot rest then String c (stem rest)
      else if Ascii.eqb c dot then EmptyString else String c (stem rest)
  end.

Definition types : EngineTypes := {|
  Component := unit;
  LightProbeGroup := unit;
  Forwarded := unit;
  Collector := list (IntVector3 * nat);
  FileSystem := list string;
  LightmapChart := Z;
  index_ := fun chart => chart;
  LightmapSeam := unit;
  GeometryData := unit;
  RaytracerScene := list Z;
  RaytracerGeometry := Z;
  GetGeometries := fun scene => scene;
  lightmapIndex_ := fun geometry => geometry;
  BakedLight := unit;
  LightProbeCollection := list string;
  GetNumProbes := fun collection => Z.of_nat (length collection);
  GetNumGroups := fun collection => Z.of_nat (length collection);
  names_ := fun collection => collection;
  LightProbeCollectionBakedData := unit;
  TetrahedralMesh := unit;
  LightmapChartBakedDirect := list Vector3;
  directLight_ := fun baked => baked;
  LightmapChartBakedIndirect := list Vector4;
  light_ := fun baked => baked;
  LightmapStitchingContext := unit;
  SeamsModel := unit;
  Image := list (Z * Z * Color);
|}.

#[local] Existing Instance types.

(** The collector lists the chunks with the number of their geometries;
    the charter gives every geometry a chart of its own, numbered from the
    base index; the file system lists the paths it refuses; an image
    cannot be larger than 16384 texels a side; a hash set is iterated in
    the order of the last insertion of each key. *)
Definition engine : Collaborators := {|
  LockScene := fun collector _ => collector;
  GetChunks := fun collector => map fst collector;
  GetUniqueGeometries := fun collector chunk =>
    flat_map (fun entry => if bool_decide (entry.1 = chunk)
                           then replicate entry.2 tt else []) collector;
  GetUniqueLightProbeGroups := fun _ _ => [tt];
  CommitGeometries := fun collector _ => collector;
  GenerateLightmapCharts := fun geometries _ base =>
    map (fun k => wrap32 (base + Z.of_nat k)) (seq 0 (length geometries));
  CreateBakedChunkVicinity := fun _ _ _ =>
    mkBakedChunkVicinity [] [] [] [] [] [] 0;
  NewBakedDirect := fun lightmapSize =>
    replicate (Z.to_nat (lightmapSize * lightmapSize)) Vector3_ZERO;
  NewBakedIndirect := fun lightmapSize =>
    replicate (Z.to_nat (lightmapSize * lightmapSize)) Vector4_ZERO;
  NormalizeLight := fun baked => baked;
  BakeEmissionLight := fun baked _ _ =>
    map (fun _ => mkVector3 fminus fone fzero) baked;
  BakeDirectLightForCharts := fun baked _ _ _ _ _ => baked;
  BakeIndirectLightForLightProbes := fun data _ _ _ _ => data;
  BakeIndirectLightForCharts := fun baked _ _ _ _ _ _ _ =>
    map (fun _ => mkVector4 fone fminus fzero fone) baked;
  BakeDirectLightForLightProbes := fun data _ _ _ _ => data;
  FilterDirectLight := fun baked scratch _ _ => (baked, scratch);
  FilterIndirectLight := fun baked scratch _ _ => (baked, scratch);
  EmptyBakedData := tt;
  Resize := fun data _ => data;
  Define := fun _ => tt;
  SaveLightProbesBakedData := fun fileSystem _ _ _ => (true, fileSystem);
  InitializeStitchingContext := fun _ _ => tt;
  CreateSeamsModel := fun _ => tt;
  StitchLightmapSeams := fun context _ scratch _ _ => (context, scratch);
  NewImage := [];
  SetSize := fun _ width height _ =>
    ((width <=? 16384) && (height <=? 16384), []);
  SetPixel := fun image x y color => (x, y, color) :: image;
  Image_SaveFile := fun fileSystem _ fileName =>
    (bool_decide (fileName ∉ fileSystem), fileSystem);
  LinearToGamma := fun color => color;
  CreateDir := fun fileSystem path => (bool_decide (path ∉ fileSystem), fileSystem);
  CreateDirsRecursive := fun fileSystem path =>
    (bool_decide (path ∉ fileSystem), fileSystem);
  BinaryFile_SaveFile := fun fileSystem fileName =>
    (bool_decide (fileName ∉ fileSystem), fileSystem);
  ReplaceExtension := fun fileName extension => stem fileName +:+ extension;
  AddTrailingSlash := fun path => if endsWithSlash path then path else path +:+ "/";
  GetPath := pathOf;
  GetPixelUVOffset := Vector2_ZERO;
  hash_set_order := remove_dups;
  hash_set_order_NoDup := NoDup_remove_dups;
  hash_set_order_elem := fun inserted key => elem_of_remove_dups inserted key;
|}.

#[local] Existing Instance engine.

Definition settings (outputDirectory : string) (lightmapSize : Z) : Settings :=
  mkLightBakingSettings lightmapSize 0 0 0
    (mkIncrementalSettings outputDirectory "gi.bin" "lightmap-" ".png"
       "probes-" ".bin")
    tt.

Definition chunkA : IntVector3 := mkIntVector3 0 0 0.
Definition chunkB : IntVector3 := mkIntVector3 1 0 0.

Definition geometryBuffer : LightmapChartGeometryBuffer := mkGeometryBuffer 1 [] tt.

(** Chunk A owns lightmap 0 and chunk B lightmap 1; the geometries around
    each of them refer to both lightmaps, and one geometry of A has no
    lightmap. *)
Definition vicinityA : BakedChunkVicinity :=
  mkBakedChunkVicinity [0] [geometryBuffer] [tt] [0; 1; M_MAX_UNSIGNED] [0]
    ["group A"] 1.
Definition vicinityB : BakedChunkVicinity :=
  mkBakedChunkVicinity [1] [geometryBuffer] [tt] [0; 1] [0] ["group B"] 1.

Definition world (s : Settings) (chunks : list IntVector3)
  (vicinities : gmap IntVector3 BakedChunkVicinity)
  (direct : gmap Z LightmapChartBakedDirect) (sceneFileName : string) : World :=
  mkWorld s chunks 2 [(chunkA, 2%nat); (chunkB, 1%nat)]
    (mkBakedLightCache vicinities direct ∅) [] sceneFileName (Some ("", ""))
    [] ["/"] 0 [].

Definition scene : World :=
  world (settings "/out/" 1) [chunkA; chunkB]
    (<[chunkA := vicinityA]> (<[chunkB := vicinityB]> ∅)) ∅ "/scenes/level.xml".

(** A scene that was never saved and has no output directory, and a scene
    whose lightmaps are too large for an image. *)
Definition unsavedScene : World :=
  world (settings "" 1) [chunkA; chunkB] ∅ ∅ "".
Definition hugeScene : World :=
  world (settings "/out/" 65536) [chunkA; chunkB]
    (<[chunkA := vicinityA]> (<[chunkB := vicinityB]> ∅)) ∅ "/scenes/level.xml".

(** The texel [(-1, 1, 0)]. *)
Definition texel : Vector3 := mkVector3 fminus fone fzero.

(** A chunk with light probes and no lightmap. *)
Definition vicinityP : BakedChunkVicinity :=
  mkBakedChunkVicinity [] [] [tt; tt] [] [] ["group P"] 1.
Definition sceneP : World :=
  world (settings "/out/" 1) [chunkA] (<[chunkA := vicinityP]> ∅) ∅
    "/scenes/level.xml".

(** Stop tokens: never stopped, stopped from the start, stopped at poll
    [k]. *)
Definition never : StopToken := fun _ => false.
Definition always : StopToken := fun _ => true.
Definition stopAt (k : nat) : StopToken := fun n => (n =? k)%nat.

(** The state and the calls of a run. *)
Definition finalWorld {A} (r : Res A) : World :=
  match r with Ok _ w => w | Fault w => w end.
Definition callsOf {A} (w : World) (r : Res A) : list Event :=
  drop (length (trace_ w)) (trace_ (finalWorld r)).

Definition locals : IndirectLocals :=
  mkIndirectLocals [Vector3_ZERO] [Vector4_ZERO] tt.

(** The locals of the image export before the first lightmap, and the
    image of the final lightmap [bakedTexel] below. *)
Definition stitchLocals : StitchLocals := mkStitchLocals tt [Vector4_ZERO] [].
Definition savedImage : Image := [(0, 0, mkColor fhalf fhalf fzero fone)].

(** The scene once the direct phase has run. *)
Definition directDone : World := finalWorld (BakeDirectCharts never scene).

(** The final lightmap of one texel that the scene gets for lightmap 0, and
    the scene once baked. *)
Definition bakedTexel : BakedLightmap := mkBakedLightmap 1 [mkVector3 fone fone fzero].
Definition baked : World := finalWorld (Bake never scene).

(** The baked scene on a file system that refuses the image of lightmap
    0. *)
Definition bakedRefused : World := with_fileSystem ["/out/lightmap-0.png"] baked.

End Example.

(** ** Further notions

    Used to state what the rest of the code does. *)

(** The chunks whose distance to the origin [base] fits the bits of the
    key that [Swizzle] keeps: 11 bits for x and y, 10 bits for z. *)
Definition inKeyRange (base v : IntVector3) : Prop :=
  0 <= x_ v - x_ base < 2 ^ 11 /\ 0 <= y_ v - y_ base < 2 ^ 11 /\
  0 <= z_ v - z_ base < 2 ^ 10.

Section CacheNotions.
Context `{Collaborators}.

(** The lightmaps of a chunk, and of the chunks of a list in order, as the
    vicinities of the cache give them. *)
Definition chunkLightmaps (V : gmap IntVector3 BakedChunkVicinity)
  (chunk : IntVector3) : list Z :=
  match V !! chunk with
  | Some v => lightmaps_ v
  | None => []
  end.

Definition allLightmaps (V : gmap IntVector3 BakedChunkVicinity)
  (chunks : list IntVector3) : list Z :=
  flat_map (chunkLightmaps V) chunks.

(** The final lightmaps of the cache after the stores. *)
Definition storeLightmaps (stores : list (Z * BakedLightmap))
  (m : gmap Z BakedLightmap) : gmap Z BakedLightmap :=
  fold_left (fun m store => <[store.1 := store.2]> m) stores m.

(** A step that leaves the chunk list, the settings and the cache as they
    are. *)
Definition sameScene (w w' : World) : Prop :=
  chunks_ w' = chunks_ w /\ settings_ w' = settings_ w /\ cache_ w' = cache_ w.

(** A step whose stores of final lightmaps are what changes the final
    lightmaps of the cache. *)
Definition lightmapsStored (w w' : World) : Prop :=
  exists t, trace_ w' = trace_ w ++ t /\
            lightmaps (cache_ w') =
              storeLightmaps (storedLightmaps t) (lightmaps (cache_ w)).

(** A step whose stores of direct buffers are what changes the direct
    buffers of the cache. *)
Definition directStored (w w' : World) : Prop :=
  exists t, trace_ w' = trace_ w ++ t /\
            directLights (cache_ w') =
              storeAll (storedDirectLights t) (directLights (cache_ w)).

(** A step that keeps the settings and the lightmap indices that have a
    direct buffer in the cache, and keeps the direct buffers themselves
    when the direct filter is off. *)
Definition directBuffersKept (w w' : World) : Prop :=
  settings_ w' = settings_ w /\
  dom (directLights (cache_ w')) = dom (directLights (cache_ w)) /\
  (directFilter_kernelRadius_ (settings_ w) <= 0 ->
   directLights (cache_ w') = directLights (cache_ w)).

End CacheNotions.

(** * Properties *)

(** ** Machine integers and bits *)

Lemma wrap32_range z : 0 <= wrap32 z < 2 ^ 32.
Proof. unfold wrap32. apply Z.mod_pos_bound. lia. Qed.

Lemma wrap32_small z : 0 <= z < 2 ^ 32 -> wrap32 z = z.
Proof. intros Hz. unfold wrap32. apply Z.mod_small. lia. Qed.

Lemma testbit_b2z (b : bool) (k : Z) :
  0 <= k -> Z.testbit (Z.b2z b) k = b && (k =? 0).
Proof.
  intros Hk. destruct (Z.eqb_spec k 0) as [->|Hne].
  - rewrite Z.b2z_bit0. now rewrite andb_true_r.
  - rewrite andb_false_r. destruct b; simpl.
    + apply Z.bits_above_log2; simpl; lia.
    + apply Z.bits_0.
Qed.

(** Unfolding equations of the list iterators, for rewriting. *)
Lemma fold_left_nil {A B} (f : A -> B -> A) a : fold_left f [] a = a.
Proof. reflexivity. Qed.

Lemma fold_left_step {A B} (f : A -> B -> A) x l a :
  fold_left f (x :: l) a = fold_left f l (f a x).
Proof. reflexivity. Qed.

Lemma existsb_nil {A} (f : A -> bool) : existsb f [] = false.
Proof. reflexivity. Qed.

Lemma existsb_step {A} (f : A -> bool) x l :
  existsb f (x :: l) = f x || existsb f l.
Proof. reflexivity. Qed.

Module LocalityFacts.
Import Locality.

Lemma bitAt_testbit c i : 0 <= i -> bitAt c i = Z.b2z (Z.testbit c i).
Proof.
  intros Hi. unfold bitAt. rewrite Z.shiftl_1_l.
  destruct (Z.testbit c i) eqn:Hb; simpl.
  - destruct (Z.eqb_spec (Z.land c (2 ^ i)) 0) as [Hz|]; [|reflexivity].
    assert (Hl : Z.testbit (Z.land c (2 ^ i)) i = true).
    { rewrite Z.land_spec, Hb, Z.pow2_bits_true; auto. }
    rewrite Hz, Z.bits_0 in Hl. discriminate.
  - destruct (Z.eqb_spec (Z.land c (2 ^ i)) 0) as [|Hnz]; [reflexivity|].
    exfalso. apply Hnz. apply Z.bits_inj'. intros k Hk.
    rewrite Z.land_spec, Z.bits_0.
    destruct (Z.eq_dec k i) as [->|Hne].
    + now rewrite Hb.
    + rewrite (Z.pow2_bits_false i k) by lia. apply andb_false_r.
Qed.

(** One pass of the inner loop sets bit [3 i + j] from bit [i] of the
    coordinate, provided that bit lies below 32. *)
Lemma swizzleStep_testbit c j r (i : nat) n :
  0 <= j -> 0 <= n < 32 ->
  Z.testbit (swizzleStep c j r i) n =
  Z.testbit r n || ((n =? Z.of_nat i * 3 + j) && Z.testbit c (Z.of_nat i)).
Proof.
  intros Hj Hn. unfold swizzleStep, wrap32, wrap64, numComponents.
  rewrite Z.mod_pow2_bits_low by lia.
  rewrite Z.lor_spec. f_equal.
  rewrite Z.mod_pow2_bits_low by lia.
  rewrite Z.shiftl_spec by lia.
  rewrite bitAt_testbit by lia.
  destruct (Z.eqb_spec n (Z.of_nat i * 3 + j)) as [->|Hne].
  - rewrite Z.sub_diag, Z.b2z_bit0. reflexivity.
  - simpl. destruct (Z.ltb_spec (n - (Z.of_nat i * 3 + j)) 0).
    + now apply Z.testbit_neg_r.
    + rewrite testbit_b2z by lia.
      destruct (Z.eqb_spec (n - (Z.of_nat i * 3 + j)) 0); [lia|].
      apply andb_false_r.
Qed.

Lemma swizzleStep_high c j r (i : nat) n :
  32 <= n -> Z.testbit (swizzleStep c j r i) n = false.
Proof.
  intros Hn. unfold swizzleStep, wrap32.
  apply Z.mod_pow2_bits_high. lia.
Qed.

Lemma fold_swizzleStep_testbit c j n :
  0 <= j -> 0 <= n < 32 ->
  forall (ixs : list nat) r,
  Z.testbit (fold_left (swizzleStep c j) ixs r) n =
  Z.testbit r n ||
  existsb (fun i => (n =? Z.of_nat i * 3 + j) && Z.testbit c (Z.of_nat i)) ixs.
Proof.
  intros Hj Hn ixs. induction ixs as [|i ixs IH]; intros r; simpl.
  - now rewrite orb_false_r.
  - rewrite IH, swizzleStep_testbit by assumption. now rewrite orb_assoc.
Qed.

Lemma fold_swizzleStep_high c j n :
  32 <= n ->
  forall (ixs : list nat) r,
  Z.testbit r n = false -> Z.testbit (fold_left (swizzleStep c j) ixs r) n = false.
Proof.
  intros Hn ixs. induction ixs as [|i ixs IH]; intros r Hr; simpl; [assumption|].
  apply IH. now apply swizzleStep_high.
Qed.

(** The bits of one coordinate as they are spread over the key. *)
Definition spread (n : Z) (jc : Z * Z) : bool :=
  existsb (fun i => (n =? Z.of_nat i * 3 + jc.1) && Z.testbit jc.2 (Z.of_nat i))
          (seq 0 (Z.to_nat maxBitsPerComponent)).

Lemma swizzleComponent_testbit n r jc :
  0 <= n < 32 -> 0 <= jc.1 ->
  Z.testbit (swizzleComponent r jc) n = Z.testbit r n || spread n jc.
Proof.
  intros Hn Hj. unfold swizzleComponent, spread.
  apply fold_swizzleStep_testbit; assumption.
Qed.

Lemma fold_swizzleComponent_testbit n :
  0 <= n < 32 ->
  forall (jcs : list (Z * Z)) r,
  Forall (fun jc => 0 <= jc.1) jcs ->
  Z.testbit (fold_left swizzleComponent jcs r) n =
  Z.testbit r n || existsb (spread n) jcs.
Proof.
  intros Hn jcs. induction jcs as [|jc jcs IH]; intros r Hall.
  - rewrite fold_left_nil, existsb_nil. apply eq_sym, orb_false_r.
  - apply Forall_cons_iff in Hall as [Hj Hrest].
    rewrite fold_left_step, existsb_step, IH by assumption.
    rewrite swizzleComponent_testbit by assumption.
    apply eq_sym, orb_assoc.
Qed.

Lemma fold_swizzleComponent_high n :
  32 <= n ->
  forall (jcs : list (Z * Z)) r,
  Z.testbit r n = false -> Z.testbit (fold_left swizzleComponent jcs r) n = false.
Proof.
  intros Hn jcs. induction jcs as [|jc jcs IH]; intros r Hr.
  - rewrite fold_left_nil. exact Hr.
  - rewrite fold_left_step. apply IH.
    unfold swizzleComponent. now apply fold_swizzleStep_high.
Qed.

(** What [Swizzle] computes: the interleaved bits that land below bit 32. *)
Lemma Swizzle_unfold vec base :
  Swizzle vec base =
  fold_left swizzleComponent
    [(0, wrap32 (x_ vec - x_ base)); (1, wrap32 (y_ vec - y_ base));
     (2, wrap32 (z_ vec - z_ base))] 0.
Proof. reflexivity. Qed.

Lemma spread_hit c (i j : nat) :
  Z.of_nat i < maxBitsPerComponent ->
  forall j' : nat, (j < 3)%nat -> (j' < 3)%nat ->
  spread (Z.of_nat i * 3 + Z.of_nat j) (Z.of_nat j', c) =
  (j' =? j)%nat && Z.testbit c (Z.of_nat i).
Proof.
  intros Hi j' Hj Hj'. unfold spread. cbn [fst snd].
  apply eq_true_iff_eq. rewrite existsb_exists, andb_true_iff, Nat.eqb_eq. split.
  - intros [i' [_ Hb]]. apply andb_true_iff in Hb as [Heq Hb].
    apply Z.eqb_eq in Heq. assert (i' = i) by lia. subst i'.
    split; [lia | exact Hb].
  - intros [-> Hb]. exists i. split.
    + apply in_seq. lia.
    + now rewrite Z.eqb_refl.
Qed.

Lemma Swizzle_low_bits vec base (i j : nat) :
  (j < 3)%nat -> Z.of_nat i < maxBitsPerComponent ->
  Z.of_nat i * 3 + Z.of_nat j < 32 ->
  Z.testbit (Swizzle vec base) (Z.of_nat i * 3 + Z.of_nat j) =
  Z.testbit (nth j (xyz vec base) 0) (Z.of_nat i).
Proof.
  intros Hj Hi Hn. rewrite Swizzle_unfold.
  rewrite fold_swizzleComponent_testbit;
    [| lia | repeat (apply List.Forall_cons; [cbn [fst]; lia|]); apply List.Forall_nil].
  rewrite Z.bits_0, orb_false_l, !existsb_step, existsb_nil.
  rewrite (spread_hit _ i j Hi 0%nat), (spread_hit _ i j Hi 1%nat),
    (spread_hit _ i j Hi 2%nat) by lia.
  unfold xyz. destruct j as [|[|[|j]]]; cbn [Nat.eqb nth andb orb]; try lia.
  - now rewrite !orb_false_r.
  - now rewrite !orb_false_r.
  - now rewrite !orb_false_r.
Qed.

Lemma Swizzle_high_bits vec base n :
  32 <= n -> Z.testbit (Swizzle vec base) n = false.
Proof.
  intros Hn. unfold Swizzle. apply fold_swizzleComponent_high; [assumption|].
  apply Z.bits_0.
Qed.

(** *** The sort *)

Section SortFacts.
Context {A : Type} (key : A -> Z).
Let less (a b : A) : bool := key a <? key b.
Let le (a b : A) : Prop := key a <= key b.

Lemma sort_insert_perm x l : Permutation (x :: l) (sort_insert less x l).
Proof.
  induction l as [|y l IH]; cbn [sort_insert]; [reflexivity|].
  destruct (less x y); [reflexivity|].
  rewrite perm_swap. now apply perm_skip.
Qed.

Lemma sort_insert_hd x l a :
  le a x -> HdRel le a l -> HdRel le a (sort_insert less x l).
Proof.
  intros Hax Hl. destruct l as [|y l]; cbn [sort_insert].
  - now constructor.
  - destruct (less x y); constructor; [assumption|].
    now inversion Hl.
Qed.

Lemma sort_insert_sorted x l : Sorted le l -> Sorted le (sort_insert less x l).
Proof.
  induction l as [|y l IH]; intros Hs; cbn [sort_insert].
  - repeat constructor.
  - destruct (less x y) eqn:Hxy.
    + constructor; [assumption|]. constructor. unfold less in Hxy. unfold le. lia.
    + inversion Hs as [|? ? Hs' Hhd]; subst. constructor; [now apply IH|].
      apply sort_insert_hd; [|assumption]. unfold less in Hxy. unfold le. lia.
Qed.

Lemma ea_sort_from acc l :
  Sorted le acc ->
  Sorted le (fold_left (fun acc x => sort_insert less x acc) l acc) /\
  Permutation (l ++ acc) (fold_left (fun acc x => sort_insert less x acc) l acc).
Proof.
  revert acc. induction l as [|x l IH]; intros acc Hacc; cbn [fold_left app].
  - split; [assumption | reflexivity].
  - destruct (IH (sort_insert less x acc)) as [Hs Hp];
      [now apply sort_insert_sorted|].
    split; [assumption|]. rewrite <- Hp, <- sort_insert_perm.
    now rewrite Permutation_middle.
Qed.

Lemma ea_sort_sorted l : Sorted le (ea_sort less l).
Proof. unfold ea_sort. apply ea_sort_from. constructor. Qed.

Lemma ea_sort_perm l : Permutation l (ea_sort less l).
Proof.
  unfold ea_sort. destruct (ea_sort_from [] l) as [_ Hp]; [constructor|].
  now rewrite app_nil_r in Hp.
Qed.

End SortFacts.

(** [ea_sort] looks at the elements through the comparator only. *)
Lemma sort_insert_map {A B} (f : A -> B) (less : A -> A -> bool)
  (less' : B -> B -> bool) :
  (forall a b, less' (f a) (f b) = less a b) ->
  forall x l, sort_insert less' (f x) (map f l) = map f (sort_insert less x l).
Proof.
  intros Hless x l. induction l as [|y l IH]; cbn [sort_insert map]; [reflexivity|].
  rewrite Hless. destruct (less x y); cbn [map]; [reflexivity|]. now rewrite IH.
Qed.

Lemma ea_sort_map {A B} (f : A -> B) (less : A -> A -> bool)
  (less' : B -> B -> bool) :
  (forall a b, less' (f a) (f b) = less a b) ->
  forall l, ea_sort less' (map f l) = map f (ea_sort less l).
Proof.
  intros Hless l. unfold ea_sort.
  change (@nil B) with (map f []). generalize (@nil A) as acc.
  induction l as [|x l IH]; intros acc; cbn [fold_left map]; [reflexivity|].
  rewrite (sort_insert_map f less less' Hless). apply IH.
Qed.

(** *** Translation of the chunk set *)

Lemma xyz_translate t vec base :
  xyz (translate t vec) (translate t base) = xyz vec base.
Proof.
  unfold xyz, translate; cbn [x_ y_ z_].
  replace (x_ vec + x_ t - (x_ base + x_ t)) with (x_ vec - x_ base) by lia.
  replace (y_ vec + y_ t - (y_ base + y_ t)) with (y_ vec - y_ base) by lia.
  replace (z_ vec + z_ t - (z_ base + z_ t)) with (z_ vec - z_ base) by lia.
  reflexivity.
Qed.

Lemma Swizzle_translate t vec base :
  Swizzle (translate t vec) (translate t base) = Swizzle vec base.
Proof. unfold Swizzle. now rewrite xyz_translate. Qed.

Lemma compareSwizzled_translate t base lhs rhs :
  compareSwizzled (translate t base) (translate t lhs) (translate t rhs) =
  compareSwizzled base lhs rhs.
Proof. unfold compareSwizzled. now rewrite !Swizzle_translate. Qed.

Lemma MinIntVector3_translate t a b :
  MinIntVector3 (translate t a) (translate t b) = translate t (MinIntVector3 a b).
Proof.
  unfold MinIntVector3, translate; cbn [x_ y_ z_].
  now rewrite !Z.add_min_distr_r.
Qed.

Lemma fold_MinIntVector3_translate t l a :
  fold_left MinIntVector3 (map (translate t) l) (translate t a) =
  translate t (fold_left MinIntVector3 l a).
Proof.
  revert a. induction l as [|x l IH]; intros a; cbn [fold_left map]; [reflexivity|].
  now rewrite MinIntVector3_translate, IH.
Qed.

Lemma baseChunkIndex_translate t chunks :
  baseChunkIndex (map (translate t) chunks) = translate t <$> baseChunkIndex chunks.
Proof.
  destruct chunks as [|front chunks]; [reflexivity|].
  change (baseChunkIndex (map (translate t) (front :: chunks))) with
    (Some (fold_left MinIntVector3 (map (translate t) (front :: chunks))
             (translate t front))).
  now rewrite fold_MinIntVector3_translate.
Qed.

(** *** The origin and the coordinates that the key determines *)

Lemma fold_MinIntVector3_le (l : list IntVector3) :
  forall a,
  let m := fold_left MinIntVector3 l a in
  (x_ m <= x_ a /\ y_ m <= y_ a /\ z_ m <= z_ a) /\
  Forall (fun c => x_ m <= x_ c /\ y_ m <= y_ c /\ z_ m <= z_ c) l.
Proof.
  induction l as [|c l IH]; intros a; cbn [fold_left].
  - split; [lia|constructor].
  - destruct (IH (MinIntVector3 a c)) as [Ha Hl]. cbn zeta in *.
    cbn [MinIntVector3 x_ y_ z_] in Ha. split; [lia|].
    constructor; [lia|exact Hl].
Qed.

Lemma fold_MinIntVector3_attained (f : IntVector3 -> Z) (l : list IntVector3) :
  (forall a c, f (MinIntVector3 a c) = Z.min (f a) (f c)) ->
  forall a, exists c, In c (a :: l) /\ f c = f (fold_left MinIntVector3 l a).
Proof.
  intros Hf. induction l as [|c l IH]; intros a; cbn [fold_left].
  - exists a. split; [now left|reflexivity].
  - destruct (IH (MinIntVector3 a c)) as (c' & [<-|Hin] & Hc').
    + rewrite <- Hc', Hf.
      destruct (Z.min_spec (f a) (f c)) as [[_ ->]|[_ ->]].
      * exists a. split; [now left|reflexivity].
      * exists c. split; [right; now left|reflexivity].
    + exists c'. split; [right; now right|exact Hc'].
Qed.

Lemma testbit_small a k n : 0 <= a < 2 ^ k -> 0 <= k <= n -> Z.testbit a n = false.
Proof.
  intros Ha Hk. destruct (Z.eq_dec a 0) as [->|Hne]; [apply Z.bits_0|].
  apply Z.bits_above_log2; [lia|].
  apply Z.log2_lt_pow2; [lia|].
  assert (2 ^ k <= 2 ^ n) by (apply Z.pow_le_mono_r; lia). lia.
Qed.

Lemma bits_determine a b k :
  0 <= k -> 0 <= a < 2 ^ k -> 0 <= b < 2 ^ k ->
  (forall i, 0 <= i < k -> Z.testbit a i = Z.testbit b i) -> a = b.
Proof.
  intros Hk Ha Hb Hbits. apply Z.bits_inj'. intros n Hn.
  destruct (Z.lt_ge_cases n k) as [Hlt|Hge]; [apply Hbits; lia|].
  now rewrite (testbit_small a k n), (testbit_small b k n) by lia.
Qed.

Lemma coordinate_bit vec base (i j : nat) :
  (j < 3)%nat -> Z.of_nat i * 3 + Z.of_nat j < 32 ->
  Z.testbit (nth j (xyz vec base) 0) (Z.of_nat i) =
  Z.testbit (Swizzle vec base) (Z.of_nat i * 3 + Z.of_nat j).
Proof.
  intros Hj Hn. symmetry. apply Swizzle_low_bits; [exact Hj| |exact Hn].
  change maxBitsPerComponent with 21. lia.
Qed.

Lemma coordinate_determined a b base (j : nat) (k : Z) :
  (j < 3)%nat -> 0 <= k -> (k - 1) * 3 + Z.of_nat j < 32 ->
  0 <= nth j (xyz a base) 0 < 2 ^ k -> 0 <= nth j (xyz b base) 0 < 2 ^ k ->
  Swizzle a base = Swizzle b base ->
  nth j (xyz a base) 0 = nth j (xyz b base) 0.
Proof.
  intros Hj Hk Hfit Ha Hb Hkey. apply (bits_determine _ _ k Hk Ha Hb).
  intros i Hi. rewrite <- (Z2Nat.id i) by lia.
  rewrite !coordinate_bit by (rewrite ?Z2Nat.id; lia). now rewrite Hkey.
Qed.

(** C1: the key keeps only its low 32 bits.  For the chunk [(0, 0, 1024)]
    and the origin [(0, 0, 0)], bit 10 of the third translated coordinate
    is set and 10 is below [maxBitsPerComponent], yet bit [10 * 3 + 2] of
    the key is clear: the key equals the key of the origin itself, and the
    sort leaves the chunk in front of the origin. *)
Theorem Swizzle_key_is_truncated :
  let vec := mkIntVector3 0 0 1024 in
  let base := mkIntVector3 0 0 0 in
  10 < maxBitsPerComponent /\
  Z.testbit (nth 2 (xyz vec base) 0) 10 = true /\
  Z.testbit (Swizzle vec base) (10 * 3 + 2) = false /\
  Swizzle vec base = Swizzle base base /\
  sortChunks [vec; base] = [vec; base].
Proof. vm_compute. repeat split; reflexivity. Qed.

(** The chunk list after [Initialize] is the old list in ascending order of
    the key that [Swizzle] computes. *)
Lemma sortChunks_sorted chunks :
  Permutation chunks (sortChunks chunks) /\
  forall base, baseChunkIndex chunks = Some base ->
  Sorted (fun a b => Swizzle a base <= Swizzle b base) (sortChunks chunks).
Proof.
  unfold sortChunks. split.
  - destruct (baseChunkIndex chunks); [|reflexivity].
    apply (ea_sort_perm (fun v => Swizzle v i)).
  - intros base ->. apply (ea_sort_sorted (fun v => Swizzle v base)).
Qed.

(** Sorting the chunk set moved by [t] gives the sorted chunk set moved by
    [t]: the keys are taken relative to the component-wise minimum, which
    moves with the set. *)
Lemma sortChunks_map_translate (t : IntVector3) (chunks : list IntVector3) :
  sortChunks (map (translate t) chunks) = map (translate t) (sortChunks chunks).
Proof.
  unfold sortChunks. rewrite baseChunkIndex_translate.
  destruct (baseChunkIndex chunks) as [base|]; cbn [fmap option_fmap option_map];
    [|reflexivity].
  apply ea_sort_map. intros a b. apply compareSwizzled_translate.
Qed.

(** Within reach of the key, chunks with the same key are the same chunk. *)
Lemma Swizzle_inj_in_range (base a b : IntVector3) :
  inKeyRange base a -> inKeyRange base b -> Swizzle a base = Swizzle b base -> a = b.
Proof.
  intros (Hax & Hay & Haz) (Hbx & Hby & Hbz) Hkey.
  pose proof (coordinate_determined a b base 0 11 ltac:(lia) ltac:(lia) ltac:(lia))
    as Hx.
  pose proof (coordinate_determined a b base 1 11 ltac:(lia) ltac:(lia) ltac:(lia))
    as Hy.
  pose proof (coordinate_determined a b base 2 10 ltac:(lia) ltac:(lia) ltac:(lia))
    as Hz.
  unfold xyz in Hx, Hy, Hz. cbn [nth] in Hx, Hy, Hz.
  rewrite !wrap32_small in Hx, Hy, Hz by lia.
  specialize (Hx ltac:(lia) ltac:(lia) Hkey).
  specialize (Hy ltac:(lia) ltac:(lia) Hkey).
  specialize (Hz ltac:(lia) ltac:(lia) Hkey).
  destruct a as [ax ay az], b as [bx by' bz]. cbn [x_ y_ z_] in *. f_equal; lia.
Qed.

(** The origin is a lower bound of every coordinate of the list, and each
    of its coordinates is attained. *)
Lemma baseChunkIndex_bounds (f : IntVector3 -> Z) (chunks : list IntVector3)
  (base : IntVector3) :
  (forall a c, f (MinIntVector3 a c) = Z.min (f a) (f c)) ->
  baseChunkIndex chunks = Some base ->
  (forall c, In c chunks -> f base <= f c) /\ exists c, In c chunks /\ f c = f base.
Proof.
  intros Hf Hbase. destruct chunks as [|front chunks]; [discriminate|].
  cbn [baseChunkIndex] in Hbase. injection Hbase as <-. split.
  - assert (Hle : forall (l : list IntVector3) a,
              f (fold_left MinIntVector3 l a) <= f a /\
              forall c, In c l -> f (fold_left MinIntVector3 l a) <= f c).
    { induction l as [|c l IH]; intros a; cbn [fold_left].
      - split; [lia|intros c []].
      - destruct (IH (MinIntVector3 a c)) as [Ha Hl]. rewrite Hf in Ha.
        split; [lia|]. intros c' [<-|Hc']; [lia|now apply Hl]. }
    exact (proj2 (Hle (front :: chunks) front)).
  - destruct (fold_MinIntVector3_attained f (front :: chunks) Hf front)
      as (c & Hc & Heq).
    exists c. split; [|exact Heq]. destruct Hc as [<-|Hc]; [now left|exact Hc].
Qed.

(** The origin depends on the chunks of the list, not on their order. *)
Lemma baseChunkIndex_perm (chunks chunks' : list IntVector3) (base : IntVector3) :
  Permutation chunks chunks' ->
  baseChunkIndex chunks = Some base -> baseChunkIndex chunks' = Some base.
Proof.
  intros Hperm Hbase.
  destruct (baseChunkIndex chunks') as [base'|] eqn:Hbase'.
  - f_equal.
    assert (Hcoord : forall f : IntVector3 -> Z,
              (forall a c, f (MinIntVector3 a c) = Z.min (f a) (f c)) ->
              f base' = f base).
    { intros f Hf.
      destruct (baseChunkIndex_bounds f chunks base Hf Hbase) as [Hlow (c & Hc & Hat)].
      destruct (baseChunkIndex_bounds f chunks' base' Hf Hbase')
        as [Hlow' (c' & Hc' & Hat')].
      pose proof (Hlow c' (Permutation_in _ (Permutation_sym Hperm) Hc')).
      pose proof (Hlow' c (Permutation_in _ Hperm Hc)). lia. }
    pose proof (Hcoord x_ ltac:(reflexivity)).
    pose proof (Hcoord y_ ltac:(reflexivity)).
    pose proof (Hcoord z_ ltac:(reflexivity)).
    destruct base as [bx by' bz], base' as [cx cy cz]. cbn [x_ y_ z_] in *.
    congruence.
  - destruct chunks' as [|front' chunks']; [|discriminate].
    apply Permutation_sym, Permutation_nil in Hperm. now subst chunks.
Qed.

Lemma Sorted_weaken {A} (R1 R2 : A -> A -> Prop) (l : list A) :
  (forall a b, R1 a b -> R2 a b) -> Sorted R1 l -> Sorted R2 l.
Proof.
  intros Himpl. induction 1 as [|a l _ IH Hhd]; constructor; [exact IH|].
  destruct Hhd; constructor. now apply Himpl.
Qed.

Lemma StronglySorted_weaken {A} (R1 R2 : A -> A -> Prop) (l : list A) :
  (forall a b, R1 a b -> R2 a b) -> StronglySorted R1 l -> StronglySorted R2 l.
Proof.
  intros Himpl. induction 1 as [|a l _ IH Hall]; constructor; [exact IH|].
  eapply List.Forall_impl; [|exact Hall]. apply Himpl.
Qed.

(** Two lists in ascending order of a key that tells their elements apart
    are equal when they have the same elements. *)
Lemma sorted_by_key_unique {A} (key : A -> Z) (l1 l2 : list A) :
  (forall a b, In a l1 -> In b l1 -> key a = key b -> a = b) ->
  Sorted (fun a b => key a <= key b) l1 ->
  Sorted (fun a b => key a <= key b) l2 ->
  Permutation l1 l2 -> l1 = l2.
Proof.
  intros Hinj Hs1 Hs2 Hperm.
  assert (Htrans : Transitive (fun a b : A => key a <= key b))
    by (intros a b c; lia).
  apply (Sorted_unique_strong (fun a b : A => key a <= key b));
    [|exact Hs1|exact Hs2|exact Hperm].
  intros a b Ha Hb Hab Hba. apply Hinj; [now apply list_elem_of_In| |lia].
  apply list_elem_of_In. now rewrite Hperm.
Qed.

(** A list without repetition in ascending order of a key that tells its
    elements apart is in strictly ascending order. *)
Lemma sorted_by_key_strict {A} (key : A -> Z) (l : list A) :
  (forall a b, In a l -> In b l -> key a = key b -> a = b) ->
  NoDup l ->
  Sorted (fun a b => key a <= key b) l ->
  StronglySorted (fun a b => key a < key b) l.
Proof.
  intros Hinj Hnodup Hsorted.
  apply Sorted.Sorted_StronglySorted in Hsorted; [|intros a b c; lia].
  induction Hsorted as [|a l Hl IH Hall]; [constructor|].
  apply NoDup_cons in Hnodup as [Hnotin Hnodup].
  constructor.
  - apply IH; [|exact Hnodup]. intros b c Hb Hc. apply Hinj; now right.
  - rewrite List.Forall_forall in Hall |- *. intros b Hb.
    specialize (Hall b Hb). cbn beta in Hall.
    destruct (Z.eq_dec (key a) (key b)) as [Heq|Hne]; [|lia].
    exfalso. apply Hnotin. apply list_elem_of_In.
    rewrite (Hinj a b ltac:(now left) ltac:(now right) Heq). exact Hb.
Qed.




End LocalityFacts.

(** ** Floats: clamping and adding never gives a negative number *)

Module FloatFacts.

(** [0 <= a] as the comparison of the machine: false on NaN. *)
Definition nonneg (a : float) : Prop := fle fzero a = true.

Lemma nonneg_cases a :
  nonneg a <->
  match a with
  | S754_zero _ => True
  | S754_infinity s | S754_finite s _ _ => s = false
  | S754_nan => False
  end.
Proof.
  unfold nonneg, fle, SFleb, fzero.
  destruct a as [s|s| |s m e]; try destruct s; cbn; intuition congruence.
Qed.

Lemma Max_zero_nonneg a : is_nan a = false -> nonneg (Max fzero a).
Proof.
  intros Hnan. apply nonneg_cases. unfold Max, flt, SFltb, fzero.
  destruct a as [s|s| |s m e]; try destruct s; cbn in *;
    first [exact I | congruence].
Qed.

(** [Max] lets a NaN through and never produces one. *)
Lemma Max_zero_nan a : is_nan (Max fzero a) = is_nan a.
Proof.
  unfold Max, flt, SFltb, fzero.
  destruct a as [s|s| |s m e]; try destruct s; reflexivity.
Qed.

Lemma shr_1_nonneg mrs : 0 <= shr_m mrs -> 0 <= shr_m (shr_1 mrs).
Proof.
  destruct mrs as [m r s]. cbn [shr_m].
  destruct m as [|p|p]; [cbn; lia| |lia].
  intros _. destruct p; cbn; lia.
Qed.

Lemma iter_shr_1_nonneg p :
  forall mrs, 0 <= shr_m mrs -> 0 <= shr_m (SpecFloat.iter_pos shr_1 p mrs).
Proof.
  induction p as [p IH|p IH|]; intros mrs Hm; cbn [SpecFloat.iter_pos].
  - apply IH, IH. now apply shr_1_nonneg.
  - now apply IH, IH.
  - now apply shr_1_nonneg.
Qed.

Lemma shr_nonneg mrs e n : 0 <= shr_m mrs -> 0 <= shr_m (shr mrs e n).1.
Proof.
  intros Hm. unfold shr. destruct n; cbn [fst]; try assumption.
  now apply iter_shr_1_nonneg.
Qed.

Lemma shr_fexp_nonneg prec emax m e l :
  0 <= m -> 0 <= shr_m (shr_fexp prec emax m e l).1.
Proof.
  intros Hm. unfold shr_fexp. apply shr_nonneg.
  destruct l as [|[| |]]; exact Hm.
Qed.

Lemma round_nearest_even_nonneg m l : 0 <= m -> 0 <= round_nearest_even m l.
Proof.
  intros Hm. unfold round_nearest_even.
  destruct l as [|[| |]]; try destruct (Z.even m); lia.
Qed.

(** Rounding a non-negative mantissa with the sign bit clear gives a
    zero, a positive number or plus infinity. *)
Lemma binary_round_aux_nonneg prec emax m e l :
  0 <= m -> nonneg (binary_round_aux prec emax false m e l).
Proof.
  intros Hm. apply nonneg_cases. unfold binary_round_aux.
  pose proof (shr_fexp_nonneg prec emax m e l Hm) as H1.
  destruct (shr_fexp prec emax m e l) as [mrs' e']. cbn [fst] in H1.
  pose proof (shr_fexp_nonneg prec emax
                (round_nearest_even (shr_m mrs') (loc_of_shr_record mrs')) e'
                loc_Exact (round_nearest_even_nonneg _ _ H1)) as H2.
  destruct (shr_fexp prec emax _ e' loc_Exact) as [mrs'' e'']. cbn [fst] in H2.
  destruct (shr_m mrs'') as [|p|p]; [exact I| |lia].
  destruct (e'' <=? emax - prec); reflexivity.
Qed.

Lemma binary_round_nonneg prec emax m e :
  nonneg (binary_round prec emax false m e).
Proof.
  unfold binary_round.
  destruct (shl_align m e _) as [mz ez].
  apply binary_round_aux_nonneg. lia.
Qed.

(** The sum of two floats that are not below zero is not below zero. *)
Lemma fadd_nonneg a b : nonneg a -> nonneg b -> nonneg (fadd a b).
Proof.
  rewrite !(nonneg_cases a), !(nonneg_cases b).
  destruct a as [sa|sa| |sa ma ea]; destruct b as [sb|sb| |sb mb eb];
    intros Ha Hb; try contradiction; subst;
    try (apply nonneg_cases; unfold fadd, SFadd;
         repeat match goal with s : bool |- _ => destruct s end;
         first [exact I | reflexivity]).
  unfold fadd, SFadd, cond_Zopp, binary_normalize.
  destruct (Z.pos _ + Z.pos _) as [|p|p] eqn:Hsum; [lia| |lia].
  apply binary_round_nonneg.
Qed.

Lemma fadd_nan a b :
  is_nan a = false -> is_nan b = false -> nonneg a -> nonneg b ->
  is_nan (fadd a b) = false.
Proof.
  intros _ _ Ha Hb. pose proof (fadd_nonneg a b Ha Hb) as Hn.
  apply nonneg_cases in Hn. now destruct (fadd a b).
Qed.

(** A float that is not below zero in the sense of the machine is never
    strictly negative. *)
Lemma nonneg_not_lt a : nonneg a -> flt a fzero = false.
Proof.
  rewrite nonneg_cases. unfold flt, SFltb, fzero.
  destruct a as [s|s| |s m e]; try destruct s; cbn; congruence.
Qed.

(** One channel of the final lightmap. *)
Definition combineChannel (direct indirect : float) : float :=
  fadd (Max fzero direct) (Max fzero indirect).

Lemma combineChannel_nonneg direct indirect :
  is_nan direct = false -> is_nan indirect = false ->
  nonneg (combineChannel direct indirect).
Proof.
  intros Hd Hi. apply fadd_nonneg; now apply Max_zero_nonneg.
Qed.

End FloatFacts.

(** ** Running the monad *)

Section MonadFacts.
Context `{Collaborators}.

Lemma run_ret {A} (a : A) w : ret a w = Ok a w.
Proof. reflexivity. Qed.

Lemma run_fault {A} w : fault (A:=A) w = Fault w.
Proof. reflexivity. Qed.

Lemma run_bind_ret {A B} (a : A) (k : A -> M B) w : bind (ret a) k w = k a w.
Proof. reflexivity. Qed.

Lemma run_bind_fault {A B} (k : A -> M B) w : bind fault k w = Fault w.
Proof. reflexivity. Qed.

Lemma run_bind_gets {A B} (f : World -> A) (k : A -> M B) w :
  bind (gets f) k w = k (f w) w.
Proof. reflexivity. Qed.

Lemma run_bind_modify {B} (f : World -> World) (k : unit -> M B) w :
  bind (modify f) k w = k tt (f w).
Proof. reflexivity. Qed.

Lemma run_bind_emit {B} (e : Event) (k : unit -> M B) w :
  bind (emit e) k w = k tt (with_trace (trace_ w ++ [e]) w).
Proof. reflexivity. Qed.

Lemma run_bind_bind {A B C} (m : M A) (f : A -> M B) (g : B -> M C) w :
  bind (bind m f) g w = bind m (fun a => bind (f a) g) w.
Proof. unfold bind. now destruct (m w). Qed.

Lemma run_bind_if {A B} (c : bool) (m1 m2 : M A) (k : A -> M B) w :
  bind (if c then m1 else m2) k w = if c then bind m1 k w else bind m2 k w.
Proof. now destruct c. Qed.

Lemma run_if {A} (c : bool) (m1 m2 : M A) w :
  (if c then m1 else m2) w = if c then m1 w else m2 w.
Proof. now destruct c. Qed.

Lemma run_emit (e : Event) w : emit e w = Ok tt (with_trace (trace_ w ++ [e]) w).
Proof. reflexivity. Qed.

Lemma run_modify (f : World -> World) w : modify f w = Ok tt (f w).
Proof. reflexivity. Qed.

Lemma run_gets {A} (f : World -> A) w : gets f w = Ok (f w) w.
Proof. reflexivity. Qed.

Lemma run_bind_deref {A B} (p : option A) (k : A -> M B) w :
  bind (deref p) k w = match p with Some a => k a w | None => Fault w end.
Proof. now destruct p. Qed.

Lemma run_bind_at {A B} (v : list A) i (k : A -> M B) w :
  bind (at_ v i) k w = match v !! i with Some a => k a w | None => Fault w end.
Proof. unfold at_. now destruct (v !! i). Qed.

Lemma bind_unfold {A B} (m : M A) (k : A -> M B) w :
  bind m k w = match m w with Ok a w' => k a w' | Fault w' => Fault w' end.
Proof. reflexivity. Qed.

Lemma bind_Ok {A B} (m : M A) (k : A -> M B) w a w' :
  m w = Ok a w' -> bind m k w = k a w'.
Proof. intros Hm. unfold bind. now rewrite Hm. Qed.

Lemma bind_Fault {A B} (m : M A) (k : A -> M B) w w' :
  m w = Fault w' -> bind m k w = Fault w'.
Proof. intros Hm. unfold bind. now rewrite Hm. Qed.

End MonadFacts.

Create Rewrite HintDb run.
Hint Rewrite @run_bind_bind @run_bind_ret @run_bind_fault @run_bind_gets
  @run_bind_modify @run_bind_emit @run_bind_if @run_bind_deref @run_bind_at
  @run_ret @run_fault @run_emit @run_modify @run_gets : run.

Ltac world_simpl :=
  cbn [settings_ chunks_ numLightmapCharts_ collector_ cache_ fileSystem_
       sceneFileName_ globalIllumination_ sceneLightmaps_ resourceDirs_ polls_
       trace_ with_settings with_chunks with_numLightmapCharts with_collector
       with_cache with_fileSystem with_globalIllumination with_sceneLightmaps
       with_polls with_trace chunkVicinities directLights lightmaps fst snd
       negb andb orb set_outputDirectory incremental_ outputDirectory_
       giDataFileName_ lightmapNamePrefix_ lightmapNameSuffix_
       lightProbeGroupNamePrefix_ lightProbeGroupNameSuffix_ lightmapSize_
       directFilter_kernelRadius_ indirectFilter_kernelRadius_
       stitching_numIterations_ forwarded_] in *.

(** Runs the straight-line part of an action. *)
Ltac run := repeat (progress (autorewrite with run; world_simpl)).
Ltac run_in H := repeat (progress (autorewrite with run in H; world_simpl)).

(** Follows every branch of an action that is known to return. *)
Ltac grind H :=
  repeat (run_in H; cbn [mbind option_bind] in H;
          match type of H with
          | Fault _ = Ok _ _ => discriminate H
          | context [if ?c then _ else _] => destruct c eqn:?
          | context [match ?x with Some _ => _ | None => _ end] => destruct x eqn:?
          end).

(** Closes a branch of [Initialize] once it has run. *)
Ltac init_leaf :=
  first [ eexists _, _, _, _; split; [reflexivity|]; split;
          [rewrite <- ?app_assoc; reflexivity|]; split; reflexivity
        | intros _; eexists _, _; split; [reflexivity|]; split;
          [rewrite <- ?app_assoc; reflexivity|]; reflexivity ].

(** ** The baker *)

Section BakerFacts.
Context `{Collaborators}.

(** *** Initialize *)

Lemma messages_distinct :
  NoDup [msg_DX9; msg_undefined; msg_noExtension; msg_outputDirectory;
         msg_giDirectory; msg_giFile].
Proof. compute_done. Qed.

(** C6: [Initialize] answers [false] exactly when one of the four failures
    of the spec applies, and then it has reported exactly one error, whose
    message belongs to that failure and to no other; otherwise (given the
    scene has the global illumination component that [Initialize] writes
    to) it answers [true] and reports no error.  The failures are: the
    pixel UV offset is not zero; the output directory is not configured
    and the scene file name is empty or unchanged by removing its
    extension; the output directory or the directory of the GI data file
    cannot be created; the GI data file cannot be saved. *)
Theorem Initialize_failures (w : World) :
  match initFailure w with
  | Some failure =>
      exists w' t format args,
        Initialize w = Ok false w' /\
        trace_ w' = trace_ w ++ t /\ errors t = [(format, args)] /\
        failureOfMessage format = Some failure
  | None =>
      globalIllumination_ w <> None ->
      exists w' t,
        Initialize w = Ok true w' /\ trace_ w' = trace_ w ++ t /\ errors t = []
  end.
Proof.
  unfold initFailure, Initialize, giFileNameOf, resolvedOutputDirectory.
  unfold findOutputDirectory, initializeGIDataFile, fs_CreateDir, URHO3D_LOGERROR.
  destruct (Vector2_ne GetPixelUVOffset Vector2_ZERO) eqn:Hdx.
  { run. init_leaf. }
  run.
  destruct (is_empty (outputDirectory_ (incremental_ (settings_ w)))) eqn:Hout; run.
  - destruct (is_empty (sceneFileName_ w)) eqn:Hfn; run; [init_leaf|].
    destruct (bool_decide (ReplaceExtension (sceneFileName_ w) "" = sceneFileName_ w))
      eqn:Hext; run; [init_leaf|].
    destruct (CreateDir (fileSystem_ w) _) as [[] fs1] eqn:Hc1; run; [|init_leaf].
    destruct (CreateDir fs1 _) as [[] fs2] eqn:Hc2; run; [|init_leaf].
    destruct (BinaryFile_SaveFile fs2 _) as [[] fs3] eqn:Hs; run; [|init_leaf].
    destruct (globalIllumination_ w) as [gi|]; [|intros Hgi; now contradict Hgi].
    run. init_leaf.
  - destruct (CreateDir (fileSystem_ w) _) as [[] fs1] eqn:Hc1; run; [|init_leaf].
    destruct (CreateDir fs1 _) as [[] fs2] eqn:Hc2; run; [|init_leaf].
    destruct (BinaryFile_SaveFile fs2 _) as [[] fs3] eqn:Hs; run; [|init_leaf].
    destruct (globalIllumination_ w) as [gi|]; [|intros Hgi; now contradict Hgi].
    run. init_leaf.
Qed.

(** *** CommitScene *)

(** C10: when the image cannot be given the lightmap resolution,
    [StitchAndSaveImages] reports the error and returns at once;
    [CommitScene] then has initialised the stitching context and logged
    the error and nothing else: no chunk vicinity and no final lightmap is
    loaded, no image is saved, and the cache and the file system are as
    before. *)
Theorem CommitScene_image_not_allocated (w : World) :
  (SetSize NewImage (lightmapSize_ (settings_ w)) (lightmapSize_ (settings_ w)) 4).1
  = false ->
  exists w',
    StitchAndSaveImages w = Ok tt w' /\ CommitScene w = Ok tt w' /\
    trace_ w' = trace_ w ++ [EvInitializeStitchingContext (lightmapSize_ (settings_ w));
                             Log LOG_ERROR msg_image []] /\
    cache_ w' = cache_ w /\ fileSystem_ w' = fileSystem_ w /\
    (forall t, trace_ w' = trace_ w ++ t ->
       errors t = [(msg_image, [])] /\ loadedLightmaps t = [] /\ savedImages t = [] /\
       forall chunk, ~ In (EvLoadChunkVicinity chunk) t).
Proof.
  intros Hfail. unfold CommitScene, StitchAndSaveImages.
  eexists. cbn. rewrite Hfail. cbn.
  split; [reflexivity|]. split; [reflexivity|]. cbn.
  split; [now rewrite <- app_assoc|]. split; [reflexivity|]. split; [reflexivity|].
  intros t Ht. rewrite <- app_assoc in Ht. apply app_inv_head in Ht. subst t. cbn.
  repeat split; [reflexivity..|]. intros chunk [Hin|[Hin|[]]]; discriminate.
Qed.

End BakerFacts.

(** ** ProcessScene: chart indices *)

Section ChartFacts.
Context `{Collaborators}.

Lemma chartRuns_app (t1 t2 : list Event) :
  chartRuns (t1 ++ t2) = chartRuns t1 ++ chartRuns t2.
Proof. unfold chartRuns. apply omap_app. Qed.

(** Assigning the baked data files never faults and leaves the chart
    counter alone. *)
Lemma assignBakedDataFiles_from chunk groups (l : list nat) :
  Forall (fun i => (i < length groups)%nat) l ->
  forall w, exists w' t,
    foldM l tt (fun _ i =>
      let* group := at_ groups i in
      let* s := gets settings_ in
      fs_CreateDirsRecursive
        (GetPath (GetLightProbeBakedDataFileName s chunk (Z.of_nat i)));;;
      emit (EvSetBakedDataFileRef group
              ("BinaryFile", GetLightProbeBakedDataFileName s chunk (Z.of_nat i)))) w
    = Ok tt w' /\
    trace_ w' = trace_ w ++ t /\ chartRuns t = [] /\
    settings_ w' = settings_ w /\ numLightmapCharts_ w' = numLightmapCharts_ w /\
    collector_ w' = collector_ w /\ resourceDirs_ w' = resourceDirs_ w.
Proof.
  induction l as [|i l IH]; intros Hl w; cbn [foldM].
  - exists w, []. run. rewrite app_nil_r. repeat split; reflexivity.
  - apply Forall_cons_iff in Hl as [Hi Hl].
    destruct (lookup_lt_is_Some_2 groups i Hi) as [group Hgroup].
    unfold fs_CreateDirsRecursive. run. rewrite Hgroup. run.
    match goal with |- context [foldM l tt _ ?w1] =>
      destruct (IH Hl w1) as (w' & t & Hrun & Ht & Ha & Hs & Hn & Hc & Hr) end.
    world_simpl.
    exists w'. eexists. split; [exact Hrun|].
    rewrite Ht, <- !app_assoc. split; [reflexivity|].
    rewrite !chartRuns_app, Ha. repeat split; assumption.
Qed.

Lemma assignBakedDataFiles_ok chunk groups w :
  exists w' t,
    assignBakedDataFiles chunk groups w = Ok tt w' /\
    trace_ w' = trace_ w ++ t /\ chartRuns t = [] /\
    settings_ w' = settings_ w /\ numLightmapCharts_ w' = numLightmapCharts_ w /\
    collector_ w' = collector_ w /\ resourceDirs_ w' = resourceDirs_ w.
Proof.
  unfold assignBakedDataFiles, forEach. apply assignBakedDataFiles_from.
  unfold indices. apply Forall_forall. intros i Hi.
  apply list_elem_of_In, in_seq in Hi. lia.
Qed.

(** One chunk: the charts are generated from the current value of the
    counter, and the counter advances by their number. *)
Lemma generateChartsForChunk_ok chunk w :
  exists w' t,
    let charts := GenerateLightmapCharts (GetUniqueGeometries (collector_ w) chunk)
                    (settings_ w) (numLightmapCharts_ w) in
    generateChartsForChunk chunk w = Ok tt w' /\
    trace_ w' = trace_ w ++ t /\ chartRuns t = [charts] /\
    settings_ w' = settings_ w /\ resourceDirs_ w' = resourceDirs_ w /\
    numLightmapCharts_ w' =
      wrap32 (numLightmapCharts_ w + Z.of_nat (length charts)).
Proof.
  unfold generateChartsForChunk. run.
  match goal with |- context [bind (assignBakedDataFiles ?c ?g) _ ?w1] =>
    destruct (assignBakedDataFiles_ok c g w1)
      as (w' & t & Hrun & Ht & Ha & Hs & Hn & Hc & Hr) end.
  rewrite (bind_Ok _ _ _ _ _ Hrun). run. world_simpl.
  eexists (with_numLightmapCharts _ w'),
    (EvApplyLightmapCharts
       (GenerateLightmapCharts (GetUniqueGeometries (collector_ w) chunk)
          (settings_ w) (numLightmapCharts_ w)) :: t).
  world_simpl. rewrite Ht, Hs, Hr, <- app_assoc.
  change (chartRuns (EvApplyLightmapCharts ?cs :: t)) with (cs :: chartRuns t).
  rewrite Ha. repeat split; reflexivity.
Qed.

(** The indices a run of the generator hands out, counted from [n0]. *)
Definition consecutive (n0 : Z) (charts : list LightmapChart) : Prop :=
  map index_ charts =
  map (fun k => wrap32 (n0 + Z.of_nat k)) (seq 0 (length charts)).

Lemma consecutive_app n0 cs1 cs2 :
  consecutive n0 cs1 ->
  consecutive (wrap32 (n0 + Z.of_nat (length cs1))) cs2 ->
  consecutive n0 (cs1 ++ cs2).
Proof.
  unfold consecutive. intros H1 H2.
  rewrite map_app, length_app, seq_app, map_app, H1, H2. f_equal.
  cbn [Nat.add].
  pose proof (fmap_add_seq (length cs1) 0 (length cs2)) as Hseq.
  rewrite Nat.add_0_r in Hseq. rewrite <- Hseq.
  change (Nat.add (length cs1) <$> seq 0 (length cs2))
    with (map (Nat.add (length cs1)) (seq 0 (length cs2))).
  rewrite map_map. apply map_ext. intros k. unfold wrap32.
  rewrite Zplus_mod_idemp_l. f_equal. lia.
Qed.

Lemma wrap32_add_l a b : wrap32 (wrap32 a + b) = wrap32 (a + b).
Proof. unfold wrap32. apply Zplus_mod_idemp_l. Qed.

(** The loop over the chunks. *)
Lemma generateCharts_loop (chunks : list IntVector3) :
  forall w, numLightmapCharts_ w = wrap32 (numLightmapCharts_ w) ->
  exists w' t,
    forEach chunks generateChartsForChunk w = Ok tt w' /\
    trace_ w' = trace_ w ++ t /\
    settings_ w' = settings_ w /\ resourceDirs_ w' = resourceDirs_ w /\
    numLightmapCharts_ w' =
      wrap32 (numLightmapCharts_ w + Z.of_nat (length (appliedCharts t))) /\
    generatedFrom (settings_ w) (numLightmapCharts_ w) (chartRuns t) /\
    (chartsStartAtBase -> consecutive (numLightmapCharts_ w) (appliedCharts t)).
Proof.
  unfold forEach. induction chunks as [|chunk chunks IH]; intros w Hn; cbn [foldM].
  - exists w, []. run. rewrite app_nil_r, Z.add_0_r.
    repeat split; try reflexivity; try assumption.
  - destruct (generateChartsForChunk_ok chunk w)
      as (w1 & t1 & Hrun1 & Ht1 & Ha1 & Hs1 & Hr1 & Hn1).
    cbn zeta in *. rewrite (bind_Ok _ _ _ _ _ Hrun1).
    destruct (IH w1) as (w' & t & Hrun & Ht & Hs & Hr & Hn' & Hgen & Hcons).
    { rewrite Hn1. unfold wrap32. now rewrite Zmod_mod. }
    exists w', (t1 ++ t). split; [exact Hrun|].
    split; [now rewrite Ht, Ht1, app_assoc|].
    split; [congruence|]. split; [congruence|].
    unfold appliedCharts in *. rewrite chartRuns_app, Ha1. cbn [app concat].
    rewrite length_app. split; [|split].
    + rewrite Hn', Hn1, wrap32_add_l. f_equal. lia.
    + cbn [generatedFrom]. split; [eauto|]. now rewrite <- Hn1, <- Hs1.
    + intros Hcontract. apply consecutive_app.
      * apply Hcontract.
      * rewrite <- Hn1. now apply Hcons.
Qed.

(** "Update scene": one entry is appended per index of the range. *)
Lemma addLightmaps_loop (l : list nat) :
  forall w, exists w' t,
    forEach l addLightmapFor w = Ok tt w' /\
    trace_ w' = trace_ w ++ t /\ chartRuns t = [] /\
    sceneLightmaps_ w' = sceneLightmaps_ w ++ map (lightmapEntry w) l /\
    settings_ w' = settings_ w /\ resourceDirs_ w' = resourceDirs_ w /\
    numLightmapCharts_ w' = numLightmapCharts_ w.
Proof.
  unfold forEach. induction l as [|i l IH]; intros w; cbn [foldM map].
  - exists w, []. run. rewrite !app_nil_r. repeat split; reflexivity.
  - unfold addLightmapFor at 1, AddLightmap, URHO3D_LOGWARNING. run.
    destruct (is_empty (GetResourceName (resourceDirs_ w)
                (GetLightmapFileName (settings_ w) (Z.of_nat i)))) eqn:Hempty; run;
      match goal with |- context [foldM l tt _ ?w1] =>
        destruct (IH w1) as (w' & t & Hrun & Ht & Ha & Hl & Hs & Hr & Hn) end;
      world_simpl; exists w'; eexists; (split; [exact Hrun|]);
      rewrite Ht, Hl; unfold lightmapEntry at 2; world_simpl; rewrite Hempty;
      rewrite <- ?app_assoc; (split; [reflexivity|]);
      rewrite ?chartRuns_app, Ha; repeat split; try assumption; reflexivity.
Qed.

Lemma consecutive_in_range (charts : list LightmapChart) :
  consecutive 0 charts -> Z.of_nat (length charts) < 2 ^ 32 ->
  map index_ charts = map Z.of_nat (seq 0 (length charts)).
Proof.
  unfold consecutive. intros -> Hlen. apply map_ext_in. intros k Hk.
  apply in_seq in Hk. apply wrap32_small. lia.
Qed.

(** C4: [GenerateChartsAndUpdateScene] always completes.  Every chunk's
    charts are generated from the counter as it stands, which starts at 0
    and advances by the number of charts of each chunk.  When the generator
    numbers the charts of a call consecutively from the base it is given,
    and fewer than [2 ^ 32] charts are produced, the chart indices applied
    to the scene are 0, 1, 2, ... without gap or repetition over all the
    chunks, [numLightmapCharts_] is their number, and the lightmap list of
    the scene, whatever it held before, has exactly one entry per index. *)
Theorem GenerateChartsAndUpdateScene_indices (w : World) :
  exists w' t,
    GenerateChartsAndUpdateScene w = Ok tt w' /\
    trace_ w' = trace_ w ++ t /\
    generatedFrom (settings_ w) 0 (chartRuns t) /\
    sceneLightmaps_ w' = map (lightmapEntry w) (upto (numLightmapCharts_ w')) /\
    (chartsStartAtBase ->
     Z.of_nat (length (appliedCharts t)) < 2 ^ 32 ->
     map index_ (appliedCharts t) = map Z.of_nat (seq 0 (length (appliedCharts t))) /\
     NoDup (map index_ (appliedCharts t)) /\
     numLightmapCharts_ w' = Z.of_nat (length (appliedCharts t)) /\
     sceneLightmaps_ w' = map (lightmapEntry w) (seq 0 (length (appliedCharts t)))).
Proof.
  unfold GenerateChartsAndUpdateScene, ResetLightmaps. run.
  destruct (generateCharts_loop (chunks_ w) (with_numLightmapCharts 0 w))
    as (w1 & t1 & Hrun1 & Ht1 & Hs1 & Hr1 & Hn1 & Hgen & Hcons); [reflexivity|].
  world_simpl. rewrite (bind_Ok _ _ _ _ _ Hrun1). run.
  destruct (addLightmaps_loop (upto (numLightmapCharts_ w1))
              (with_sceneLightmaps [] w1))
    as (w2 & t2 & Hrun2 & Ht2 & Ha2 & Hl2 & Hs2 & Hr2 & Hn2).
  world_simpl. exists w2, (t1 ++ t2).
  assert (Hentry : lightmapEntry (with_sceneLightmaps [] w1) = lightmapEntry w).
  { unfold lightmapEntry. world_simpl. now rewrite Hs1, Hr1. }
  rewrite Hentry in Hl2. cbn [app] in Hl2.
  assert (Happlied : appliedCharts (t1 ++ t2) = appliedCharts t1).
  { unfold appliedCharts. now rewrite chartRuns_app, Ha2, app_nil_r. }
  split; [exact Hrun2|]. split; [now rewrite Ht2, Ht1, app_assoc|].
  split; [now rewrite chartRuns_app, Ha2, app_nil_r|].
  split; [now rewrite Hn2|].
  intros Hcontract Hlen. rewrite Happlied in *.
  assert (Hcount : numLightmapCharts_ w1 = Z.of_nat (length (appliedCharts t1))).
  { rewrite Hn1, Z.add_0_l. apply wrap32_small. lia. }
  assert (Hidx := consecutive_in_range _ (Hcons Hcontract) Hlen).
  split; [exact Hidx|]. split.
  - rewrite Hidx. apply NoDup_fmap_2; [apply Nat2Z.inj'|apply NoDup_seq].
  - split; [now rewrite Hn2|].
    rewrite Hl2. unfold upto. now rewrite Hcount, Nat2Z.id.
Qed.

End ChartFacts.

(** ** CommitScene: the copy branch *)

Section StitchFacts.
Context `{Collaborators}.

Lemma copyTexel_None (baked : option BakedLightmap) (l : list nat) :
  fold_left (copyTexel baked) l None = None.
Proof. induction l as [|i l IH]; [reflexivity|exact IH]. Qed.

(** The copy loop has written the texels below [a]; it writes those from
    [a] up to [a + k]. *)
Lemma copy_loop (baked : BakedLightmap) (buf : list Vector4) (k : nat) :
  forall a,
  (a + k <= length (lightmap_ baked))%nat ->
  length buf = length (lightmap_ baked) ->
  fold_left (copyTexel (Some baked)) (seq a k)
    (Some (copyWithAlpha1 (take a (lightmap_ baked)) ++ drop a buf)) =
  Some (copyWithAlpha1 (take (a + k) (lightmap_ baked)) ++ drop (a + k) buf).
Proof.
  induction k as [|k IH]; intros a Hak Hlen; cbn [seq fold_left].
  - now rewrite Nat.add_0_r.
  - destruct (lookup_lt_is_Some_2 (lightmap_ baked) a) as [texel Htexel]; [lia|].
    assert (Hpre : length (copyWithAlpha1 (take a (lightmap_ baked))) = a).
    { unfold copyWithAlpha1. rewrite length_map, length_take. lia. }
    unfold copyTexel at 2. cbn [mbind option_bind]. rewrite Htexel. cbn [mbind option_bind].
    rewrite bool_decide_eq_true_2
      by (rewrite length_app, Hpre, length_drop; lia).
    replace (<[a:=Vector4_of texel fone]>
               (copyWithAlpha1 (take a (lightmap_ baked)) ++ drop a buf))
      with (copyWithAlpha1 (take (S a) (lightmap_ baked)) ++ drop (S a) buf).
    + rewrite IH by lia. now rewrite Nat.add_succ_r.
    + rewrite insert_app_r_alt by lia. rewrite Hpre, Nat.sub_diag.
      destruct (lookup_lt_is_Some_2 buf a) as [old Hold]; [lia|].
      rewrite (drop_S _ _ _ Hold). cbn [insert list_insert].
      rewrite (take_S_r _ _ _ Htexel). unfold copyWithAlpha1.
      rewrite map_app. cbn [map]. now rewrite <- app_assoc.
Qed.

Lemma copyToBuffer_copies (numTexels : Z) (baked : BakedLightmap) (buf : list Vector4) :
  length (lightmap_ baked) = Z.to_nat numTexels ->
  length buf = Z.to_nat numTexels ->
  copyToBuffer numTexels (Some baked) buf = Some (copyWithAlpha1 (lightmap_ baked)).
Proof.
  intros Hlm Hbuf. unfold copyToBuffer, upto.
  pose proof (copy_loop baked buf (Z.to_nat numTexels) 0) as Hloop.
  rewrite take_0, drop_0 in Hloop. cbn [copyWithAlpha1 map app Nat.add] in Hloop.
  rewrite Hloop by lia.
  rewrite <- Hlm, firstn_all, drop_ge by lia. now rewrite app_nil_r.
Qed.

Lemma copyWithAlpha1_rgb (lightmap : list Vector3) :
  map Vector4_to_Vector3 (copyWithAlpha1 lightmap) = lightmap.
Proof.
  unfold copyWithAlpha1. rewrite map_map. rewrite <- (map_id lightmap) at 2.
  apply map_ext. now intros [].
Qed.

Lemma copyWithAlpha1_alpha (lightmap : list Vector3) :
  Forall (fun texel => v4w_ texel = fone) (copyWithAlpha1 lightmap).
Proof.
  unfold copyWithAlpha1. apply Forall_forall. intros texel Hin.
  apply list_elem_of_In, in_map_iff in Hin as (v & <- & _). reflexivity.
Qed.


End StitchFacts.

(** ** Bake: the direct phase *)

Section DirectFacts.
Context `{Collaborators}.

Lemma storeAll_app (j1 j2 : list DirectJob) m :
  storeAll (j1 ++ j2) m = storeAll j2 (storeAll j1 m).
Proof. unfold storeAll. apply fold_left_app. Qed.

Lemma afterDirect_nil w : afterDirect w [] [] 0 = w.
Proof.
  destruct w as [? ? ? ? [? ? ?] ? ? ? ? ? ? ?]. unfold afterDirect, storeAll.
  world_simpl. cbn [fold_left]. now rewrite app_nil_r, Nat.add_0_r.
Qed.

Lemma afterDirect_compose w j1 t1 n1 j2 t2 n2 :
  afterDirect (afterDirect w j1 t1 n1) j2 t2 n2 =
  afterDirect w (j1 ++ j2) (t1 ++ t2) (n1 + n2).
Proof.
  unfold afterDirect. world_simpl.
  now rewrite storeAll_app, app_assoc, Nat.add_assoc.
Qed.

Lemma chunkDirectJobs_afterDirect w jobs t n chunk :
  chunkDirectJobs (afterDirect w jobs t n) chunk = chunkDirectJobs w chunk.
Proof. reflexivity. Qed.

Lemma vicinityReady_afterDirect w jobs t n chunk :
  vicinityReady (afterDirect w jobs t n) chunk <-> vicinityReady w chunk.
Proof. reflexivity. Qed.

(** One lightmap, not stopped: the token is polled, the buffer is baked
    and stored. *)
Lemma bakeDirectChart_run tok v i w lightmapIndex geometryBuffer :
  tok (polls_ w) = false ->
  lightmaps_ v !! i = Some lightmapIndex ->
  geometryBuffers_ v !! i = Some geometryBuffer ->
  bakeDirectChart tok v tt i w =
  Ok (Some tt)
     (afterDirect w [(lightmapIndex, bakeDirect (settings_ w) v geometryBuffer)]
        (jobEvents (lightmapIndex, bakeDirect (settings_ w) v geometryBuffer)) 1).
Proof.
  intros Htok Hidx Hgb. unfold bakeDirectChart, IsStopped, StoreDirectLight.
  run. rewrite Htok. run. rewrite Hidx. run. rewrite Hgb. run.
  unfold afterDirect, storeAll, jobEvents. world_simpl. cbn [fold_left].
  now rewrite <- app_assoc, Nat.add_1_r.
Qed.

(** One lightmap, stopped: the token is polled and nothing else happens. *)
Lemma bakeDirectChart_stop tok v i w :
  tok (polls_ w) = true ->
  bakeDirectChart tok v tt i w = Ok None (afterDirect w [] [EvIsStopped true] 1).
Proof.
  intros Htok. unfold bakeDirectChart, IsStopped. run. rewrite Htok. run.
  unfold afterDirect, storeAll. world_simpl. cbn [fold_left].
  destruct w as [? ? ? ? [? ? ?] ? ? ? ? ? ? ?]. world_simpl.
  now rewrite Nat.add_1_r.
Qed.

Lemma directJobs_lookup s v i :
  (length (lightmaps_ v) <= length (geometryBuffers_ v))%nat ->
  (i < length (lightmaps_ v))%nat ->
  exists lightmapIndex geometryBuffer,
    lightmaps_ v !! i = Some lightmapIndex /\
    geometryBuffers_ v !! i = Some geometryBuffer /\
    directJobs s v !! i = Some (lightmapIndex, bakeDirect s v geometryBuffer).
Proof.
  intros Hlen Hi.
  destruct (lookup_lt_is_Some_2 (lightmaps_ v) i Hi) as [idx Hidx].
  destruct (lookup_lt_is_Some_2 (geometryBuffers_ v) i) as [gb Hgb]; [lia|].
  exists idx, gb. repeat split; try assumption.
  unfold directJobs. apply lookup_zip_with_Some. eauto.
Qed.

Lemma directJobs_length s v :
  (length (lightmaps_ v) <= length (geometryBuffers_ v))%nat ->
  length (directJobs s v) = length (lightmaps_ v).
Proof. intros Hlen. unfold directJobs. rewrite length_zip_with. lia. Qed.

(** The loop over the lightmaps of a chunk, from lightmap [a] on, with [k]
    lightmaps to go, when the token fires at poll [K] of the loop (or not
    within the loop, when [K >= k]). *)
Lemma directCharts_run tok v :
  (length (lightmaps_ v) <= length (geometryBuffers_ v))%nat ->
  forall k a w K,
  (a + k <= length (lightmaps_ v))%nat ->
  (forall n, (n < K)%nat -> (n < k)%nat -> tok (polls_ w + n)%nat = false) ->
  ((K < k)%nat -> tok (polls_ w + K)%nat = true) ->
  let jobs := take (Nat.min K k) (drop a (directJobs (settings_ w) v)) in
  foldBreak (seq a k) tt (bakeDirectChart tok v) w =
  if (K <? k)%nat
  then Ok None (afterDirect w jobs (flat_map jobEvents jobs ++ [EvIsStopped true]) (K + 1))
  else Ok (Some tt) (afterDirect w jobs (flat_map jobEvents jobs) k).
Proof.
  intros Hlen. induction k as [|k IH]; intros a w K Hak Hfalse Htrue jobs;
    subst jobs; cbn [seq foldBreak].
  - rewrite Nat.min_0_r. cbn [take flat_map]. run.
    destruct (Nat.ltb_spec K 0); [lia|]. now rewrite afterDirect_nil.
  - destruct K as [|K].
    + rewrite (bind_Ok _ _ _ _ _ (bakeDirectChart_stop tok v a w
                 ltac:(rewrite <- (Nat.add_0_r (polls_ w)); apply Htrue; lia))).
      run. reflexivity.
    + destruct (directJobs_lookup (settings_ w) v a Hlen ltac:(lia))
        as (idx & gb & Hidx & Hgb & Hjob).
      rewrite (bind_Ok _ _ _ _ _ (bakeDirectChart_run tok v a w idx gb
                 ltac:(rewrite <- (Nat.add_0_r (polls_ w)); apply Hfalse; lia)
                 Hidx Hgb)).
      match goal with |- context [foldBreak _ tt _ ?w1] =>
        specialize (IH (S a) w1 K) end.
      cbn zeta in IH. rewrite IH; clear IH.
      * rewrite (drop_S _ _ _ Hjob). cbn [Nat.min take].
        change (settings_ (afterDirect w ?j ?t ?n)) with (settings_ w).
        change (S K <? S k)%nat with (K <? k)%nat.
        destruct (K <? k)%nat; rewrite afterDirect_compose; cbn [app flat_map];
          rewrite <- ?app_assoc; repeat f_equal; lia.
      * lia.
      * intros n HnK Hnk. change (polls_ (afterDirect w ?j ?t ?m)) with (polls_ w + m)%nat.
        rewrite <- Nat.add_assoc. apply Hfalse; lia.
      * intros HKk. change (polls_ (afterDirect w ?j ?t ?m)) with (polls_ w + m)%nat.
        rewrite <- Nat.add_assoc. apply Htrue. lia.
Qed.

Lemma emit_afterDirect w e :
  with_trace (trace_ w ++ [e]) w = afterDirect w [] [e] 0.
Proof.
  destruct w as [? ? ? ? [? ? ?] ? ? ? ? ? ? ?]. unfold afterDirect, storeAll.
  world_simpl. cbn [fold_left]. now rewrite Nat.add_0_r.
Qed.

(** One chunk. *)
Lemma bakeDirectChunk_run tok chunk w K :
  vicinityReady w chunk ->
  let jobs := chunkDirectJobs w chunk in
  (forall n, (n < K)%nat -> (n < length jobs)%nat -> tok (polls_ w + n)%nat = false) ->
  ((K < length jobs)%nat -> tok (polls_ w + K)%nat = true) ->
  bakeDirectChunk tok tt chunk w =
  if (K <? length jobs)%nat
  then Ok None
         (afterDirect w (take K jobs)
            (EvLoadChunkVicinity chunk :: flat_map jobEvents (take K jobs)
             ++ [EvIsStopped true]) (K + 1))
  else Ok (Some tt)
         (afterDirect w jobs
            (EvLoadChunkVicinity chunk :: flat_map jobEvents jobs) (length jobs)).
Proof.
  intros (v & Hv & Hlen) jobs Hfalse Htrue. subst jobs.
  unfold chunkDirectJobs in *. rewrite Hv in *.
  unfold bakeDirectChunk, LoadChunkVicinity. run. rewrite Hv. run.
  rewrite emit_afterDirect. unfold indices.
  rewrite (directJobs_length (settings_ w) v Hlen) in *.
  rewrite (directCharts_run tok v Hlen (length (lightmaps_ v)) 0 _ K);
    [| cbn [Nat.add]; lia
     | intros n HnK Hn;
       change (polls_ (afterDirect w ?j ?t ?m)) with (polls_ w + m)%nat;
       rewrite Nat.add_0_r; now apply Hfalse
     | intros HK;
       change (polls_ (afterDirect w ?j ?t ?m)) with (polls_ w + m)%nat;
       rewrite Nat.add_0_r; now apply Htrue].
  change (settings_ (afterDirect w ?j ?t ?n)) with (settings_ w).
  rewrite drop_0.
  destruct (Nat.ltb_spec K (length (lightmaps_ v))) as [HK|HK];
    rewrite afterDirect_compose; cbn [app Nat.add].
  - now rewrite Nat.min_l by lia.
  - rewrite Nat.min_r by lia.
    rewrite firstn_all2 by (rewrite directJobs_length; [lia|assumption]).
    reflexivity.
Qed.

(** The loop over the chunks. *)
Lemma directChunks_run tok (chunks : list IntVector3) :
  forall w K,
  Forall (vicinityReady w) chunks ->
  let jobs := flat_map (chunkDirectJobs w) chunks in
  (forall n, (n < K)%nat -> (n < length jobs)%nat -> tok (polls_ w + n)%nat = false) ->
  ((K < length jobs)%nat -> tok (polls_ w + K)%nat = true) ->
  foldBreak chunks tt (bakeDirectChunk tok) w =
  if (K <? length jobs)%nat
  then Ok None
         (afterDirect w (take K jobs) (directTrace (chunkDirectJobs w) chunks K) (K + 1))
  else Ok (Some tt)
         (afterDirect w jobs (directTrace (chunkDirectJobs w) chunks K) (length jobs)).
Proof.
  induction chunks as [|chunk chunks IH]; intros w K Hready jobs Hfalse Htrue;
    subst jobs; cbn [foldBreak flat_map directTrace] in *.
  - run. cbn [length]. destruct (Nat.ltb_spec K 0); [lia|].
    now rewrite afterDirect_nil.
  - apply Forall_cons_iff in Hready as [Hchunk Hready].
    rewrite length_app in *.
    pose proof (bakeDirectChunk_run tok chunk w K Hchunk) as Hrun.
    cbn zeta in Hrun.
    remember (chunkDirectJobs w chunk) as jobs eqn:Hjobs.
    remember (flat_map (chunkDirectJobs w) chunks) as rest eqn:Hrest.
    rewrite bind_unfold.
    rewrite Hrun;
      [| intros n HnK Hn; apply Hfalse; lia
       | intros HK; apply Htrue; lia].
    clear Hrun.
    destruct (Nat.ltb_spec K (length jobs)) as [HK|HK].
    + replace (K <? length jobs + length rest)%nat with true
        by (symmetry; apply Nat.ltb_lt; lia).
      run. now rewrite take_app_le by lia.
    + match goal with |- context [foldBreak chunks tt _ ?w1] =>
        specialize (IH w1 (K - length jobs)%nat) end.
      cbn zeta in IH. rewrite IH; clear IH.
      * change (chunkDirectJobs (afterDirect w ?j ?t ?n)) with (chunkDirectJobs w).
        rewrite <- Hrest.
        replace (K - length jobs <? length rest)%nat
          with (K <? length jobs + length rest)%nat
          by (destruct (Nat.ltb_spec K (length jobs + length rest));
              symmetry; [apply Nat.ltb_lt | apply Nat.ltb_ge]; lia).
        destruct (K <? length jobs + length rest)%nat;
          rewrite afterDirect_compose; cbn [app];
          rewrite ?take_app_ge by lia;
          first [reflexivity | do 2 f_equal; lia].
      * exact Hready.
      * change (chunkDirectJobs (afterDirect w ?j ?t ?n)) with (chunkDirectJobs w).
        change (polls_ (afterDirect w ?j ?t ?m)) with (polls_ w + m)%nat.
        rewrite <- Hrest. intros n HnK Hn. rewrite <- Nat.add_assoc.
        apply Hfalse; lia.
      * change (chunkDirectJobs (afterDirect w ?j ?t ?n)) with (chunkDirectJobs w).
        change (polls_ (afterDirect w ?j ?t ?m)) with (polls_ w + m)%nat.
        rewrite <- Hrest. intros HK'. rewrite <- Nat.add_assoc.
        replace (length jobs + (K - length jobs))%nat with K by lia.
        apply Htrue. lia.
Qed.

(** What the calls of the direct phase show. *)
Lemma storedDirectLights_app (t1 t2 : list Event) :
  storedDirectLights (t1 ++ t2) = storedDirectLights t1 ++ storedDirectLights t2.
Proof. unfold storedDirectLights. apply omap_app. Qed.

Lemma pollAnswers_app (t1 t2 : list Event) :
  pollAnswers (t1 ++ t2) = pollAnswers t1 ++ pollAnswers t2.
Proof. unfold pollAnswers. apply omap_app. Qed.

Lemma storedDirectLights_jobs (jobs : list DirectJob) :
  storedDirectLights (flat_map jobEvents jobs) = jobs.
Proof.
  induction jobs as [|[idx baked] jobs IH]; [reflexivity|].
  cbn [flat_map jobEvents app fst snd].
  change (storedDirectLights (EvIsStopped false :: EvStoreDirectLight idx baked :: ?t))
    with ((idx, baked) :: storedDirectLights t).
  now rewrite IH.
Qed.

Lemma pollAnswers_jobs (jobs : list DirectJob) :
  pollAnswers (flat_map jobEvents jobs) = replicate (length jobs) false.
Proof.
  induction jobs as [|[idx baked] jobs IH]; [reflexivity|].
  cbn [flat_map jobEvents app fst snd length replicate].
  change (pollAnswers (EvIsStopped false :: EvStoreDirectLight idx baked :: ?t))
    with (false :: pollAnswers t).
  now rewrite IH.
Qed.

Lemma isDirectPhaseEvent_jobs (jobs : list DirectJob) :
  Forall isDirectPhaseEvent (flat_map jobEvents jobs).
Proof.
  induction jobs as [|job jobs IH]; [constructor|].
  cbn [flat_map jobEvents app]. repeat (constructor; [exact I|]). exact IH.
Qed.

Lemma storedDirectLights_directTrace jobsOf (chunks : list IntVector3) :
  forall K,
  storedDirectLights (directTrace jobsOf chunks K) = take K (flat_map jobsOf chunks).
Proof.
  induction chunks as [|chunk chunks IH]; intros K; cbn [directTrace flat_map].
  - now rewrite take_nil.
  - change (storedDirectLights (EvLoadChunkVicinity chunk :: ?t))
      with (storedDirectLights t).
    destruct (Nat.ltb_spec K (length (jobsOf chunk))) as [HK|HK];
      rewrite storedDirectLights_app, storedDirectLights_jobs.
    + cbn. rewrite app_nil_r. now rewrite take_app_le by lia.
    + now rewrite IH, take_app_ge by lia.
Qed.

Lemma pollAnswers_directTrace jobsOf (chunks : list IntVector3) :
  forall K,
  (K < length (flat_map jobsOf chunks))%nat ->
  pollAnswers (directTrace jobsOf chunks K) = replicate K false ++ [true].
Proof.
  induction chunks as [|chunk chunks IH]; intros K HK; cbn [directTrace flat_map] in *.
  - cbn in HK. lia.
  - change (pollAnswers (EvLoadChunkVicinity chunk :: ?t)) with (pollAnswers t).
    rewrite length_app in HK.
    destruct (Nat.ltb_spec K (length (jobsOf chunk))) as [HK'|HK'];
      rewrite pollAnswers_app, pollAnswers_jobs.
    + rewrite length_take. now rewrite Nat.min_l by lia.
    + rewrite IH by lia. rewrite app_assoc, <- replicate_add.
      now replace (length (jobsOf chunk) + (K - length (jobsOf chunk)))%nat with K by lia.
Qed.

Lemma isDirectPhaseEvent_directTrace jobsOf (chunks : list IntVector3) :
  forall K, Forall isDirectPhaseEvent (directTrace jobsOf chunks K).
Proof.
  induction chunks as [|chunk chunks IH]; intros K; cbn [directTrace]; constructor;
    [exact I|].
  destruct (K <? length (jobsOf chunk))%nat; apply Forall_app; split;
    try apply isDirectPhaseEvent_jobs; [repeat constructor | apply IH].
Qed.

(** C2: every chunk of the list has its vicinity in the cache.  If the stop
    token answers [false] to the next [K] polls and [true] to the one after,
    and the chunk list holds more than [K] lightmaps, then
    [BakeDirectCharts] returns [false] and so does [Bake], in the very same
    state: nothing of the indirect phase has run.  The direct buffers
    stored are exactly those of the first [K] lightmaps, each the finished
    buffer of its lightmap, and the cache holds them; the token was polled
    [K + 1] times, once before each lightmap, and the lightmap in progress
    at the last poll was not stored. *)
Theorem BakeDirectCharts_cancelled (tok : StopToken) (w : World) (K : nat) :
  vicinitiesReady w ->
  (K < length (allDirectJobs w))%nat ->
  (forall n, (n < K)%nat -> tok (polls_ w + n)%nat = false) ->
  tok (polls_ w + K)%nat = true ->
  exists w' t,
    BakeDirectCharts tok w = Ok false w' /\
    Bake tok w = Ok false w' /\
    trace_ w' = trace_ w ++ t /\
    storedDirectLights t = take K (allDirectJobs w) /\
    directLights (cache_ w') =
      storeAll (take K (allDirectJobs w)) (directLights (cache_ w)) /\
    lightmaps (cache_ w') = lightmaps (cache_ w) /\
    pollAnswers t = replicate K false ++ [true] /\
    Forall isDirectPhaseEvent t.
Proof.
  intros Hready HK Hfalse Htrue. unfold allDirectJobs in *.
  assert (Hdirect : BakeDirectCharts tok w =
            Ok false (afterDirect w (take K (flat_map (chunkDirectJobs w) (chunks_ w)))
                        (directTrace (chunkDirectJobs w) (chunks_ w) K) (K + 1))).
  { unfold BakeDirectCharts. run. rewrite bind_unfold.
    rewrite (directChunks_run tok (chunks_ w) w K Hready);
      [| intros n HnK _; now apply Hfalse | intros _; exact Htrue].
    replace (K <? length (flat_map (chunkDirectJobs w) (chunks_ w)))%nat with true
      by (symmetry; now apply Nat.ltb_lt).
    run. reflexivity. }
  eexists _, _. split; [exact Hdirect|].
  split; [unfold Bake; rewrite bind_unfold, Hdirect; reflexivity|].
  split; [reflexivity|].
  split; [apply storedDirectLights_directTrace|].
  split; [reflexivity|]. split; [reflexivity|].
  split; [now apply pollAnswers_directTrace | apply isDirectPhaseEvent_directTrace].
Qed.

End DirectFacts.

(** ** Bake: the indirect phase *)

Section IndirectFacts.
Context `{Collaborators}.

Lemma sameBakeInputs_refl w : sameBakeInputs w w.
Proof. repeat split. Qed.

Lemma sameBakeInputs_trans w1 w2 w3 :
  sameBakeInputs w1 w2 -> sameBakeInputs w2 w3 -> sameBakeInputs w1 w3.
Proof. unfold sameBakeInputs. intuition congruence. Qed.

Lemma bind_Ok_inv {A B} (m : M A) (k : A -> M B) w b w' :
  bind m k w = Ok b w' -> exists a w1, m w = Ok a w1 /\ k a w1 = Ok b w'.
Proof. unfold bind. destruct (m w) as [a w1|w1]; [eauto|discriminate]. Qed.

Lemma with_trace_nil w : with_trace (trace_ w ++ []) w = w.
Proof. destruct w. world_simpl. now rewrite app_nil_r. Qed.

(** A relation between the state before and after that every pass of a
    loop body keeps is kept by the loop. *)
Lemma foldM_rel {St A} (R : World -> World -> Prop) (body : St -> A -> M St)
  (l : list A) :
  (forall w, R w w) -> (forall w1 w2 w3, R w1 w2 -> R w2 w3 -> R w1 w3) ->
  (forall s x w s' w', body s x w = Ok s' w' -> R w w') ->
  forall s w s' w', foldM l s body w = Ok s' w' -> R w w'.
Proof.
  intros Hrefl Htrans Hbody. induction l as [|x l IH]; intros s w s' w' Hrun;
    cbn [foldM] in Hrun.
  - run_in Hrun. injection Hrun as _ <-. apply Hrefl.
  - apply bind_Ok_inv in Hrun as (s1 & w1 & Hx & Hrest).
    eapply Htrans; [eapply Hbody, Hx|eapply IH, Hrest].
Qed.

Lemma foldBreak_rel {St A} (R : World -> World -> Prop)
  (body : St -> A -> M (option St)) (l : list A) :
  (forall w, R w w) -> (forall w1 w2 w3, R w1 w2 -> R w2 w3 -> R w1 w3) ->
  (forall s x w r w', body s x w = Ok r w' -> R w w') ->
  forall s w r w', foldBreak l s body w = Ok r w' -> R w w'.
Proof.
  intros Hrefl Htrans Hbody. induction l as [|x l IH]; intros s w r w' Hrun;
    cbn [foldBreak] in Hrun.
  - run_in Hrun. injection Hrun as _ <-. apply Hrefl.
  - apply bind_Ok_inv in Hrun as (r1 & w1 & Hx & Hrest).
    destruct r1 as [s1|].
    + eapply Htrans; [eapply Hbody, Hx|eapply IH, Hrest].
    + run_in Hrest. injection Hrest as _ <-. eapply Hbody, Hx.
Qed.

(** Loading the required direct buffers: one load per index of the set,
    and nothing else. *)
Lemma loadRequired_inv n (l : list Z) :
  forall (table : list (option Z)) w table' w',
  foldM l table
    (fun table lightmapIndex =>
       let* handle := LoadDirectLight lightmapIndex in
       if bool_decide (0 <= lightmapIndex < n)
       then ret (<[Z.to_nat lightmapIndex := handle]> table)
       else fault) w = Ok table' w' ->
  w' = with_trace (trace_ w ++ map EvLoadDirectLight l) w.
Proof.
  induction l as [|i l IH]; intros table w table' w' Hrun; cbn [foldM map] in Hrun.
  - run_in Hrun. injection Hrun as _ <-. now rewrite with_trace_nil.
  - unfold LoadDirectLight in Hrun at 1. run_in Hrun.
    destruct (bool_decide (0 <= i < n)); run_in Hrun; [|discriminate].
    apply IH in Hrun. subst w'. world_simpl. cbn [map]. now rewrite <- app_assoc.
Qed.

(** One lightmap of the indirect phase. *)
Lemma bakeIndirectChart_inv tok v table mesh loc i w r w' :
  bakeIndirectChart tok v table mesh loc i w = Ok r w' ->
  sameBakeInputs w w' /\
  ((r = None /\ trace_ w' = trace_ w ++ [EvIsStopped true]) \/
   (exists loc' lightmapIndex direct indirect baked,
      r = Some loc' /\
      lightmaps_ v !! i = Some lightmapIndex /\
      generateFinalImage (lightmapSize_ (settings_ w)) direct indirect = Some baked /\
      trace_ w' = trace_ w ++ chartEvents lightmapIndex baked)).
Proof.
  intros Hrun.
  unfold bakeIndirectChart, IsStopped, LoadDirectLight, viewDirect, readDirect,
    writeDirect, StoreLightmap in Hrun.
  run_in Hrun.
  destruct (tok (polls_ w)); run_in Hrun.
  { injection Hrun as <- <-. split; [repeat split|]. left. split; reflexivity. }
  destruct (lightmaps_ v !! i) as [lightmapIndex|] eqn:Hidx; [|discriminate].
  run_in Hrun.
  destruct (geometryBuffers_ v !! i) as [geometryBuffer|]; [|discriminate].
  grind Hrun.
  all: injection Hrun as <- <-; (split; [repeat split|]); right.
  all: eexists _, _, _, _, _; (split; [reflexivity|]); (split; [reflexivity|]).
  all: world_simpl; (split; [eassumption|]).
  all: unfold chartEvents; now rewrite <- !app_assoc.
Qed.

(** The loop over the lightmaps of a chunk. *)
Lemma chartLoop_inv tok v table mesh (l : list nat) :
  forall loc w r w',
  foldBreak l loc (bakeIndirectChart tok v table mesh) w = Ok r w' ->
  sameBakeInputs w w' /\
  exists t, trace_ w' = trace_ w ++ t /\
            chartLoopShape (settings_ w) v l (completed r) t.
Proof.
  induction l as [|i l IH]; intros loc w r w' Hrun; cbn [foldBreak] in Hrun.
  - run_in Hrun. injection Hrun as <- <-. split; [apply sameBakeInputs_refl|].
    exists []. rewrite app_nil_r. split; [reflexivity|constructor].
  - apply bind_Ok_inv in Hrun as (r1 & w1 & Hbody & Hrest).
    apply bakeIndirectChart_inv in Hbody
      as [Hsame [[-> Ht] | (loc' & idx & direct & indirect & baked
                            & -> & Hidx & Hfinal & Ht)]].
    + run_in Hrest. injection Hrest as <- <-. split; [exact Hsame|].
      eexists. split; [exact Ht|constructor].
    + apply IH in Hrest as [Hsame' (t & Ht' & Hshape)].
      split; [eapply sameBakeInputs_trans; eassumption|].
      exists (chartEvents idx baked ++ t).
      split; [now rewrite Ht', Ht, app_assoc|].
      destruct Hsame as (Hs & _). rewrite Hs in Hshape.
      econstructor; eassumption.
Qed.

(** "Bake direct lights for light probes" always completes: one call per
    light. *)
Lemma bakeDirectLightProbes_from chunk v (lights : list BakedLight) :
  forall data w, exists data',
  foldM lights data
    (fun data bakedLight =>
       let* s := gets settings_ in
       emit (EvBakeDirectLightForLightProbes chunk bakedLight);;;
       ret (BakeDirectLightForLightProbes data (lightProbesCollection_ v)
              (raytracerScene_ v) bakedLight s)) w =
  Ok data'
     (with_trace (trace_ w ++ map (EvBakeDirectLightForLightProbes chunk) lights) w).
Proof.
  induction lights as [|light lights IH]; intros data w; cbn [foldM map].
  - exists data. run. now rewrite with_trace_nil.
  - run. match goal with |- context [foldM lights ?d _ ?w1] =>
      destruct (IH d w1) as [data' Hrun] end.
    exists data'. rewrite Hrun. world_simpl. now rewrite <- app_assoc.
Qed.

(** "Save light probes", when it returns. *)
Lemma saveLightProbes_inv chunk v data (l : list nat) :
  forall w w',
  foldM l tt
    (fun _ groupIndex =>
       let* fs := gets fileSystem_ in
       let saved := SaveLightProbesBakedData fs (lightProbesCollection_ v)
                      data (Z.of_nat groupIndex) in
       modify (with_fileSystem saved.2);;;
       emit (EvSaveLightProbesBakedData chunk (Z.of_nat groupIndex) saved.1);;;
       if negb saved.1 then
         let* groupName :=
           (if Z.of_nat groupIndex <? GetNumGroups (lightProbesCollection_ v)
            then at_ (names_ (lightProbesCollection_ v)) groupIndex
            else ret EmptyString) in
         URHO3D_LOGERROR msg_saveProbes [groupName; IntVector3_ToString chunk]
       else ret tt) w = Ok tt w' ->
  sameBakeInputs w w' /\ polls_ w' = polls_ w /\ cache_ w' = cache_ w /\
  exists t, trace_ w' = trace_ w ++ t /\ saveShape chunk l t.
Proof.
  induction l as [|g l IH]; intros w w' Hrun; cbn [foldM] in Hrun.
  - run_in Hrun. injection Hrun as <-. split; [apply sameBakeInputs_refl|].
    repeat split. exists []. rewrite app_nil_r. split; [reflexivity|constructor].
  - unfold URHO3D_LOGERROR in Hrun at 1. cbn zeta in Hrun. run_in Hrun.
    destruct (SaveLightProbesBakedData (fileSystem_ w) (lightProbesCollection_ v)
                data (Z.of_nat g)) as [[] fs] eqn:Hsave; run_in Hrun.
    + apply IH in Hrun as (Hsame & Hpolls & Hcache & t & Ht & Hshape).
      world_simpl. split; [exact Hsame|]. repeat split; try assumption.
      eexists. split; [rewrite Ht, <- app_assoc; reflexivity|].
      now constructor.
    + destruct (Z.of_nat g <? GetNumGroups (lightProbesCollection_ v)); run_in Hrun;
        [destruct (names_ (lightProbesCollection_ v) !! g) as [name|];
         [|discriminate] |];
        run_in Hrun;
        apply IH in Hrun as (Hsame & Hpolls & Hcache & t & Ht & Hshape);
        world_simpl; (split; [exact Hsame|]); repeat split; try assumption;
        (eexists; split; [rewrite Ht, <- !app_assoc; reflexivity|]);
        now constructor.
Qed.

(** One chunk of the indirect phase. *)
Lemma bakeIndirectChunk_inv tok loc chunk w r w' :
  bakeIndirectChunk tok loc chunk w = Ok r w' ->
  sameBakeInputs w w' /\
  exists t, trace_ w' = trace_ w ++ t /\
            chunkShape (chunkVicinities (cache_ w)) (settings_ w) chunk (completed r) t.
Proof.
  intros Hrun. unfold bakeIndirectChunk, LoadChunkVicinity in Hrun. run_in Hrun.
  destruct (chunkVicinities (cache_ w) !! chunk) as [v|] eqn:Hv; [|discriminate].
  apply bind_Ok_inv in Hrun as (table & w1 & Hload & Hrun).
  unfold loadRequiredDirectLightmaps in Hload. run_in Hload.
  apply loadRequired_inv in Hload. subst w1.
  unfold viewDirect in Hrun. run_in Hrun.
  apply bind_Ok_inv in Hrun as (r1 & w2 & Hloop & Hrun).
  apply chartLoop_inv in Hloop as [Hsame (loop & Hloop & Hshape)].
  world_simpl.
  destruct r1 as [loc'|].
  - unfold bakeDirectLightProbes, saveLightProbes, forEach in Hrun.
    match type of Hrun with context [foldM (bakedLights_ v) ?d _] =>
      destruct (bakeDirectLightProbes_from chunk v (bakedLights_ v) d w2)
        as [data' Hprobes] end.
    rewrite (bind_Ok _ _ _ _ _ Hprobes) in Hrun.
    apply bind_Ok_inv in Hrun as ([] & w3 & Hsave & Hrun).
    apply saveLightProbes_inv in Hsave as (Hsame' & _ & _ & saves & Hsaves & Hsshape).
    run_in Hrun. injection Hrun as <- <-.
    split; [eapply sameBakeInputs_trans; [exact Hsame|exact Hsame']|].
    eexists. split.
    + rewrite Hsaves. world_simpl. rewrite Hloop. world_simpl.
      rewrite <- !app_assoc. cbn [app]. reflexivity.
    + apply (chunk_shape _ _ _ v true loop
               (map (EvBakeDirectLightForLightProbes chunk) (bakedLights_ v) ++ saves));
        [exact Hv | exact Hshape | ].
      exists saves. split; [reflexivity|exact Hsshape].
  - run_in Hrun. injection Hrun as <- <-. split; [exact Hsame|].
    eexists. split.
    + rewrite Hloop. world_simpl. rewrite <- !app_assoc. cbn [app].
      rewrite <- (app_nil_r loop) at 1. reflexivity.
    + apply (chunk_shape _ _ _ v false loop []); [exact Hv|exact Hshape|reflexivity].
Qed.

(** The loop over the chunks of the indirect phase. *)
Lemma indirectChunks_inv tok (l : list IntVector3) :
  forall loc w r w',
  foldBreak l loc (bakeIndirectChunk tok) w = Ok r w' ->
  sameBakeInputs w w' /\
  exists t, trace_ w' = trace_ w ++ t /\
            phaseShape (chunkVicinities (cache_ w)) (settings_ w) l (completed r) t.
Proof.
  induction l as [|chunk l IH]; intros loc w r w' Hrun; cbn [foldBreak] in Hrun.
  - run_in Hrun. injection Hrun as <- <-. split; [apply sameBakeInputs_refl|].
    exists []. rewrite app_nil_r. split; [reflexivity|constructor].
  - apply bind_Ok_inv in Hrun as (r1 & w1 & Hbody & Hrest).
    apply bakeIndirectChunk_inv in Hbody as [Hsame (t & Ht & Hshape)].
    destruct r1 as [loc'|].
    + apply IH in Hrest as [Hsame' (t' & Ht' & Hshape')].
      split; [eapply sameBakeInputs_trans; eassumption|].
      exists (t ++ t'). split; [now rewrite Ht', Ht, app_assoc|].
      destruct Hsame as (Hs & _ & _ & Hv). rewrite Hs, Hv in Hshape'.
      econstructor; eassumption.
    + run_in Hrest. injection Hrest as <- <-. split; [exact Hsame|].
      exists t. split; [exact Ht|now constructor].
Qed.

(** The calls of [BakeIndirectAndFilter], when it returns. *)
Lemma BakeIndirectAndFilter_shape tok w b w' :
  BakeIndirectAndFilter tok w = Ok b w' ->
  sameBakeInputs w w' /\
  exists t, trace_ w' = trace_ w ++ t /\
            phaseShape (chunkVicinities (cache_ w)) (settings_ w) (chunks_ w) b t.
Proof.
  intros Hrun. unfold BakeIndirectAndFilter in Hrun. run_in Hrun.
  apply bind_Ok_inv in Hrun as (r & w1 & Hloop & Hrun).
  apply indirectChunks_inv in Hloop as [Hsame (t & Ht & Hshape)].
  run_in Hrun. injection Hrun as <- <-. split; [exact Hsame|].
  exists t. split; [exact Ht|]. now destruct r.
Qed.

End IndirectFacts.

(** ** Final lightmaps *)

Section FinalLightmapFacts.
Context `{Collaborators}.
Import FloatFacts.

(** The value of one final texel. *)
Definition combineLight (direct : Vector3) (indirect : Vector4) : Vector3 :=
  Vector3_add (VectorMax Vector3_ZERO direct)
              (VectorMax Vector3_ZERO (Vector4_to_Vector3 indirect)).

Lemma combineTexel_None direct indirect (l : list nat) :
  fold_left (combineTexel direct indirect) l None = None.
Proof. induction l as [|i l IH]; [reflexivity|exact IH]. Qed.

(** The loop over the texels from [a] on, [k] texels to go. *)
Lemma combine_loop direct indirect (k : nat) :
  forall a (l l' : list Vector3),
  fold_left (combineTexel direct indirect) (seq a k) (Some l) = Some l' ->
  length l' = length l /\
  (forall i, (a <= i < a + k)%nat -> (i < length l)%nat ->
     exists d dv iv,
       direct = Some d /\ directLight_ d !! i = Some dv /\
       light_ indirect !! i = Some iv /\ l' !! i = Some (combineLight dv iv)) /\
  (forall i, ~ (a <= i < a + k)%nat -> l' !! i = l !! i).
Proof.
  induction k as [|k IH]; intros a l l' Hrun; cbn [seq fold_left] in Hrun.
  - injection Hrun as <-. split; [reflexivity|]. split; [intros; lia|reflexivity].
  - unfold combineTexel at 2 in Hrun. cbn [mbind option_bind] in Hrun.
    destruct direct as [d|]; cbn [mbind option_bind] in Hrun;
      [|now rewrite combineTexel_None in Hrun].
    destruct (directLight_ d !! a) as [dv|] eqn:Hdv; cbn [mbind option_bind] in Hrun;
      [|now rewrite combineTexel_None in Hrun].
    destruct (light_ indirect !! a) as [iv|] eqn:Hiv;
      cbn [mbind option_bind fmap option_fmap option_map] in Hrun;
      [|now rewrite combineTexel_None in Hrun].
    apply IH in Hrun as (Hlen & Hin & Hout).
    rewrite length_insert in Hlen. split; [exact Hlen|]. split.
    + intros i Hi Hil. destruct (decide (i = a)) as [->|Hne].
      * exists d, dv, iv. repeat split; try assumption.
        rewrite Hout by lia. now apply list_lookup_insert_eq.
      * apply Hin; [lia|]. now rewrite length_insert.
    + intros i Hi. rewrite Hout by lia. apply list_lookup_insert_ne. lia.
Qed.

(** Every texel of the final lightmap is the clamped direct light plus the
    clamped indirect light of the texel of the same index. *)
Lemma generateFinalImage_texels size direct indirect baked :
  generateFinalImage size direct indirect = Some baked ->
  length (lightmap_ baked) = Z.to_nat (wrap32 (size * size)) /\
  forall i texel, lightmap_ baked !! i = Some texel ->
    exists d dv iv,
      direct = Some d /\ directLight_ d !! i = Some dv /\
      light_ indirect !! i = Some iv /\ texel = combineLight dv iv.
Proof.
  unfold generateFinalImage, NewBakedLightmap, indices. cbn [lightmap_].
  intros Hrun.
  destruct (fold_left _ _ _) as [l'|] eqn:Hloop; [|discriminate].
  injection Hrun as <-. cbn [lightmap_].
  apply combine_loop in Hloop as (Hlen & Hin & _).
  rewrite length_replicate in *. split; [exact Hlen|].
  intros i texel Htexel.
  assert (Hi : (i < Z.to_nat (wrap32 (size * size)))%nat).
  { rewrite <- Hlen. eapply lookup_lt_Some, Htexel. }
  destruct (Hin i ltac:(lia) Hi) as (d & dv & iv & Hd & Hdv & Hiv & Hl).
  exists d, dv, iv. repeat split; try assumption. congruence.
Qed.

(** A channel of a final texel never compares below zero, and it is at
    least zero unless the direct or the indirect channel is a NaN. *)
Lemma combineChannel_not_negative direct indirect :
  flt (combineChannel direct indirect) fzero = false.
Proof.
  destruct (is_nan direct) eqn:Hd; [destruct direct; try discriminate; reflexivity|].
  destruct (is_nan indirect) eqn:Hi.
  - destruct indirect; try discriminate. unfold combineChannel.
    assert (Hnan : fadd (Max fzero direct) (Max fzero S754_nan) = S754_nan)
      by (unfold fadd, SFadd; cbn; now destruct (Max fzero direct)).
    now rewrite Hnan.
  - apply nonneg_not_lt. now apply combineChannel_nonneg.
Qed.

Lemma combineLight_channels (dv : Vector3) (iv : Vector4) :
  channels (combineLight dv iv) =
  [combineChannel (v3x_ dv) (v4x_ iv); combineChannel (v3y_ dv) (v4y_ iv);
   combineChannel (v3z_ dv) (v4z_ iv)].
Proof. reflexivity. Qed.

Lemma combineLight_not_negative dv iv :
  Forall (fun c => flt c fzero = false) (channels (combineLight dv iv)).
Proof.
  rewrite combineLight_channels.
  repeat (apply List.Forall_cons; [apply combineChannel_not_negative|]).
  apply List.Forall_nil.
Qed.

Lemma combineLight_nonneg dv iv :
  Forall (fun c => is_nan c = false)
         (channels dv ++ channels (Vector4_to_Vector3 iv)) ->
  Forall nonneg (channels (combineLight dv iv)).
Proof.
  intros Hnan. rewrite combineLight_channels.
  apply Forall_app in Hnan as [Hd Hi].
  unfold channels in Hd, Hi. cbn [Vector4_to_Vector3 v3x_ v3y_ v3z_] in Hi.
  apply Forall_cons_iff in Hd as [Hdx Hd]. apply Forall_cons_iff in Hd as [Hdy Hd].
  apply Forall_cons_iff in Hd as [Hdz _].
  apply Forall_cons_iff in Hi as [Hix Hi]. apply Forall_cons_iff in Hi as [Hiy Hi].
  apply Forall_cons_iff in Hi as [Hiz _].
  repeat (apply List.Forall_cons; [now apply combineChannel_nonneg|]).
  apply List.Forall_nil.
Qed.

(** Where final lightmaps are stored. *)
Lemma saveShape_no_store chunk l t lightmapIndex baked :
  saveShape chunk l t -> ~ In (EvStoreLightmap lightmapIndex baked) t.
Proof.
  induction 1 as [|g l t _ IH|g l name t _ IH]; cbn [In]; intuition discriminate.
Qed.

Lemma chartLoopShape_stores s v l b t lightmapIndex baked :
  chartLoopShape s v l b t -> In (EvStoreLightmap lightmapIndex baked) t ->
  exists direct indirect,
    generateFinalImage (lightmapSize_ s) direct indirect = Some baked.
Proof.
  induction 1 as [|i l|i l idx direct indirect lm b t Hidx Hfinal _ IH];
    cbn [In chartEvents app]; intros Hin.
  - contradiction.
  - destruct Hin as [Hin|[]]. discriminate.
  - destruct Hin as [Hin|[Hin|[Hin|Hin]]]; try discriminate; [|now apply IH].
    injection Hin as <- <-. eauto.
Qed.

Lemma chunkShape_stores V s chunk b t lightmapIndex baked :
  chunkShape V s chunk b t -> In (EvStoreLightmap lightmapIndex baked) t ->
  exists direct indirect,
    generateFinalImage (lightmapSize_ s) direct indirect = Some baked.
Proof.
  intros [v completed loop tail Hv Hloop Htail] Hin.
  destruct Hin as [Hin|Hin]; [discriminate|].
  apply in_app_or in Hin as [Hin|Hin].
  { apply in_map_iff in Hin as (? & ? & _). discriminate. }
  destruct Hin as [Hin|Hin]; [discriminate|].
  apply in_app_or in Hin as [Hin|Hin]; [eapply chartLoopShape_stores; eassumption|].
  exfalso. destruct completed; [|now subst tail].
  destruct Htail as (saves & -> & Hsaves).
  apply in_app_or in Hin as [Hin|Hin].
  - apply in_map_iff in Hin as (? & ? & _). discriminate.
  - eapply saveShape_no_store; eassumption.
Qed.

Lemma phaseShape_stores V s l b t lightmapIndex baked :
  phaseShape V s l b t -> In (EvStoreLightmap lightmapIndex baked) t ->
  exists direct indirect,
    generateFinalImage (lightmapSize_ s) direct indirect = Some baked.
Proof.
  induction 1 as [|chunk l t Hchunk|chunk l t b t' Hchunk _ IH]; intros Hin.
  - contradiction.
  - eapply chunkShape_stores; eassumption.
  - apply in_app_or in Hin as [Hin|Hin]; [eapply chunkShape_stores; eassumption|].
    now apply IH.
Qed.

(** *** The pass that stores a final lightmap *)

(** The calls of a loop are the calls of its passes, one after the other:
    a call made by the loop is made by one of its passes, which begins in
    the state that the passes before it leave. *)
Lemma foldBreak_extends {St A} (body : St -> A -> M (option St)) :
  (forall s x w r w', body s x w = Ok r w' -> exists t, trace_ w' = trace_ w ++ t) ->
  forall (l : list A) s w r w',
  foldBreak l s body w = Ok r w' -> exists t, trace_ w' = trace_ w ++ t.
Proof.
  intros Hbody l s w r w'.
  apply (foldBreak_rel (fun w w' => exists t, trace_ w' = trace_ w ++ t)).
  - intros w0. exists []. now rewrite app_nil_r.
  - intros w1 w2 w3 [t1 H1] [t2 H2]. exists (t1 ++ t2).
    now rewrite H2, H1, app_assoc.
  - exact Hbody.
Qed.

Lemma foldBreak_pass {St A} (body : St -> A -> M (option St)) (e : Event) :
  (forall s x w r w', body s x w = Ok r w' -> exists t, trace_ w' = trace_ w ++ t) ->
  forall (l : list A) s w r w' t,
  foldBreak l s body w = Ok r w' -> trace_ w' = trace_ w ++ t -> In e t ->
  exists l1 x l2 s1 w1 r2 w2 t1 tb t2,
    l = l1 ++ x :: l2 /\
    foldBreak l1 s body w = Ok (Some s1) w1 /\
    body s1 x w1 = Ok r2 w2 /\
    trace_ w1 = trace_ w ++ t1 /\
    trace_ w2 = trace_ w1 ++ tb /\
    t = t1 ++ tb ++ t2 /\ In e tb.
Proof.
  intros Hbody. induction l as [|x l IH]; intros s w r w' t Hrun Ht Hin;
    cbn [foldBreak] in Hrun.
  - run_in Hrun. injection Hrun as _ <-.
    rewrite <- (app_nil_r (trace_ w)) in Ht at 1. apply app_inv_head in Ht.
    subst t. destruct Hin.
  - apply bind_Ok_inv in Hrun as (r1 & wx & Hx & Hrest).
    destruct (Hbody _ _ _ _ _ Hx) as [tb Htb].
    destruct r1 as [s'|].
    + destruct (foldBreak_extends body Hbody _ _ _ _ _ Hrest) as [t' Ht'].
      assert (Heq : t = tb ++ t').
      { apply (app_inv_head (trace_ w)). now rewrite <- Ht, Ht', Htb, app_assoc. }
      subst t. apply in_app_or in Hin as [Hin|Hin].
      * exists [], x, l, s, w, (Some s'), wx, [], tb, t'.
        split; [reflexivity|]. split; [reflexivity|]. split; [exact Hx|].
        split; [now rewrite app_nil_r|]. split; [exact Htb|].
        split; [reflexivity|exact Hin].
      * destruct (IH _ _ _ _ _ Hrest Ht' Hin)
          as (l1 & y & l2 & s1 & w1 & r2 & w2 & t1 & tb' & t2
              & -> & Hpre & Hy & Ht1 & Htb' & -> & Hin').
        exists (x :: l1), y, l2, s1, w1, r2, w2, (tb ++ t1), tb', t2.
        split; [reflexivity|].
        split; [cbn [foldBreak]; rewrite (bind_Ok _ _ _ _ _ Hx); exact Hpre|].
        split; [exact Hy|]. split; [now rewrite Ht1, Htb, app_assoc|].
        split; [exact Htb'|]. split; [now rewrite app_assoc|exact Hin'].
    + run_in Hrest. injection Hrest as _ <-.
      assert (Heq : t = tb).
      { apply (app_inv_head (trace_ w)). now rewrite <- Ht, Htb. }
      subst t.
      exists [], x, l, s, w, None, wx, [], tb, [].
      split; [reflexivity|]. split; [reflexivity|]. split; [exact Hx|].
      split; [now rewrite app_nil_r|]. split; [exact Htb|].
      split; [now rewrite app_nil_r|exact Hin].
Qed.

(** What the indirect phase keeps from one state to a later one: the inputs
    of [Bake], and the direct buffer of every lightmap whose final lightmap
    has not been stored in between (of every lightmap when the direct
    filter is off). *)
Definition directKept (w w' : World) : Prop :=
  sameBakeInputs w w' /\
  exists t,
    trace_ w' = trace_ w ++ t /\
    forall k,
      directFilter_kernelRadius_ (settings_ w) <= 0 \/
      (forall baked, ~ In (EvStoreLightmap k baked) t) ->
      directLights (cache_ w') !! k = directLights (cache_ w) !! k.

Lemma directKept_refl w : directKept w w.
Proof.
  split; [apply sameBakeInputs_refl|]. exists []. now rewrite app_nil_r.
Qed.

Lemma directKept_trans w1 w2 w3 :
  directKept w1 w2 -> directKept w2 w3 -> directKept w1 w3.
Proof.
  intros [Hsame1 (t1 & Ht1 & Hk1)] [Hsame2 (t2 & Ht2 & Hk2)].
  split; [eapply sameBakeInputs_trans; eassumption|].
  exists (t1 ++ t2). split; [now rewrite Ht2, Ht1, app_assoc|].
  intros k Hk. destruct Hsame1 as (Hs & _). rewrite Hk2, Hk1; [reflexivity| |].
  - destruct Hk as [Hoff|Hnone]; [now left|right].
    intros baked Hin. apply (Hnone baked), in_or_app. now left.
  - rewrite Hs. destruct Hk as [Hoff|Hnone]; [now left|right].
    intros baked Hin. apply (Hnone baked), in_or_app. now right.
Qed.

(** A step that leaves the settings, the chunk list and the cache as they
    are. *)
Lemma directKept_quiet w w' t :
  settings_ w' = settings_ w -> chunks_ w' = chunks_ w ->
  numLightmapCharts_ w' = numLightmapCharts_ w -> cache_ w' = cache_ w ->
  trace_ w' = trace_ w ++ t -> directKept w w'.
Proof.
  intros Hs Hc Hn Hcache Ht. split; [unfold sameBakeInputs; now rewrite Hcache|].
  exists t. split; [exact Ht|]. intros k _. now rewrite Hcache.
Qed.

(** The buffers that a pass of the loop over the lightmaps combines: the
    direct buffer of the lightmap as the cache holds it when the pass
    begins, filtered when the direct filter is on; and the indirect buffer
    that the pass traces, normalised, and filtered when the indirect filter
    is on. *)
Definition passDirect (s : Settings) (loc : IndirectLocals)
  (geometryBuffer : LightmapChartGeometryBuffer)
  (loaded : option LightmapChartBakedDirect) : option LightmapChartBakedDirect :=
  if 0 <? directFilter_kernelRadius_ s
  then (fun bakedDirect =>
          (FilterDirectLight bakedDirect (directFilterBuffer loc) geometryBuffer s).1)
       <$> loaded
  else loaded.

Definition passIndirect (s : Settings) (v : BakedChunkVicinity)
  (loc : IndirectLocals) (geometryBuffer : LightmapChartGeometryBuffer)
  (directs : list (option LightmapChartBakedDirect)) : LightmapChartBakedIndirect :=
  let bakedIndirect :=
    NormalizeLight
      (BakeIndirectLightForCharts (NewBakedIndirect (gb_lightmapSize_ geometryBuffer))
         directs geometryBuffer (Define (lightProbesCollection_ v))
         (lightProbesBakedData loc) (raytracerScene_ v)
         (geometryBufferToRaytracer_ v) s) in
  if 0 <? indirectFilter_kernelRadius_ s
  then (FilterIndirectLight bakedIndirect (indirectFilterBuffer loc) geometryBuffer s).1
  else bakedIndirect.

(** One pass of the loop over the lightmaps: what it combines, and what it
    leaves of the direct buffers. *)
Lemma bakeIndirectChart_pass tok v table loc i w r w' :
  bakeIndirectChart tok v table (Define (lightProbesCollection_ v)) loc i w = Ok r w' ->
  (r = None /\ cache_ w' = cache_ w /\ trace_ w' = trace_ w ++ [EvIsStopped true]) \/
  (exists loc' lightmapIndex geometryBuffer baked,
     r = Some loc' /\
     lightmaps_ v !! i = Some lightmapIndex /\
     geometryBuffers_ v !! i = Some geometryBuffer /\
     trace_ w' = trace_ w ++ chartEvents lightmapIndex baked /\
     generateFinalImage (lightmapSize_ (settings_ w))
       (passDirect (settings_ w) loc geometryBuffer
          (directLights (cache_ w) !! lightmapIndex))
       (passIndirect (settings_ w) v loc geometryBuffer
          (map (fun handle => handle ≫= fun k => directLights (cache_ w) !! k) table))
     = Some baked /\
     forall k, directFilter_kernelRadius_ (settings_ w) <= 0 \/ k <> lightmapIndex ->
               directLights (cache_ w') !! k = directLights (cache_ w) !! k).
Proof.
  intros Hrun.
  unfold bakeIndirectChart, IsStopped, LoadDirectLight, viewDirect, readDirect,
    writeDirect, StoreLightmap in Hrun.
  run_in Hrun.
  destruct (tok (polls_ w)); run_in Hrun.
  { injection Hrun as <- <-. left. world_simpl. now repeat split. }
  destruct (lightmaps_ v !! i) as [lightmapIndex|] eqn:Hidx; [|discriminate].
  run_in Hrun.
  destruct (geometryBuffers_ v !! i) as [geometryBuffer|] eqn:Hgb; [|discriminate].
  right. unfold passDirect, passIndirect.
  grind Hrun.
  all: injection Hrun as <- <-.
  all: eexists _, lightmapIndex, geometryBuffer, _.
  all: split; [reflexivity|]; split; [reflexivity|]; split; [reflexivity|].
  all: world_simpl.
  all: split; [unfold chartEvents; now rewrite <- !app_assoc|].
  all: repeat match goal with
         | Heq : Some _ = Some _ |- _ => injection Heq as <-
         | Hb : (0 <? _) = true |- _ => rewrite Hb
         | Hb : (0 <? _) = false |- _ => rewrite Hb
         | Hd : directLights _ !! _ = _ |- _ => rewrite Hd in *
         end.
  all: cbn [mbind option_bind fmap option_fmap option_map] in *.
  all: rewrite ?lookup_insert_eq in *.
  all: split; [eassumption|].
  all: intros k [Hoff|Hne];
         [match goal with
          | Hb : (0 <? _) = true |- _ => apply Z.ltb_lt in Hb; lia
          | _ => reflexivity
          end
         |try reflexivity; now apply lookup_insert_ne].
Qed.

Lemma bakeIndirectChart_extends tok v table mesh loc i w r w' :
  bakeIndirectChart tok v table mesh loc i w = Ok r w' ->
  exists t, trace_ w' = trace_ w ++ t.
Proof.
  intros Hrun. apply bakeIndirectChart_inv in Hrun as [_ [[_ Ht]|Hstep]]; [eauto|].
  destruct Hstep as (? & ? & ? & ? & ? & _ & _ & _ & Ht). eauto.
Qed.

Lemma bakeIndirectChart_directKept tok v table loc i w r w' :
  bakeIndirectChart tok v table (Define (lightProbesCollection_ v)) loc i w = Ok r w' ->
  directKept w w'.
Proof.
  intros Hrun. pose proof (bakeIndirectChart_inv _ _ _ _ _ _ _ _ _ Hrun) as [Hsame _].
  split; [exact Hsame|].
  apply bakeIndirectChart_pass in Hrun
    as [(_ & Hcache & Ht)
       |(loc' & idx & gb & baked & _ & _ & _ & Ht & _ & Hkept)].
  - eexists. split; [exact Ht|]. intros k _. now rewrite Hcache.
  - eexists. split; [exact Ht|]. intros k [Hoff|Hnone]; apply Hkept; [now left|].
    right. intros ->. apply (Hnone baked). unfold chartEvents. cbn [In]. auto.
Qed.

(** One chunk: the loop over its lightmaps, and what comes before and
    after. *)
Lemma bakeIndirectChunk_loop tok loc chunk w r w' :
  bakeIndirectChunk tok loc chunk w = Ok r w' ->
  exists v table loc0 w0 r0 w1 t0 tail,
    chunkVicinities (cache_ w) !! chunk = Some v /\
    directKept w w0 /\ trace_ w0 = trace_ w ++ t0 /\
    foldBreak (indices (lightmaps_ v)) loc0
      (bakeIndirectChart tok v table (Define (lightProbesCollection_ v))) w0 = Ok r0 w1 /\
    directKept w1 w' /\ trace_ w' = trace_ w1 ++ tail /\
    forall k baked, ~ In (EvStoreLightmap k baked) (t0 ++ tail).
Proof.
  intros Hrun. unfold bakeIndirectChunk, LoadChunkVicinity in Hrun. run_in Hrun.
  destruct (chunkVicinities (cache_ w) !! chunk) as [v|] eqn:Hv; [|discriminate].
  apply bind_Ok_inv in Hrun as (table & w1 & Hload & Hrun).
  unfold loadRequiredDirectLightmaps in Hload. run_in Hload.
  apply loadRequired_inv in Hload. subst w1.
  unfold viewDirect in Hrun. run_in Hrun.
  apply bind_Ok_inv in Hrun as (r1 & w2 & Hloop & Hrun).
  world_simpl.
  assert (Ht0 : forall a (l : list Event) b,
            ((trace_ w ++ [a]) ++ l) ++ [b] = trace_ w ++ a :: l ++ [b])
    by (intros a l b; now rewrite <- !app_assoc).
  assert (Hloads : forall k baked,
            ~ In (EvStoreLightmap k baked)
                (EvLoadChunkVicinity chunk
                 :: map EvLoadDirectLight (requiredDirectLightmaps v)
                 ++ [EvBakeIndirectLightForLightProbes chunk])).
  { intros k baked [Hin|Hin]; [discriminate|].
    apply in_app_or in Hin as [Hin|[Hin|[]]]; [|discriminate].
    apply in_map_iff in Hin as (? & ? & _). discriminate. }
  destruct r1 as [loc'|].
  - unfold bakeDirectLightProbes, saveLightProbes, forEach in Hrun.
    match type of Hrun with context [foldM (bakedLights_ v) ?d _] =>
      destruct (bakeDirectLightProbes_from chunk v (bakedLights_ v) d w2)
        as [data' Hprobes] end.
    rewrite (bind_Ok _ _ _ _ _ Hprobes) in Hrun.
    apply bind_Ok_inv in Hrun as ([] & w3 & Hsave & Hrun).
    apply saveLightProbes_inv in Hsave
      as ((Hs & Hc & Hn & _) & _ & Hcache & saves & Hsaves & Hsshape).
    run_in Hrun. injection Hrun as _ <-. world_simpl.
    assert (Ht : trace_ w3 = trace_ w2
                 ++ (map (EvBakeDirectLightForLightProbes chunk) (bakedLights_ v)
                     ++ saves))
      by (rewrite Hsaves; world_simpl; now rewrite <- app_assoc).
    match type of Hloop with foldBreak _ ?loc0 _ ?w0 = _ =>
      exists v, table, loc0, w0, (Some loc'), w2,
        (EvLoadChunkVicinity chunk :: map EvLoadDirectLight (requiredDirectLightmaps v)
         ++ [EvBakeIndirectLightForLightProbes chunk]),
        (map (EvBakeDirectLightForLightProbes chunk) (bakedLights_ v) ++ saves)
    end.
    split; [reflexivity|].
    split; [eapply directKept_quiet; try reflexivity; world_simpl; apply Ht0|].
    split; [world_simpl; apply Ht0|]. split; [exact Hloop|].
    split; [eapply directKept_quiet; [exact Hs|exact Hc|exact Hn|exact Hcache|exact Ht]|].
    split; [exact Ht|].
    intros k baked Hin. apply in_app_or in Hin as [Hin|Hin]; [now apply Hloads in Hin|].
    apply in_app_or in Hin as [Hin|Hin].
    + apply in_map_iff in Hin as (? & ? & _). discriminate.
    + eapply saveShape_no_store; eassumption.
  - run_in Hrun. injection Hrun as _ <-.
    match type of Hloop with foldBreak _ ?loc0 _ ?w0 = _ =>
      exists v, table, loc0, w0, None, w2,
        (EvLoadChunkVicinity chunk :: map EvLoadDirectLight (requiredDirectLightmaps v)
         ++ [EvBakeIndirectLightForLightProbes chunk]), []
    end.
    split; [reflexivity|].
    split; [eapply directKept_quiet; try reflexivity; world_simpl; apply Ht0|].
    split; [world_simpl; apply Ht0|]. split; [exact Hloop|].
    split; [apply directKept_refl|]. split; [now rewrite app_nil_r|].
    intros k baked Hin. rewrite app_nil_r in Hin. now apply Hloads in Hin.
Qed.

Lemma chartLoop_directKept tok v table (l : list nat) loc w r w' :
  foldBreak l loc (bakeIndirectChart tok v table (Define (lightProbesCollection_ v))) w
    = Ok r w' ->
  directKept w w'.
Proof.
  apply (foldBreak_rel directKept);
    [apply directKept_refl|apply directKept_trans
    |intros ? ? ? ? ?; apply bakeIndirectChart_directKept].
Qed.

Lemma bakeIndirectChunk_directKept tok loc chunk w r w' :
  bakeIndirectChunk tok loc chunk w = Ok r w' -> directKept w w'.
Proof.
  intros Hrun.
  apply bakeIndirectChunk_loop in Hrun
    as (v & table & loc0 & w0 & r0 & w1 & t0 & tail & _ & Hbefore & _ & Hloop & Hafter & _).
  apply chartLoop_directKept in Hloop.
  eapply directKept_trans; [exact Hbefore|].
  eapply directKept_trans; [exact Hloop|exact Hafter].
Qed.

Lemma directKept_extends w w' : directKept w w' -> exists t, trace_ w' = trace_ w ++ t.
Proof. intros [_ (t & Ht & _)]. eauto. Qed.


End FinalLightmapFacts.

(** ** Direct buffers loaded for a chunk *)

Section LoadFacts.
Context `{Collaborators}.

Lemma collectRequired_from (l : list RaytracerGeometry) :
  forall (acc : gset Z) (i : Z),
  i ∈ fold_left
        (fun required raytracerGeometry =>
           if bool_decide (lightmapIndex_ raytracerGeometry ≠ M_MAX_UNSIGNED)
           then required ∪ {[ lightmapIndex_ raytracerGeometry ]}
           else required) l acc <->
  i ∈ acc \/ (i ≠ M_MAX_UNSIGNED /\ exists g, In g l /\ lightmapIndex_ g = i).
Proof.
  induction l as [|g l IH]; intros acc i; cbn [fold_left In].
  - split; [auto|]. intros [Hacc|(_ & g & [] & _)]. exact Hacc.
  - rewrite IH. case_bool_decide as Hvalid.
    + rewrite elem_of_union, elem_of_singleton. split.
      * intros [[Hacc| ->]|(Hne & g' & Hin & Hg')]; eauto 8.
      * intros [Hacc|(Hne & g' & [<-|Hin] & Hg')]; eauto 8.
    + split.
      * intros [Hacc|(Hne & g' & Hin & Hg')]; eauto 8.
      * intros [Hacc|(Hne & g' & [<-|Hin] & Hg')]; eauto 8.
        exfalso. congruence.
Qed.

(** The set collected is the set of the valid lightmap indices of the
    geometries of the ray tracing scene. *)
Lemma collectRequired_spec (v : BakedChunkVicinity) (i : Z) :
  i ∈ collectRequiredDirectLightmaps v <->
  i ≠ M_MAX_UNSIGNED /\
  exists g, In g (GetGeometries (raytracerScene_ v)) /\ lightmapIndex_ g = i.
Proof.
  unfold collectRequiredDirectLightmaps. rewrite collectRequired_from.
  split; [intros [Hempty|Hin]; [set_solver|exact Hin] | auto].
Qed.

Lemma loadedDirectLights_app (t1 t2 : list Event) :
  loadedDirectLights (t1 ++ t2) = loadedDirectLights t1 ++ loadedDirectLights t2.
Proof. unfold loadedDirectLights. apply omap_app. Qed.

Lemma loadedDirectLights_loads (l : list Z) :
  loadedDirectLights (map EvLoadDirectLight l) = l.
Proof. induction l as [|i l IH]; [reflexivity|]. cbn. now f_equal. Qed.

Lemma loadedDirectLights_probes chunk (lights : list BakedLight) :
  loadedDirectLights (map (EvBakeDirectLightForLightProbes chunk) lights) = [].
Proof. induction lights as [|light lights IH]; [reflexivity|exact IH]. Qed.

Lemma loadedDirectLights_saves chunk l t :
  saveShape chunk l t -> loadedDirectLights t = [].
Proof. induction 1; [reflexivity|assumption|assumption]. Qed.

(** The lightmaps of the positions [l]. *)
Definition lightmapsAt (v : BakedChunkVicinity) (l : list nat) : list Z :=
  omap (fun i => lightmaps_ v !! i) l.

Lemma omap_map {A B C} (f : B -> option C) (g : A -> B) (l : list A) :
  omap f (map g l) = omap (fun a => f (g a)) l.
Proof.
  unfold omap. induction l as [|a l IH]; [reflexivity|].
  simpl. destruct (f (g a)); [f_equal|]; exact IH.
Qed.

Lemma lookup_all {A} (l : list A) : omap (fun i => l !! i) (seq 0 (length l)) = l.
Proof.
  induction l as [|x l IH]; [reflexivity|].
  cbn [length seq]. rewrite <- seq_shift.
  change (omap (fun i => (x :: l) !! i) (0%nat :: map S (seq 0 (length l)))) with
    (x :: omap (fun i => (x :: l) !! i) (map S (seq 0 (length l)))).
  f_equal. rewrite omap_map. exact IH.
Qed.

Lemma lightmapsAt_cons (v : BakedChunkVicinity) i l idx :
  lightmaps_ v !! i = Some idx -> lightmapsAt v (i :: l) = idx :: lightmapsAt v l.
Proof. intros Hidx. unfold lightmapsAt, omap. simpl. now rewrite Hidx. Qed.

(** The loop over the lightmaps loads the direct buffer of each lightmap
    it gets to. *)
Lemma chartLoopShape_loads s v l b t :
  chartLoopShape s v l b t ->
  exists n, (n <= length l)%nat /\ (b = true -> n = length l) /\
            loadedDirectLights t = take n (lightmapsAt v l).
Proof.
  induction 1 as [|i l|i l idx direct indirect lm b t Hidx Hfinal _ IH].
  - exists 0%nat. repeat split; reflexivity.
  - exists 0%nat. repeat split; [cbn; lia|discriminate].
  - destruct IH as (n & Hn & Hb & Hloads). exists (S n). cbn [length].
    split; [lia|]. split; [intros Hb'; now rewrite Hb|].
    rewrite (lightmapsAt_cons v i l idx Hidx). cbn [take chartEvents app].
    change (loadedDirectLights (EvIsStopped false :: EvLoadDirectLight idx
                                :: EvStoreLightmap idx lm :: t))
      with (idx :: loadedDirectLights t).
    now rewrite Hloads.
Qed.

(** The hash set holds the set collected, each index once. *)
Lemma requiredInsertions_spec (v : BakedChunkVicinity) (i : Z) :
  i ∈ requiredInsertions v <-> i ∈ collectRequiredDirectLightmaps v.
Proof.
  rewrite collectRequired_spec. unfold requiredInsertions.
  rewrite list_elem_of_filter, list_elem_of_fmap. split.
  - intros (Hvalid & g & -> & Hg). split; [exact Hvalid|].
    exists g. split; [now apply list_elem_of_In|reflexivity].
  - intros (Hvalid & g & Hg & <-). split; [exact Hvalid|].
    exists g. split; [reflexivity|now apply list_elem_of_In].
Qed.

Lemma requiredDirectLightmaps_spec (v : BakedChunkVicinity) (i : Z) :
  i ∈ requiredDirectLightmaps v <-> i ∈ collectRequiredDirectLightmaps v.
Proof.
  unfold requiredDirectLightmaps. rewrite hash_set_order_elem.
  apply requiredInsertions_spec.
Qed.

Lemma requiredDirectLightmaps_NoDup (v : BakedChunkVicinity) :
  NoDup (requiredDirectLightmaps v).
Proof. apply hash_set_order_NoDup. Qed.

(** C5: for a chunk that [BakeIndirectAndFilter] processes without a
    fault, and whose own lightmaps are lightmaps of geometries of its ray
    tracing scene (the scene of a vicinity is made of the chunk's own
    geometry and of the geometry of its neighbours), the direct buffers
    loaded from the cache are exactly those of the valid lightmap indices
    (not the sentinel) that the geometries of the ray tracing scene refer
    to.  The loop over the hash set loads each of them once; the loop over
    the lightmaps of the chunk then loads the buffer of each lightmap it
    gets to once more. *)
Theorem bakeIndirectChunk_loads
  (tok : StopToken) (loc : IndirectLocals) (chunk : IntVector3)
  (v : BakedChunkVicinity) (w w' : World) (r : option IndirectLocals)
  (t : list Event) :
  bakeIndirectChunk tok loc chunk w = Ok r w' ->
  trace_ w' = trace_ w ++ t ->
  chunkVicinities (cache_ w) !! chunk = Some v ->
  (forall i, i ∈ lightmaps_ v ->
     i ≠ M_MAX_UNSIGNED /\
     exists g, In g (GetGeometries (raytracerScene_ v)) /\ lightmapIndex_ g = i) ->
  (forall i, i ∈ loadedDirectLights t <->
     i ≠ M_MAX_UNSIGNED /\
     exists g, In g (GetGeometries (raytracerScene_ v)) /\ lightmapIndex_ g = i) /\
  list_to_set (loadedDirectLights t) =@{gset Z} collectRequiredDirectLightmaps v /\
  exists n,
    (n <= length (lightmaps_ v))%nat /\
    (completed r = true -> n = length (lightmaps_ v)) /\
    NoDup (requiredDirectLightmaps v) /\
    loadedDirectLights t = requiredDirectLightmaps v ++ take n (lightmaps_ v).
Proof.
  intros Hrun Ht Hv Hown.
  apply bakeIndirectChunk_inv in Hrun as [_ (t0 & Ht0 & Hshape)].
  rewrite Ht0 in Ht. apply app_inv_head in Ht. subst t0.
  destruct Hshape as [v' b loop tail Hv' Hloop Htail].
  assert (v' = v) by congruence. subst v'.
  apply chartLoopShape_loads in Hloop as (n & Hn & Hb & Hloads).
  unfold indices, lightmapsAt in *. rewrite length_seq in *. rewrite lookup_all in Hloads.
  assert (Htailloads : loadedDirectLights tail = []).
  { destruct b; [|now subst tail].
    destruct Htail as (saves & -> & Hsaves).
    rewrite loadedDirectLights_app, loadedDirectLights_probes.
    eapply loadedDirectLights_saves, Hsaves. }
  assert (Hall : loadedDirectLights
            (EvLoadChunkVicinity chunk
             :: map EvLoadDirectLight (requiredDirectLightmaps v)
             ++ EvBakeIndirectLightForLightProbes chunk :: loop ++ tail) =
          requiredDirectLightmaps v ++ take n (lightmaps_ v)).
  { change (loadedDirectLights (EvLoadChunkVicinity chunk :: ?t))
      with (loadedDirectLights t).
    rewrite loadedDirectLights_app, loadedDirectLights_loads.
    change (loadedDirectLights (EvBakeIndirectLightForLightProbes chunk :: ?t))
      with (loadedDirectLights t).
    now rewrite loadedDirectLights_app, Hloads, Htailloads, app_nil_r. }
  assert (Hset : forall i, i ∈ requiredDirectLightmaps v ++ take n (lightmaps_ v) <->
                           i ∈ collectRequiredDirectLightmaps v).
  { intros i. rewrite elem_of_app, requiredDirectLightmaps_spec.
    split; [|auto]. intros [Hi|Hi]; [exact Hi|].
    apply collectRequired_spec, Hown. exact (subseteq_take _ _ _ Hi). }
  rewrite Hall. split; [|split].
  - intros i. rewrite Hset. apply collectRequired_spec.
  - apply set_eq. intros i. rewrite elem_of_list_to_set. apply Hset.
  - exists n. split; [exact Hn|]. split; [exact Hb|].
    split; [apply requiredDirectLightmaps_NoDup|reflexivity].
Qed.

End LoadFacts.

(** ** Where the stop token is polled *)

Section CancellationFacts.
Context `{Collaborators}.

(** *** The calls of the direct phase *)

(** One lightmap of the direct phase. *)
Lemma bakeDirectChart_inv tok v i w r w' :
  bakeDirectChart tok v tt i w = Ok r w' ->
  sameBakeInputs w w' /\
  ((r = None /\ trace_ w' = trace_ w ++ [EvIsStopped true]) \/
   (exists lightmapIndex geometryBuffer,
      r = Some tt /\
      lightmaps_ v !! i = Some lightmapIndex /\
      geometryBuffers_ v !! i = Some geometryBuffer /\
      trace_ w' = trace_ w
        ++ jobEvents (lightmapIndex, bakeDirect (settings_ w) v geometryBuffer))).
Proof.
  intros Hrun. unfold bakeDirectChart, IsStopped, StoreDirectLight in Hrun.
  run_in Hrun.
  destruct (tok (polls_ w)); run_in Hrun.
  { injection Hrun as <- <-. split; [repeat split|]. left. split; reflexivity. }
  destruct (lightmaps_ v !! i) as [lightmapIndex|] eqn:Hidx; [|discriminate].
  run_in Hrun.
  destruct (geometryBuffers_ v !! i) as [geometryBuffer|] eqn:Hgb; [|discriminate].
  run_in Hrun. injection Hrun as <- <-. split; [repeat split|]. right.
  exists lightmapIndex, geometryBuffer.
  split; [reflexivity|]. split; [reflexivity|]. split; [reflexivity|].
  world_simpl. unfold jobEvents. now rewrite <- !app_assoc.
Qed.

(** The loop over the lightmaps of a chunk. *)
Lemma directLoop_inv tok v (l : list nat) :
  forall u w r w',
  foldBreak l u (bakeDirectChart tok v) w = Ok r w' ->
  sameBakeInputs w w' /\
  exists t, trace_ w' = trace_ w ++ t /\
            directLoopShape (settings_ w) v l (completed r) t.
Proof.
  induction l as [|i l IH]; intros [] w r w' Hrun; cbn [foldBreak] in Hrun.
  - run_in Hrun. injection Hrun as <- <-. split; [apply sameBakeInputs_refl|].
    exists []. rewrite app_nil_r. split; [reflexivity|constructor].
  - apply bind_Ok_inv in Hrun as (r1 & w1 & Hbody & Hrest).
    apply bakeDirectChart_inv in Hbody
      as [Hsame [[-> Ht] | (idx & gb & -> & Hidx & Hgb & Ht)]].
    + run_in Hrest. injection Hrest as <- <-. split; [exact Hsame|].
      eexists. split; [exact Ht|constructor].
    + apply IH in Hrest as [Hsame' (t & Ht' & Hshape)].
      split; [eapply sameBakeInputs_trans; eassumption|].
      exists (jobEvents (idx, bakeDirect (settings_ w) v gb) ++ t).
      split; [now rewrite Ht', Ht, app_assoc|].
      destruct Hsame as (Hs & _). rewrite Hs in Hshape.
      econstructor; eassumption.
Qed.

(** The loop over the chunks of the direct phase. *)
Lemma directChunks_inv tok (l : list IntVector3) :
  forall u w r w',
  foldBreak l u (bakeDirectChunk tok) w = Ok r w' ->
  sameBakeInputs w w' /\
  exists t, trace_ w' = trace_ w ++ t /\
            directPhaseShape (chunkVicinities (cache_ w)) (settings_ w) l
              (completed r) t.
Proof.
  induction l as [|chunk l IH]; intros u w r w' Hrun; cbn [foldBreak] in Hrun.
  - run_in Hrun. injection Hrun as <- <-. split; [apply sameBakeInputs_refl|].
    exists []. rewrite app_nil_r. split; [reflexivity|constructor].
  - apply bind_Ok_inv in Hrun as (r1 & w1 & Hbody & Hrest).
    unfold bakeDirectChunk, LoadChunkVicinity in Hbody. run_in Hbody.
    destruct (chunkVicinities (cache_ w) !! chunk) as [v|] eqn:Hv; [|discriminate].
    run_in Hbody.
    apply directLoop_inv in Hbody as [Hsame (t & Ht & Hshape)]. world_simpl.
    assert (Hsame0 : sameBakeInputs w w1).
    { destruct Hsame as (Hs & Hc & Hn & Hvs). world_simpl. now repeat split. }
    destruct r1 as [u1|].
    + apply IH in Hrest as [Hsame' (t' & Ht' & Hshape')].
      split; [eapply sameBakeInputs_trans; eassumption|].
      exists (EvLoadChunkVicinity chunk :: t ++ t').
      split; [rewrite Ht', Ht, <- !app_assoc; reflexivity|].
      destruct Hsame0 as (Hs & _ & _ & Hvs). rewrite Hs, Hvs in Hshape'.
      econstructor; eassumption.
    + run_in Hrest. injection Hrest as <- <-. split; [exact Hsame0|].
      exists (EvLoadChunkVicinity chunk :: t).
      split; [rewrite Ht, <- !app_assoc; reflexivity|].
      econstructor; eassumption.
Qed.

(** The calls of [BakeDirectCharts], when it returns. *)
Lemma BakeDirectCharts_shape tok w b w' :
  BakeDirectCharts tok w = Ok b w' ->
  sameBakeInputs w w' /\
  exists t, trace_ w' = trace_ w ++ t /\
            directPhaseShape (chunkVicinities (cache_ w)) (settings_ w) (chunks_ w) b t.
Proof.
  intros Hrun. unfold BakeDirectCharts in Hrun. run_in Hrun.
  apply bind_Ok_inv in Hrun as (r & w1 & Hloop & Hrun).
  apply directChunks_inv in Hloop as [Hsame (t & Ht & Hshape)].
  run_in Hrun. injection Hrun as <- <-. split; [exact Hsame|].
  exists t. split; [exact Ht|]. now destruct r as [[]|].
Qed.

(** The calls of [Bake], when it returns: those of the direct phase, and
    then, if the direct phase ran to its end, those of the indirect
    phase. *)
Lemma Bake_shape tok w b w' :
  Bake tok w = Ok b w' ->
  exists direct t1 t2,
    trace_ w' = trace_ w ++ t1 ++ t2 /\
    directPhaseShape (chunkVicinities (cache_ w)) (settings_ w) (chunks_ w) direct t1 /\
    (if direct
     then phaseShape (chunkVicinities (cache_ w)) (settings_ w) (chunks_ w) b t2
     else b = false /\ t2 = []).
Proof.
  intros Hrun. unfold Bake in Hrun.
  apply bind_Ok_inv in Hrun as (direct & w1 & Hdirect & Hrun).
  apply BakeDirectCharts_shape in Hdirect as [Hsame (t1 & Ht1 & Hshape1)].
  exists direct, t1. destruct direct; cbn [negb] in Hrun.
  - apply bind_Ok_inv in Hrun as (indirect & w2 & Hindirect & Hrun).
    apply BakeIndirectAndFilter_shape in Hindirect as [_ (t2 & Ht2 & Hshape2)].
    destruct Hsame as (Hs & Hc & _ & Hvs). rewrite Hs, Hc, Hvs in Hshape2.
    exists t2. split; [|split; [exact Hshape1|]].
    + destruct indirect; cbn [negb] in Hrun; run_in Hrun; injection Hrun as <- <-;
        now rewrite Ht2, Ht1, app_assoc.
    + destruct indirect; cbn [negb] in Hrun; run_in Hrun; injection Hrun as <- <-;
        exact Hshape2.
  - run_in Hrun. injection Hrun as <- <-. exists [].
    split; [now rewrite app_nil_r|]. split; [exact Hshape1|]. split; reflexivity.
Qed.

(** *** The monitor of the polls *)

Lemma pollRun_nil st : pollRun st [] = Some st.
Proof. reflexivity. Qed.

Lemma pollRun_failed (t : list Event) :
  fold_left (fun st e => st ≫= fun st => pollStep st e) t None = None.
Proof. induction t as [|e t IH]; [reflexivity|exact IH]. Qed.

Lemma pollRun_cons st e t :
  pollRun st (e :: t) =
  match pollStep st e with Some st' => pollRun st' t | None => None end.
Proof.
  unfold pollRun. cbn [fold_left mbind option_bind].
  destruct (pollStep st e); [reflexivity|apply pollRun_failed].
Qed.

Lemma pollRun_app st t1 t2 st' :
  pollRun st t1 = Some st' -> pollRun st (t1 ++ t2) = pollRun st' t2.
Proof. unfold pollRun. rewrite fold_left_app. now intros ->. Qed.

(** Calls that are neither a poll nor the store of a lightmap leave the
    monitor idle. *)
Lemma pollRun_idle (t : list Event) :
  Forall (fun e => pollStep Idle e = Some Idle) t -> pollRun Idle t = Some Idle.
Proof.
  induction 1 as [|e t He _ IH]; [reflexivity|].
  now rewrite pollRun_cons, He.
Qed.

Lemma pollRun_loads (l : list Z) : pollRun Idle (map EvLoadDirectLight l) = Some Idle.
Proof. apply pollRun_idle, Forall_forall. intros e Hin.
  apply list_elem_of_In, in_map_iff in Hin as (i & <- & _). reflexivity. Qed.

Lemma pollRun_probes chunk (lights : list BakedLight) :
  pollRun Idle (map (EvBakeDirectLightForLightProbes chunk) lights) = Some Idle.
Proof. apply pollRun_idle, Forall_forall. intros e Hin.
  apply list_elem_of_In, in_map_iff in Hin as (i & <- & _). reflexivity. Qed.

Lemma pollRun_saves chunk l t : saveShape chunk l t -> pollRun Idle t = Some Idle.
Proof.
  induction 1 as [|g l t _ IH|g l name t _ IH]; [reflexivity| |];
    rewrite ?pollRun_cons; cbn [pollStep]; rewrite ?pollRun_cons; exact IH.
Qed.

Definition pollEnd (completed : bool) : PollState :=
  if completed then Idle else Stopped.

Lemma pollRun_directLoop s v l b t :
  directLoopShape s v l b t -> pollRun Idle t = Some (pollEnd b).
Proof.
  induction 1 as [|i l|i l idx gb b t _ _ _ IH]; [reflexivity|reflexivity|].
  unfold jobEvents. cbn [app]. do 2 (rewrite pollRun_cons; cbn [pollStep]). exact IH.
Qed.

Lemma pollRun_directPhase V s l b t :
  directPhaseShape V s l b t -> pollRun Idle t = Some (pollEnd b).
Proof.
  induction 1 as [|chunk l v t _ Hloop|chunk l v t b t' _ Hloop _ IH];
    [reflexivity| |]; rewrite pollRun_cons; cbn [pollStep].
  - eapply pollRun_directLoop, Hloop.
  - erewrite pollRun_app by (eapply pollRun_directLoop, Hloop). exact IH.
Qed.

Lemma pollRun_chartLoop s v l b t :
  chartLoopShape s v l b t -> pollRun Idle t = Some (pollEnd b).
Proof.
  induction 1 as [|i l|i l idx direct indirect baked b t _ _ _ IH];
    [reflexivity|reflexivity|].
  unfold chartEvents. cbn [app]. do 3 (rewrite pollRun_cons; cbn [pollStep]).
  rewrite bool_decide_eq_true_2 by reflexivity. exact IH.
Qed.

Lemma pollRun_chunk V s chunk b t :
  chunkShape V s chunk b t -> pollRun Idle t = Some (pollEnd b).
Proof.
  intros [v b' loop tail _ Hloop Htail].
  rewrite pollRun_cons. cbn [pollStep].
  rewrite (pollRun_app _ _ _ _ (pollRun_loads _)).
  rewrite pollRun_cons. cbn [pollStep].
  rewrite (pollRun_app _ _ _ _ (pollRun_chartLoop _ _ _ _ _ Hloop)).
  destruct b'; cbn [pollEnd].
  - destruct Htail as (saves & -> & Hsaves).
    rewrite (pollRun_app _ _ _ _ (pollRun_probes _ _)).
    eapply pollRun_saves, Hsaves.
  - now subst tail.
Qed.

Lemma pollRun_phase V s l b t :
  phaseShape V s l b t -> pollRun Idle t = Some (pollEnd b).
Proof.
  induction 1 as [|chunk l t Hchunk|chunk l t b t' Hchunk _ IH]; [reflexivity| |].
  - eapply pollRun_chunk, Hchunk.
  - erewrite pollRun_app by (eapply pollRun_chunk, Hchunk). exact IH.
Qed.

(** *** The probe work *)

Lemma probeWork_app (t1 t2 : list Event) :
  probeWork (t1 ++ t2) = probeWork t1 ++ probeWork t2.
Proof. unfold probeWork. apply omap_app. Qed.

Lemma probeWork_directLoop s v l b t : directLoopShape s v l b t -> probeWork t = [].
Proof. induction 1; [reflexivity|reflexivity|assumption]. Qed.

Lemma probeWork_directPhase V s l b t : directPhaseShape V s l b t -> probeWork t = [].
Proof.
  induction 1 as [|chunk l v t _ Hloop|chunk l v t b t' _ Hloop _ IH]; [reflexivity| |];
    change (probeWork (EvLoadChunkVicinity chunk :: ?t)) with (probeWork t).
  - eapply probeWork_directLoop, Hloop.
  - rewrite probeWork_app, IH. now erewrite probeWork_directLoop by exact Hloop.
Qed.

Lemma probeWork_chartLoop s v l b t : chartLoopShape s v l b t -> probeWork t = [].
Proof. induction 1; [reflexivity|reflexivity|assumption]. Qed.

Lemma probeWork_loads (l : list Z) : probeWork (map EvLoadDirectLight l) = [].
Proof. induction l as [|i l IH]; [reflexivity|exact IH]. Qed.

Lemma probeWork_probes chunk (lights : list BakedLight) :
  probeWork (map (EvBakeDirectLightForLightProbes chunk) lights) =
  map (PDirect chunk) lights.
Proof. induction lights as [|light lights IH]; [reflexivity|]. cbn. now f_equal. Qed.

Lemma probeWork_saves chunk l t :
  saveShape chunk l t -> probeWork t = map (fun g => PSave chunk (Z.of_nat g)) l.
Proof.
  induction 1 as [|g l t _ IH|g l name t _ IH]; [reflexivity| |]; cbn [map];
    rewrite <- IH; reflexivity.
Qed.

Lemma probeWork_chunk V s chunk b t :
  chunkShape V s chunk b t ->
  probeWork t = if b then chunkProbeWork V chunk else [PIndirect chunk].
Proof.
  intros [v b' loop tail Hv Hloop Htail]. unfold chunkProbeWork. rewrite Hv.
  change (probeWork (EvLoadChunkVicinity chunk :: ?t)) with (probeWork t).
  rewrite probeWork_app, probeWork_loads. cbn [app].
  change (probeWork (EvBakeIndirectLightForLightProbes chunk :: ?t))
    with (PIndirect chunk :: probeWork t).
  rewrite probeWork_app, (probeWork_chartLoop _ _ _ _ _ Hloop). cbn [app].
  destruct b'.
  - destruct Htail as (saves & -> & Hsaves).
    now rewrite probeWork_app, probeWork_probes, (probeWork_saves _ _ _ Hsaves).
  - now subst tail.
Qed.

(** The chunks before the one the run stopped in have all their probe
    work; the chunk it stopped in has at most the indirect light of its
    probes. *)
Lemma probeWork_phase V s l b t :
  phaseShape V s l b t ->
  exists n partial,
    (n <= length l)%nat /\
    probeWork t = flat_map (chunkProbeWork V) (take n l) ++ partial /\
    (b = true -> n = length l /\ partial = []) /\
    interruptedProbeWork l n partial.
Proof.
  induction 1 as [|chunk l t Hchunk|chunk l t b t' Hchunk _ IH].
  - exists 0%nat, []. repeat split; [reflexivity|now left].
  - exists 0%nat, [PIndirect chunk]. split; [cbn; lia|].
    split; [exact (probeWork_chunk _ _ _ _ _ Hchunk)|].
    split; [discriminate|]. right. exists chunk. split; reflexivity.
  - destruct IH as (n & partial & Hn & Hwork & Hcompleted & Hpartial).
    exists (S n), partial. split; [cbn; lia|]. split.
    + rewrite probeWork_app, (probeWork_chunk _ _ _ _ _ Hchunk), Hwork.
      cbn [take flat_map]. now rewrite app_assoc.
    + split.
      * intros Hb. destruct (Hcompleted Hb) as [-> ->]. split; reflexivity.
      * destruct Hpartial as [->|(c & Hc & ->)]; [now left|].
        right. exists c. split; [exact Hc|reflexivity].
Qed.

(** *** Chunks without lightmaps *)

Lemma noLightmapChunk_same w w' chunk :
  sameBakeInputs w w' -> noLightmapChunk w chunk -> noLightmapChunk w' chunk.
Proof.
  intros (_ & _ & Hn & Hv) (v & Hchunk & Hlm & Hrange & Hnames).
  exists v. rewrite Hv, Hn. auto.
Qed.

(** A loop whose body always goes on runs to its end. *)
Lemma foldBreak_total {St A} (P : World -> Prop) (body : St -> A -> M (option St))
  (l : list A) :
  (forall s x w, In x l -> P w -> exists s' w', body s x w = Ok (Some s') w' /\ P w') ->
  forall s w, P w -> exists s' w', foldBreak l s body w = Ok (Some s') w' /\ P w'.
Proof.
  induction l as [|x l IH]; intros Hbody s w HP; cbn [foldBreak].
  - run. eauto.
  - destruct (Hbody s x w (or_introl eq_refl) HP) as (s' & w1 & Hrun & HP1).
    rewrite (bind_Ok _ _ _ _ _ Hrun). apply IH; [|exact HP1].
    intros s0 y w0 Hin. apply Hbody. now right.
Qed.

Lemma loadRequired_total n (l : list Z) :
  Forall (fun i => 0 <= i < n) l ->
  forall (table : list (option Z)) w, exists table' w',
  foldM l table
    (fun table lightmapIndex =>
       let* handle := LoadDirectLight lightmapIndex in
       if bool_decide (0 <= lightmapIndex < n)
       then ret (<[Z.to_nat lightmapIndex := handle]> table)
       else fault) w = Ok table' w'.
Proof.
  induction 1 as [|i l Hi _ IH]; intros table w; cbn [foldM].
  - run. eauto.
  - unfold LoadDirectLight at 1. run.
    rewrite bool_decide_eq_true_2 by exact Hi. run. apply IH.
Qed.

Lemma saveLightProbes_total chunk v data (l : list nat) :
  GetNumGroups (lightProbesCollection_ v)
    <= Z.of_nat (length (names_ (lightProbesCollection_ v))) ->
  forall w, exists w',
  foldM l tt
    (fun _ groupIndex =>
       let* fs := gets fileSystem_ in
       let saved := SaveLightProbesBakedData fs (lightProbesCollection_ v)
                      data (Z.of_nat groupIndex) in
       modify (with_fileSystem saved.2);;;
       emit (EvSaveLightProbesBakedData chunk (Z.of_nat groupIndex) saved.1);;;
       if negb saved.1 then
         let* groupName :=
           (if Z.of_nat groupIndex <? GetNumGroups (lightProbesCollection_ v)
            then at_ (names_ (lightProbesCollection_ v)) groupIndex
            else ret EmptyString) in
         URHO3D_LOGERROR msg_saveProbes [groupName; IntVector3_ToString chunk]
       else ret tt) w = Ok tt w'.
Proof.
  intros Hnames. induction l as [|g l IH]; intros w; cbn [foldM].
  - run. eauto.
  - unfold URHO3D_LOGERROR at 1. cbn zeta. run.
    destruct (SaveLightProbesBakedData (fileSystem_ w) (lightProbesCollection_ v)
                data (Z.of_nat g)) as [[] fs] eqn:Hsave; run; [apply IH|].
    destruct (Z.ltb_spec (Z.of_nat g) (GetNumGroups (lightProbesCollection_ v)))
      as [Hlt|Hge]; run; [|apply IH].
    destruct (lookup_lt_is_Some_2 (names_ (lightProbesCollection_ v)) g) as [name Hname];
      [lia|].
    rewrite Hname. run. apply IH.
Qed.

(** A chunk without lightmaps is processed to its end, whatever the
    token. *)
Lemma bakeIndirectChunk_total tok loc chunk w :
  noLightmapChunk w chunk ->
  exists loc' w', bakeIndirectChunk tok loc chunk w = Ok (Some loc') w'.
Proof.
  intros (v & Hv & Hlm & Hrange & Hnames).
  assert (Hall : Forall (fun i => 0 <= i < numLightmapCharts_ w)
                   (requiredDirectLightmaps v)).
  { apply Forall_forall. intros i Hi. apply Hrange.
    now apply requiredDirectLightmaps_spec. }
  unfold bakeIndirectChunk, LoadChunkVicinity. run. rewrite Hv. run.
  unfold loadRequiredDirectLightmaps. run.
  match goal with |- context [bind (foldM _ ?table _) _ ?w1] =>
    destruct (loadRequired_total _ _ Hall table w1) as (table' & w2 & Hload) end.
  rewrite (bind_Ok _ _ _ _ _ Hload).
  unfold viewDirect. run. unfold indices. rewrite Hlm. cbn [length seq foldBreak]. run.
  unfold bakeDirectLightProbes, saveLightProbes, forEach.
  match goal with |- context [bind (foldM (bakedLights_ v) ?d _) _ ?w3] =>
    destruct (bakeDirectLightProbes_from chunk v (bakedLights_ v) d w3)
      as [data' Hprobes] end.
  rewrite (bind_Ok _ _ _ _ _ Hprobes).
  match goal with |- context [bind (foldM _ tt _) _ ?w4] =>
    destruct (saveLightProbes_total chunk v data' (upto (numUniqueLightProbes_ v))
                Hnames w4) as [w5 Hsave] end.
  rewrite (bind_Ok _ _ _ _ _ Hsave). run. eauto.
Qed.

Lemma BakeDirectCharts_total tok w :
  Forall (noLightmapChunk w) (chunks_ w) ->
  exists w', BakeDirectCharts tok w = Ok true w'.
Proof.
  intros Hall. unfold BakeDirectCharts. run.
  destruct (foldBreak_total (sameBakeInputs w) (bakeDirectChunk tok) (chunks_ w))
    with (s := tt) (w := w) as ([] & w1 & Hrun & _).
  - intros [] chunk w0 Hin Hsame.
    rewrite Forall_forall in Hall. apply list_elem_of_In, Hall in Hin.
    destruct (noLightmapChunk_same _ _ _ Hsame Hin) as (v & Hv & Hlm & _).
    unfold bakeDirectChunk, LoadChunkVicinity. run. rewrite Hv. run.
    unfold indices. rewrite Hlm. cbn [length seq foldBreak]. run.
    eexists _, _. split; [reflexivity|].
    destruct Hsame as (Hs & Hc & Hn & Hvs). now repeat split.
  - apply sameBakeInputs_refl.
  - rewrite (bind_Ok _ _ _ _ _ Hrun). run.
    rewrite bool_decide_eq_true_2 by reflexivity. eauto.
Qed.

Lemma BakeIndirectAndFilter_total tok w :
  Forall (noLightmapChunk w) (chunks_ w) ->
  exists w', BakeIndirectAndFilter tok w = Ok true w'.
Proof.
  intros Hall. unfold BakeIndirectAndFilter. run.
  match goal with |- context [foldBreak _ ?loc _] =>
    destruct (foldBreak_total (sameBakeInputs w) (bakeIndirectChunk tok) (chunks_ w))
      with (s := loc) (w := w) as (loc' & w1 & Hrun & _) end.
  - intros loc chunk w0 Hin Hsame.
    rewrite Forall_forall in Hall. apply list_elem_of_In, Hall in Hin.
    destruct (bakeIndirectChunk_total tok loc chunk w0
                (noLightmapChunk_same _ _ _ Hsame Hin)) as (loc' & w1 & Hrun).
    exists loc', w1. split; [exact Hrun|].
    apply bakeIndirectChunk_inv in Hrun as [Hsame' _].
    eapply sameBakeInputs_trans; eassumption.
  - apply sameBakeInputs_refl.
  - rewrite (bind_Ok _ _ _ _ _ Hrun). run. eauto.
Qed.

Lemma Bake_total tok w :
  Forall (noLightmapChunk w) (chunks_ w) ->
  exists w', Bake tok w = Ok true w'.
Proof.
  intros Hall. unfold Bake.
  destruct (BakeDirectCharts_total tok w Hall) as [w1 Hdirect].
  rewrite (bind_Ok _ _ _ _ _ Hdirect). cbn [negb].
  assert (Hall1 : Forall (noLightmapChunk w1) (chunks_ w1)).
  { apply BakeDirectCharts_shape in Hdirect as [Hsame _].
    destruct Hsame as (Hs & Hc & Hn & Hvs). rewrite Hc.
    eapply Forall_impl; [exact Hall|]. intros chunk.
    apply noLightmapChunk_same. now repeat split. }
  destruct (BakeIndirectAndFilter_total tok w1 Hall1) as [w2 Hindirect].
  rewrite (bind_Ok _ _ _ _ _ Hindirect). cbn [negb]. run. eauto.
Qed.

(** The token is not polled for a chunk without lightmaps. *)
Lemma pollAnswers_loads (l : list Z) : pollAnswers (map EvLoadDirectLight l) = [].
Proof. induction l as [|i l IH]; [reflexivity|exact IH]. Qed.

Lemma pollAnswers_probes chunk (lights : list BakedLight) :
  pollAnswers (map (EvBakeDirectLightForLightProbes chunk) lights) = [].
Proof. induction lights as [|light lights IH]; [reflexivity|exact IH]. Qed.

Lemma pollAnswers_saves chunk l t : saveShape chunk l t -> pollAnswers t = [].
Proof. induction 1; [reflexivity|assumption|assumption]. Qed.

Lemma pollAnswers_chunk_none w s chunk b t :
  noLightmapChunk w chunk ->
  chunkShape (chunkVicinities (cache_ w)) s chunk b t ->
  b = true /\ pollAnswers t = [].
Proof.
  intros (v & Hv & Hlm & _) [v' b' loop tail Hv' Hloop Htail].
  rewrite Hv in Hv'. injection Hv' as <-.
  unfold indices in Hloop. rewrite Hlm in Hloop. cbn [length seq] in Hloop.
  inversion Hloop; subst. split; [reflexivity|].
  destruct Htail as (saves & -> & Hsaves).
  change (pollAnswers (EvLoadChunkVicinity chunk :: ?t)) with (pollAnswers t).
  rewrite pollAnswers_app, pollAnswers_loads. cbn [app].
  change (pollAnswers (EvBakeIndirectLightForLightProbes chunk :: ?t))
    with (pollAnswers t).
  cbn [app]. rewrite pollAnswers_app, pollAnswers_probes.
  exact (pollAnswers_saves _ _ _ Hsaves).
Qed.

Lemma pollAnswers_phase_none w s l b t :
  Forall (noLightmapChunk w) l ->
  phaseShape (chunkVicinities (cache_ w)) s l b t ->
  b = true /\ pollAnswers t = [].
Proof.
  intros Hall Hshape.
  induction Hshape as [|chunk l t Hchunk|chunk l t b t' Hchunk _ IH].
  - split; reflexivity.
  - apply Forall_cons_iff in Hall as [Hnone _].
    destruct (pollAnswers_chunk_none _ _ _ _ _ Hnone Hchunk) as [Hb _]. discriminate.
  - apply Forall_cons_iff in Hall as [Hnone Hall].
    destruct (pollAnswers_chunk_none _ _ _ _ _ Hnone Hchunk) as [_ Ht].
    destruct (IH Hall) as [-> Ht']. split; [reflexivity|].
    now rewrite pollAnswers_app, Ht, Ht'.
Qed.

Lemma pollAnswers_directPhase_none w s l b t :
  Forall (noLightmapChunk w) l ->
  directPhaseShape (chunkVicinities (cache_ w)) s l b t ->
  b = true /\ pollAnswers t = [].
Proof.
  intros Hall Hshape.
  induction Hshape as [|chunk l v t Hv Hloop|chunk l v t b t' Hv Hloop _ IH].
  - split; reflexivity.
  - apply Forall_cons_iff in Hall as [(v' & Hv' & Hlm & _) _].
    rewrite Hv in Hv'. injection Hv' as <-.
    unfold indices in Hloop. rewrite Hlm in Hloop. inversion Hloop.
  - apply Forall_cons_iff in Hall as [(v' & Hv' & Hlm & _) Hall].
    rewrite Hv in Hv'. injection Hv' as <-.
    unfold indices in Hloop. rewrite Hlm in Hloop. cbn [length seq] in Hloop.
    inversion Hloop; subst. destruct (IH Hall) as [-> Ht']. split; [reflexivity|].
    exact Ht'.
Qed.

(** C9: in a run of [Bake] that returns, the calls satisfy the monitor of
    the polls: every poll of the stop token answered [false] is followed at
    once by the work of one lightmap (the store of its direct buffer in
    [BakeDirectCharts]; the load of its direct buffer and the store of its
    final lightmap in [BakeIndirectAndFilter]), no lightmap is stored
    without such a poll, and a poll answered [true] is the last call, after
    which [Bake] returns [false].  The probe work is never cut short: the
    calls that bake and save probes are all those of the first [n] chunks,
    in order (indirect light, direct light of every light, save of every
    group), followed at most by the indirect light of the probes of the
    chunk the run stopped in, which is baked before the loop over the
    lightmaps of that chunk; when [Bake] returns [true], [n] is the number
    of chunks.  And when no chunk of the list owns a lightmap (the empty
    list included; the vicinities are in the cache and well formed), [Bake]
    returns [true] whatever the token answers, without polling it, after
    all the probe work of every chunk. *)
Theorem Bake_polls_only_before_lightmaps (tok : StopToken) (w : World) :
  (forall b w' t,
     Bake tok w = Ok b w' -> trace_ w' = trace_ w ++ t ->
     pollRun Idle t = Some (if b then Idle else Stopped) /\
     exists n partial,
       (n <= length (chunks_ w))%nat /\
       probeWork t =
         flat_map (chunkProbeWork (chunkVicinities (cache_ w))) (take n (chunks_ w))
         ++ partial /\
       (b = true -> n = length (chunks_ w) /\ partial = []) /\
       interruptedProbeWork (chunks_ w) n partial) /\
  (Forall (noLightmapChunk w) (chunks_ w) ->
   exists w' t,
     Bake tok w = Ok true w' /\ trace_ w' = trace_ w ++ t /\
     pollAnswers t = [] /\
     probeWork t = flat_map (chunkProbeWork (chunkVicinities (cache_ w))) (chunks_ w)).
Proof.
  assert (Hreturned : forall b w' t,
     Bake tok w = Ok b w' -> trace_ w' = trace_ w ++ t ->
     pollRun Idle t = Some (if b then Idle else Stopped) /\
     exists n partial,
       (n <= length (chunks_ w))%nat /\
       probeWork t =
         flat_map (chunkProbeWork (chunkVicinities (cache_ w))) (take n (chunks_ w))
         ++ partial /\
       (b = true -> n = length (chunks_ w) /\ partial = []) /\
       interruptedProbeWork (chunks_ w) n partial).
  { intros b w' t Hrun Ht.
    apply Bake_shape in Hrun as (direct & t1 & t2 & Ht12 & Hdirect & Hindirect).
    rewrite Ht12 in Ht. apply app_inv_head in Ht. subst t.
    pose proof (pollRun_directPhase _ _ _ _ _ Hdirect) as Hpoll1.
    pose proof (probeWork_directPhase _ _ _ _ _ Hdirect) as Hwork1.
    destruct direct.
    - split.
      + rewrite (pollRun_app _ _ _ _ Hpoll1). exact (pollRun_phase _ _ _ _ _ Hindirect).
      + rewrite probeWork_app, Hwork1. cbn [app].
        exact (probeWork_phase _ _ _ _ _ Hindirect).
    - destruct Hindirect as [-> ->]. rewrite app_nil_r. split; [exact Hpoll1|].
      exists 0%nat, []. split; [lia|]. split; [now rewrite Hwork1|].
      split; [discriminate|now left]. }
  split; [exact Hreturned|].
  intros Hall. destruct (Bake_total tok w Hall) as [w' Hrun].
  pose proof Hrun as Hshape.
  apply Bake_shape in Hshape as (direct & t1 & t2 & Ht12 & Hdirect & Hindirect).
  exists w', (t1 ++ t2). split; [exact Hrun|]. split; [exact Ht12|].
  destruct (pollAnswers_directPhase_none _ _ _ _ _ Hall Hdirect) as [-> Hp1].
  destruct (pollAnswers_phase_none _ _ _ _ _ Hall Hindirect) as [_ Hp2].
  split; [now rewrite pollAnswers_app, Hp1, Hp2|].
  destruct (Hreturned true w' (t1 ++ t2) Hrun Ht12)
    as (_ & n & partial & _ & Hwork & Hcompleted & _).
  destruct (Hcompleted eq_refl) as [-> ->].
  now rewrite Hwork, firstn_all, app_nil_r.
Qed.

End CancellationFacts.

(** ** The properties on the small scene *)

Section Examples.
Import Example.
#[local] Existing Instance types.
#[local] Existing Instance engine.

Lemma example_vicinitiesReady : vicinitiesReady scene.
Proof.
  apply List.Forall_cons; [|apply List.Forall_cons; [|apply List.Forall_nil]].
  - exists vicinityA. split; [vm_compute; reflexivity|cbn; lia].
  - exists vicinityB. split; [vm_compute; reflexivity|cbn; lia].
Defined.

Lemma example_chartsStartAtBase : chartsStartAtBase.
Proof.
  intros geometries s base. cbn [GenerateLightmapCharts engine index_ types].
  now rewrite map_id, length_map, length_seq.
Defined.

Lemma example_drop_calls (w w' : World) (t : list Event) :
  trace_ w' = trace_ w ++ t -> t = drop (length (trace_ w)) (trace_ w').
Proof. intros ->. now rewrite drop_app_length. Defined.

(** C2 on the scene: the token answers [true] at the second poll, so one
    direct buffer is stored, that of lightmap 0. *)
Lemma BakeDirectCharts_cancelled_witness :
  vicinitiesReady scene /\
  (1 < length (allDirectJobs scene))%nat /\
  (forall n, (n < 1)%nat -> stopAt 1 (polls_ scene + n)%nat = false) /\
  stopAt 1 (polls_ scene + 1)%nat = true /\
  exists w' t,
    BakeDirectCharts (stopAt 1) scene = Ok false w' /\
    Bake (stopAt 1) scene = Ok false w' /\
    trace_ w' = trace_ scene ++ t /\
    storedDirectLights t = [(0, [texel])] /\
    directLights (cache_ w') = <[0 := [texel]]> ∅ /\
    lightmaps (cache_ w') = ∅ /\
    pollAnswers t = [false; true] /\
    Forall isDirectPhaseEvent t.
Proof.
  assert (HK : (1 < length (allDirectJobs scene))%nat) by (vm_compute; lia).
  assert (Hfalse : forall n, (n < 1)%nat -> stopAt 1 (polls_ scene + n)%nat = false)
    by (intros [|n] Hn; [reflexivity|lia]).
  assert (Htrue : stopAt 1 (polls_ scene + 1)%nat = true) by reflexivity.
  split; [exact example_vicinitiesReady|]. split; [exact HK|].
  split; [exact Hfalse|]. split; [exact Htrue|].
  destruct (BakeDirectCharts_cancelled (stopAt 1) scene 1
              example_vicinitiesReady HK Hfalse Htrue)
    as (w' & t & Hdirect & Hbake & Ht & Hstored & Hcache & Hlightmaps & Hpolls & Hcalls).
  exists w', t. split; [exact Hdirect|]. split; [exact Hbake|]. split; [exact Ht|].
  split; [exact Hstored|]. split; [exact Hcache|]. split; [exact Hlightmaps|].
  split; [exact Hpolls|exact Hcalls].
Defined.


(** C4 on the scene: chunk A has two geometries and chunk B one; the
    charts are 0, 1 and 2 and the scene gets three lightmaps. *)
Lemma GenerateChartsAndUpdateScene_indices_witness :
  chartsStartAtBase /\
  exists w' t,
    GenerateChartsAndUpdateScene scene = Ok tt w' /\
    trace_ w' = trace_ scene ++ t /\
    chartRuns t = [[0; 1]; [2]] /\
    map index_ (appliedCharts t) = [0; 1; 2] /\
    NoDup (map index_ (appliedCharts t)) /\
    numLightmapCharts_ w' = 3 /\
    sceneLightmaps_ w' = ["out/lightmap-0.png"; "out/lightmap-1.png"; "out/lightmap-2.png"].
Proof.
  split; [exact example_chartsStartAtBase|].
  destruct (GenerateChartsAndUpdateScene_indices scene)
    as (w' & t & Hrun & Ht & _ & _ & Hindices).
  assert (Hw : w' = finalWorld (GenerateChartsAndUpdateScene scene))
    by (now rewrite Hrun).
  assert (Hcalls : t = callsOf scene (GenerateChartsAndUpdateScene scene))
    by (unfold callsOf; rewrite <- Hw; exact (example_drop_calls _ _ _ Ht)).
  assert (Hlen : Z.of_nat (length (appliedCharts t)) < 2 ^ 32)
    by (rewrite Hcalls; vm_compute; reflexivity).
  destruct (Hindices example_chartsStartAtBase Hlen) as (Hidx & Hnodup & Hn & Hl).
  exists w', t. split; [exact Hrun|]. split; [exact Ht|].
  split; [rewrite Hcalls; vm_compute; reflexivity|].
  split; [rewrite Hidx, Hcalls; vm_compute; reflexivity|].
  split; [exact Hnodup|].
  split; [rewrite Hn, Hcalls; vm_compute; reflexivity|].
  rewrite Hl, Hcalls. vm_compute. reflexivity.
Defined.

(** C5 on chunk A of the scene after its direct phase: the chunk owns
    lightmap 0, the geometries of its ray tracing scene refer to lightmaps
    0 and 1 and one has no lightmap; the buffers of lightmaps 0 and 1 are
    loaded, and that of lightmap 0 once more. *)
Lemma bakeIndirectChunk_loads_witness :
  bakeIndirectChunk never locals chunkA directDone =
    Ok (Some locals) (finalWorld (bakeIndirectChunk never locals chunkA directDone)) /\
  trace_ (finalWorld (bakeIndirectChunk never locals chunkA directDone)) =
    trace_ directDone ++ callsOf directDone (bakeIndirectChunk never locals chunkA directDone) /\
  chunkVicinities (cache_ directDone) !! chunkA = Some vicinityA /\
  lightmaps_ vicinityA = [0] /\
  map lightmapIndex_ (GetGeometries (raytracerScene_ vicinityA)) = [0; 1; M_MAX_UNSIGNED] /\
  loadedDirectLights (callsOf directDone (bakeIndirectChunk never locals chunkA directDone))
    = [0; 1; 0] /\
  list_to_set
    (loadedDirectLights (callsOf directDone (bakeIndirectChunk never locals chunkA directDone)))
    =@{gset Z} collectRequiredDirectLightmaps vicinityA.
Proof.
  assert (Hrun : bakeIndirectChunk never locals chunkA directDone =
            Ok (Some locals) (finalWorld (bakeIndirectChunk never locals chunkA directDone)))
    by (vm_compute; reflexivity).
  assert (Ht : trace_ (finalWorld (bakeIndirectChunk never locals chunkA directDone)) =
            trace_ directDone
            ++ callsOf directDone (bakeIndirectChunk never locals chunkA directDone))
    by (vm_compute; reflexivity).
  assert (Hv : chunkVicinities (cache_ directDone) !! chunkA = Some vicinityA)
    by (vm_compute; reflexivity).
  assert (Hown : forall i, i ∈ lightmaps_ vicinityA ->
            i ≠ M_MAX_UNSIGNED /\
            exists g, In g (GetGeometries (raytracerScene_ vicinityA)) /\
                      lightmapIndex_ g = i).
  { intros i Hi. apply list_elem_of_singleton in Hi. subst i.
    split; [discriminate|]. exists 0. split; [left|]; reflexivity. }
  split; [exact Hrun|]. split; [exact Ht|]. split; [exact Hv|].
  split; [reflexivity|]. split; [reflexivity|]. split; [vm_compute; reflexivity|].
  exact (proj1 (proj2 (bakeIndirectChunk_loads never locals chunkA vicinityA directDone
                         _ _ _ Hrun Ht Hv Hown))).
Defined.

(** C6 on a scene that was never saved and has no output directory, and on
    the scene. *)
Lemma Initialize_failures_witness :
  initFailure unsavedScene = Some UndeterminableOutput /\
  initFailure scene = None /\
  globalIllumination_ scene <> None /\
  (exists w' t format args,
     Initialize unsavedScene = Ok false w' /\
     trace_ w' = trace_ unsavedScene ++ t /\ errors t = [(format, args)] /\
     failureOfMessage format = Some UndeterminableOutput) /\
  (exists w' t,
     Initialize scene = Ok true w' /\ trace_ w' = trace_ scene ++ t /\ errors t = []).
Proof.
  assert (Hunsaved : initFailure unsavedScene = Some UndeterminableOutput)
    by (vm_compute; reflexivity).
  assert (Hscene : initFailure scene = None) by (vm_compute; reflexivity).
  assert (Hgi : globalIllumination_ scene <> None) by discriminate.
  split; [exact Hunsaved|]. split; [exact Hscene|]. split; [exact Hgi|]. split.
  - pose proof (Initialize_failures unsavedScene) as Hinit.
    rewrite Hunsaved in Hinit. exact Hinit.
  - pose proof (Initialize_failures scene) as Hinit.
    rewrite Hscene in Hinit. exact (Hinit Hgi).
Defined.


(** C9 on the scene, stopped at the fourth poll (in the indirect phase, at
    the lightmap of chunk B), and on a scene whose only chunk has probes
    and no lightmap, with a token that is stopped from the start. *)
Lemma Bake_polls_only_before_lightmaps_witness :
  (Bake (stopAt 3) scene = Ok false (finalWorld (Bake (stopAt 3) scene)) /\
   pollRun Idle (callsOf scene (Bake (stopAt 3) scene)) = Some Stopped /\
   exists n partial,
     (n <= length (chunks_ scene))%nat /\
     probeWork (callsOf scene (Bake (stopAt 3) scene)) =
       flat_map (chunkProbeWork (chunkVicinities (cache_ scene)))
         (take n (chunks_ scene)) ++ partial /\
     (false = true -> n = length (chunks_ scene) /\ partial = []) /\
     interruptedProbeWork (chunks_ scene) n partial) /\
  (Forall (noLightmapChunk sceneP) (chunks_ sceneP) /\
   exists w' t,
     Bake always sceneP = Ok true w' /\ trace_ w' = trace_ sceneP ++ t /\
     pollAnswers t = [] /\
     probeWork t =
       flat_map (chunkProbeWork (chunkVicinities (cache_ sceneP))) (chunks_ sceneP)).
Proof.
  split.
  - assert (Hrun : Bake (stopAt 3) scene = Ok false (finalWorld (Bake (stopAt 3) scene)))
      by (vm_compute; reflexivity).
    assert (Ht : trace_ (finalWorld (Bake (stopAt 3) scene)) =
                 trace_ scene ++ callsOf scene (Bake (stopAt 3) scene))
      by (vm_compute; reflexivity).
    split; [exact Hrun|].
    exact (proj1 (Bake_polls_only_before_lightmaps (stopAt 3) scene) false _ _ Hrun Ht).
  - assert (Hall : Forall (noLightmapChunk sceneP) (chunks_ sceneP)).
    { apply List.Forall_cons; [|apply List.Forall_nil].
      exists vicinityP. split; [vm_compute; reflexivity|]. split; [reflexivity|].
      split; [|cbn; lia].
      intros i Hi. apply collectRequired_spec in Hi as (_ & g & [] & _). }
    split; [exact Hall|].
    exact (proj2 (Bake_polls_only_before_lightmaps always sceneP) Hall).
Defined.

(** C10 on a scene whose lightmaps are too large for an image. *)
Lemma CommitScene_image_not_allocated_witness :
  (SetSize NewImage (lightmapSize_ (settings_ hugeScene))
     (lightmapSize_ (settings_ hugeScene)) 4).1 = false /\
  exists w',
    StitchAndSaveImages hugeScene = Ok tt w' /\ CommitScene hugeScene = Ok tt w' /\
    trace_ w' = trace_ hugeScene
                ++ [EvInitializeStitchingContext (lightmapSize_ (settings_ hugeScene));
                    Log LOG_ERROR msg_image []] /\
    cache_ w' = cache_ hugeScene /\ fileSystem_ w' = fileSystem_ hugeScene /\
    (forall t, trace_ w' = trace_ hugeScene ++ t ->
       errors t = [(msg_image, [])] /\ loadedLightmaps t = [] /\ savedImages t = [] /\
       forall chunk, ~ In (EvLoadChunkVicinity chunk) t).
Proof.
  assert (Hfail : (SetSize NewImage (lightmapSize_ (settings_ hugeScene))
                     (lightmapSize_ (settings_ hugeScene)) 4).1 = false)
    by reflexivity.
  split; [exact Hfail|].
  exact (CommitScene_image_not_allocated hugeScene Hfail).
Defined.

End Examples.

(** * Further properties *)

(** ** Resource names and file names *)

Section NameFacts.
Context `{Collaborators}.

Lemma substring_all (s : string) : String.substring 0 (String.length s) s = s.
Proof. induction s as [|c s IH]; [reflexivity|]. cbn. now rewrite IH. Qed.

Lemma append_String c (a b : string) : String c a +:+ b = String c (a +:+ b).
Proof. reflexivity. Qed.

Lemma append_empty (b : string) : EmptyString +:+ b = b.
Proof. reflexivity. Qed.

Lemma length_append (a b : string) :
  String.length (a +:+ b) = (String.length a + String.length b)%nat.
Proof.
  induction a as [|c a IH]; [reflexivity|].
  rewrite append_String. cbn [String.length]. now rewrite IH.
Qed.

Lemma prefix_substring (dir : string) :
  forall fileName,
  String.prefix dir fileName = true ->
  dir +:+ String.substring (String.length dir)
            (String.length fileName - String.length dir) fileName = fileName.
Proof.
  induction dir as [|c dir IH]; intros fileName Hprefix.
  - rewrite append_empty. cbn [String.length]. rewrite Nat.sub_0_r.
    apply substring_all.
  - destruct fileName as [|c' fileName]; [discriminate|].
    cbn [String.prefix] in Hprefix.
    destruct (Ascii.ascii_dec c c') as [->|]; [|discriminate].
    rewrite append_String. cbn [String.length String.substring Nat.sub]. f_equal.
    now apply IH.
Qed.

(** X1: [GetResourceName] answers with what follows the first resource
    directory that is a prefix of the file name, so that directory followed
    by the answer is the file name again; it answers with the empty name
    when no resource directory is a prefix of the file name, and also when
    the file name is that first directory itself.  A non-empty answer
    always completes some resource directory to the file name. *)
Theorem GetResourceName_round_trip (resourceDirs : list string) (fileName : string) :
  (forall before dir after,
     resourceDirs = before ++ dir :: after ->
     Forall (fun d => String.prefix d fileName = false) before ->
     String.prefix dir fileName = true ->
     dir +:+ GetResourceName resourceDirs fileName = fileName /\
     (dir = fileName -> GetResourceName resourceDirs fileName = EmptyString)) /\
  (Forall (fun d => String.prefix d fileName = false) resourceDirs ->
   GetResourceName resourceDirs fileName = EmptyString) /\
  (GetResourceName resourceDirs fileName <> EmptyString ->
   exists dir, In dir resourceDirs /\
               dir +:+ GetResourceName resourceDirs fileName = fileName).
Proof.
  split; [|split].
  - intros before dir after -> Hbefore Hdir.
    assert (Hname : GetResourceName (before ++ dir :: after) fileName =
                    String.substring (String.length dir)
                      (String.length fileName - String.length dir) fileName).
    { induction Hbefore as [|d before Hd _ IH]; cbn [app GetResourceName].
      - now rewrite Hdir.
      - now rewrite Hd. }
    rewrite Hname. split; [now apply prefix_substring|].
    intros ->. rewrite Nat.sub_diag.
    pose proof (prefix_substring fileName fileName Hdir) as Hself.
    rewrite Nat.sub_diag in Hself.
    destruct (String.substring (String.length fileName) 0 fileName) as [|c rest] eqn:Hsub;
      [reflexivity|].
    apply (f_equal String.length) in Hself.
    rewrite length_append in Hself. cbn [String.length] in Hself. lia.
  - induction 1 as [|d dirs Hd _ IH]; cbn [GetResourceName]; [reflexivity|].
    now rewrite Hd.
  - induction resourceDirs as [|d dirs IH]; cbn [GetResourceName]; [congruence|].
    destruct (String.prefix d fileName) eqn:Hd.
    + intros _. exists d. split; [now left|]. now apply prefix_substring.
    + intros Hne. destruct (IH Hne) as (dir & Hin & Hdir). exists dir.
      split; [now right|exact Hdir].
Qed.

Lemma string_app_inv_tail (a : string) :
  forall b s, a +:+ s = b +:+ s -> a = b.
Proof.
  induction a as [|c a IH]; intros b s Heq.
  - destruct b as [|c' b]; [reflexivity|].
    apply (f_equal String.length) in Heq. rewrite append_empty, append_String in Heq.
    cbn [String.length] in Heq. rewrite length_append in Heq. lia.
  - destruct b as [|c' b].
    + apply (f_equal String.length) in Heq. rewrite append_empty, append_String in Heq.
      cbn [String.length] in Heq. rewrite length_append in Heq. lia.
    + rewrite !append_String in Heq. injection Heq as -> Heq. f_equal.
      eapply IH, Heq.
Qed.

(** X2: two different lightmap indices never get the same lightmap file
    name, whatever the output directory, the prefix and the suffix are: the
    image of one lightmap is not written over the image of another. *)
Theorem GetLightmapFileName_distinct (s : Settings) (lightmapIndex lightmapIndex' : Z) :
  lightmapIndex <> lightmapIndex' ->
  GetLightmapFileName s lightmapIndex <> GetLightmapFileName s lightmapIndex'.
Proof.
  intros Hne Heq. apply Hne. unfold GetLightmapFileName, to_string in Heq.
  do 2 apply String.app_inj in Heq.
  apply string_app_inv_tail in Heq. now apply pretty_Z_inj in Heq.
Qed.

End NameFacts.

(** ** The key of the locality sort *)

Module KeyFacts.
Import Locality LocalityFacts.

(** X3: the origin of the keys, [baseChunkIndex], is the component-wise
    minimum of the chunk list: no coordinate of a chunk lies below it, so
    the coordinates [Swizzle] converts to [unsigned] are not negative, and
    each of its coordinates is the coordinate of some chunk of the list.
    The empty list has no origin and is left as it is. *)
Theorem baseChunkIndex_is_minimum (chunks : list IntVector3) :
  match baseChunkIndex chunks with
  | Some base =>
      Forall (fun c => 0 <= x_ c - x_ base /\ 0 <= y_ c - y_ base
                       /\ 0 <= z_ c - z_ base) chunks /\
      (exists c, In c chunks /\ x_ c = x_ base) /\
      (exists c, In c chunks /\ y_ c = y_ base) /\
      (exists c, In c chunks /\ z_ c = z_ base)
  | None => chunks = [] /\ sortChunks chunks = []
  end.
Proof.
  destruct chunks as [|front chunks]; cbn [baseChunkIndex]; [split; reflexivity|].
  destruct (fold_MinIntVector3_le (front :: chunks) front) as [_ Hle]. cbn zeta in Hle.
  split.
  - eapply Forall_impl; [exact Hle|]. cbn beta. intros c Hc. lia.
  - assert (Hin : forall c, In c (front :: front :: chunks) -> In c (front :: chunks)).
    { intros c [<-|Hc]; [now left|exact Hc]. }
    split; [|split].
    + destruct (fold_MinIntVector3_attained x_ (front :: chunks)
                  ltac:(reflexivity) front) as (c & Hc & Heq). eauto.
    + destruct (fold_MinIntVector3_attained y_ (front :: chunks)
                  ltac:(reflexivity) front) as (c & Hc & Heq). eauto.
    + destruct (fold_MinIntVector3_attained z_ (front :: chunks)
                  ltac:(reflexivity) front) as (c & Hc & Heq). eauto.
Qed.

(** X4: every bit of the key.  Bit [n] of [Swizzle vec base] is bit
    [n / 3] of the translated coordinate number [n mod 3] for [n] from 0
    to 31, and is clear for every other [n]; so the key is below
    [2 ^ 32], although [Swizzle] returns [unsigned long long]. *)
Theorem Swizzle_bits (vec base : IntVector3) :
  (forall n,
     Z.testbit (Swizzle vec base) n =
     (0 <=? n) && (n <? 32)
     && Z.testbit (nth (Z.to_nat (n mod 3)) (xyz vec base) 0) (n / 3)) /\
  0 <= Swizzle vec base < 2 ^ 32.
Proof.
  assert (Hbits : forall n,
     Z.testbit (Swizzle vec base) n =
     (0 <=? n) && (n <? 32)
     && Z.testbit (nth (Z.to_nat (n mod 3)) (xyz vec base) 0) (n / 3)).
  { intros n. destruct (Z.leb_spec 0 n) as [Hn|Hn]; cbn [andb];
      [|apply Z.testbit_neg_r; lia].
    destruct (Z.ltb_spec n 32) as [Hn32|Hn32]; cbn [andb];
      [|now apply Swizzle_high_bits].
    pose proof (Z.div_mod n 3 ltac:(lia)) as Hdiv.
    pose proof (Z.mod_pos_bound n 3 ltac:(lia)) as Hmod.
    assert (Hquot : 0 <= n / 3) by (apply Z.div_pos; lia).
    pose proof (Swizzle_low_bits vec base (Z.to_nat (n / 3)) (Z.to_nat (n mod 3)))
      as Hlow.
    rewrite !Z2Nat.id in Hlow by lia.
    replace (n / 3 * 3 + n mod 3) with n in Hlow by lia.
    apply Hlow; [lia| |lia].
    change maxBitsPerComponent with 21. lia. }
  split; [exact Hbits|].
  assert (Hnonneg : 0 <= Swizzle vec base).
  { apply Z.bits_iff_nonneg_ex. exists 32. intros m Hm. rewrite Hbits.
    destruct (Z.ltb_spec m 32); [lia|]. now rewrite andb_false_r. }
  split; [exact Hnonneg|].
  destruct (Z.lt_ge_cases (Swizzle vec base) (2 ^ 32)) as [Hlt|Hge]; [exact Hlt|].
  exfalso.
  assert (Hpos : 0 < Swizzle vec base) by lia.
  pose proof (Z.bit_log2 (Swizzle vec base) Hpos) as Hbit.
  rewrite Hbits in Hbit.
  assert (32 <= Z.log2 (Swizzle vec base)) by (apply Z.log2_le_pow2; lia).
  destruct (Z.ltb_spec (Z.log2 (Swizzle vec base)) 32); [lia|].
  now rewrite andb_false_r in Hbit.
Qed.

(** X5: chunks that lie within reach of the key (less than 2048 chunks
    from the origin along x and y, less than 1024 along z) and differ have
    different keys, and the comparator of the sort puts exactly one of
    them before the other. *)
Theorem Swizzle_distinct_in_range (base a b : IntVector3) :
  inKeyRange base a -> inKeyRange base b -> a <> b ->
  Swizzle a base <> Swizzle b base /\
  compareSwizzled base a b = negb (compareSwizzled base b a).
Proof.
  intros (Hax & Hay & Haz) (Hbx & Hby & Hbz) Hne.
  assert (Hkeys : Swizzle a base <> Swizzle b base).
  { intros Hkey. apply Hne.
    pose proof (coordinate_determined a b base 0 11 ltac:(lia) ltac:(lia) ltac:(lia))
      as Hx.
    pose proof (coordinate_determined a b base 1 11 ltac:(lia) ltac:(lia) ltac:(lia))
      as Hy.
    pose proof (coordinate_determined a b base 2 10 ltac:(lia) ltac:(lia) ltac:(lia))
      as Hz.
    unfold xyz in Hx, Hy, Hz. cbn [nth] in Hx, Hy, Hz.
    rewrite !wrap32_small in Hx, Hy, Hz by lia.
    specialize (Hx ltac:(lia) ltac:(lia) Hkey).
    specialize (Hy ltac:(lia) ltac:(lia) Hkey).
    specialize (Hz ltac:(lia) ltac:(lia) Hkey).
    destruct a as [ax ay az], b as [bx by' bz]. cbn [x_ y_ z_] in *. f_equal; lia. }
  split; [exact Hkeys|]. unfold compareSwizzled.
  destruct (Z.ltb_spec (Swizzle a base) (Swizzle b base));
    destruct (Z.ltb_spec (Swizzle b base) (Swizzle a base)); cbn [negb];
    first [reflexivity | lia].
Qed.

End KeyFacts.

(** ** What a run leaves unchanged *)

Section FrameFacts.
Context `{Collaborators}.

Lemma sameScene_refl w : sameScene w w.
Proof. repeat split. Qed.

Lemma sameScene_trans w1 w2 w3 : sameScene w1 w2 -> sameScene w2 w3 -> sameScene w1 w3.
Proof. unfold sameScene. intuition congruence. Qed.

Lemma generateChartsForChunk_sameScene (u : unit) chunk w u' w' :
  generateChartsForChunk chunk w = Ok u' w' -> sameScene w w'.
Proof.
  intros Hrun. unfold generateChartsForChunk in Hrun. run_in Hrun.
  apply bind_Ok_inv in Hrun as ([] & w1 & Hassign & Hrun).
  run_in Hrun. injection Hrun as _ <-.
  unfold assignBakedDataFiles, forEach in Hassign.
  apply (foldM_rel sameScene) in Hassign;
    [|apply sameScene_refl|apply sameScene_trans|].
  - destruct Hassign as (Hc & Hs & Hcache). world_simpl. now repeat split.
  - clear. intros [] i w0 [] w0' Hbody. unfold fs_CreateDirsRecursive in Hbody.
    run_in Hbody. destruct (_ !! i); [|discriminate]. run_in Hbody.
    injection Hbody as <-. repeat split.
Qed.

Lemma addLightmapFor_sameScene (u : unit) i w u' w' :
  addLightmapFor i w = Ok u' w' -> sameScene w w'.
Proof.
  intros Hrun. unfold addLightmapFor, AddLightmap, URHO3D_LOGWARNING in Hrun.
  run_in Hrun.
  destruct (is_empty _); run_in Hrun; injection Hrun as _ <-; repeat split.
Qed.

Lemma GenerateChartsAndUpdateScene_sameScene w w' :
  GenerateChartsAndUpdateScene w = Ok tt w' -> sameScene w w'.
Proof.
  intros Hrun. unfold GenerateChartsAndUpdateScene, ResetLightmaps, forEach in Hrun.
  run_in Hrun.
  apply bind_Ok_inv in Hrun as ([] & w1 & Hcharts & Hrun). run_in Hrun.
  apply (foldM_rel sameScene) in Hcharts;
    [|apply sameScene_refl|apply sameScene_trans
     |intros [] chunk w0 [] w0'; apply (generateChartsForChunk_sameScene tt)].
  apply (foldM_rel sameScene) in Hrun;
    [|apply sameScene_refl|apply sameScene_trans
     |intros [] i w0 [] w0'; apply (addLightmapFor_sameScene tt)].
  destruct Hcharts as (Hc1 & Hs1 & Hcache1), Hrun as (Hc2 & Hs2 & Hcache2).
  world_simpl. repeat split; congruence.
Qed.

(** [GenerateChartsAndUpdateScene] always returns. *)
Lemma GenerateChartsAndUpdateScene_total w :
  exists w', GenerateChartsAndUpdateScene w = Ok tt w'.
Proof.
  unfold GenerateChartsAndUpdateScene, ResetLightmaps. run.
  destruct (generateCharts_loop (chunks_ w) (with_numLightmapCharts 0 w))
    as (w1 & t1 & Hrun1 & _); [reflexivity|].
  world_simpl. rewrite (bind_Ok _ _ _ _ _ Hrun1). run.
  destruct (addLightmaps_loop (upto (numLightmapCharts_ w1))
              (with_sceneLightmaps [] w1)) as (w2 & t2 & Hrun2 & _).
  eauto.
Qed.

(** The vicinities of the cache after those of the chunks [l] have been
    stored. *)
Lemma storeVicinities_loop (l : list IntVector3) :
  forall w, exists w',
    forEach l (fun chunk =>
      let* c := gets collector_ in
      let* s := gets settings_ in
      StoreChunkVicinity chunk (CreateBakedChunkVicinity c chunk s)) w = Ok tt w' /\
    chunks_ w' = chunks_ w /\ settings_ w' = settings_ w /\
    collector_ w' = collector_ w /\
    directLights (cache_ w') = directLights (cache_ w) /\
    lightmaps (cache_ w') = lightmaps (cache_ w) /\
    trace_ w' = trace_ w ++ map EvStoreChunkVicinity l /\
    forall chunk,
      chunkVicinities (cache_ w') !! chunk =
      if bool_decide (chunk ∈ l)
      then Some (CreateBakedChunkVicinity (collector_ w) chunk (settings_ w))
      else chunkVicinities (cache_ w) !! chunk.
Proof.
  unfold forEach. induction l as [|x l IH]; intros w; cbn [foldM map].
  - exists w. run. rewrite app_nil_r. repeat split.
  - unfold StoreChunkVicinity at 1. run.
    match goal with |- context [foldM l tt _ ?w1] =>
      destruct (IH w1) as (w' & Hrun & Hc & Hs & Hcol & Hd & Hl & Ht & Hv) end.
    world_simpl. exists w'. split; [exact Hrun|].
    split; [exact Hc|]. split; [exact Hs|]. split; [exact Hcol|].
    split; [exact Hd|]. split; [exact Hl|].
    split; [rewrite Ht, <- app_assoc; reflexivity|].
    intros chunk. rewrite Hv.
    destruct (decide (chunk ∈ l)) as [Hin|Hnotin].
    + rewrite !bool_decide_eq_true_2; [reflexivity|now right|exact Hin].
    + rewrite (bool_decide_eq_false_2 _ Hnotin).
      destruct (decide (chunk = x)) as [->|Hne].
      * rewrite bool_decide_eq_true_2 by now left. apply lookup_insert_eq.
      * rewrite bool_decide_eq_false_2
          by (intros Hin; apply elem_of_cons in Hin as [?|?]; contradiction).
        now apply lookup_insert_ne.
Qed.


End FrameFacts.

(** ** Bake: runs that are not stopped, and what the cache holds *)

Section BakeFacts.
Context `{Collaborators}.

Lemma pollAnswers_directTrace_all jobsOf (chunks : list IntVector3) :
  forall K,
  (length (flat_map jobsOf chunks) <= K)%nat ->
  pollAnswers (directTrace jobsOf chunks K) =
  replicate (length (flat_map jobsOf chunks)) false.
Proof.
  induction chunks as [|chunk chunks IH]; intros K HK; cbn [directTrace flat_map] in *.
  - reflexivity.
  - change (pollAnswers (EvLoadChunkVicinity chunk :: ?t)) with (pollAnswers t).
    rewrite length_app in *.
    destruct (Nat.ltb_spec K (length (jobsOf chunk))) as [HK'|HK']; [lia|].
    rewrite pollAnswers_app, pollAnswers_jobs, IH by lia.
    now rewrite <- replicate_add.
Qed.

Lemma directJobs_indices s (v : BakedChunkVicinity) :
  (length (lightmaps_ v) <= length (geometryBuffers_ v))%nat ->
  map fst (directJobs s v) = lightmaps_ v.
Proof.
  unfold directJobs. generalize (geometryBuffers_ v).
  induction (lightmaps_ v) as [|idx l IH]; intros [|gb gbs] Hlen; cbn in *;
    try reflexivity; try lia.
  f_equal. apply IH. lia.
Qed.

Lemma allDirectJobs_indices w (chunks : list IntVector3) :
  Forall (vicinityReady w) chunks ->
  map fst (flat_map (chunkDirectJobs w) chunks) =
  allLightmaps (chunkVicinities (cache_ w)) chunks.
Proof.
  unfold allLightmaps.
  induction 1 as [|chunk chunks (v & Hv & Hlen) _ IH]; [reflexivity|].
  cbn [flat_map]. rewrite map_app, IH. f_equal.
  unfold chunkDirectJobs, chunkLightmaps. rewrite Hv.
  now apply directJobs_indices.
Qed.

(** X7: every chunk of the list has its vicinity in the cache.  If the stop
    token answers [false] to as many polls as the chunk list has lightmaps,
    [BakeDirectCharts] returns [true]; it has polled the token once per
    lightmap and stored the direct buffer of every lightmap of every chunk,
    in order, and nothing else of the cache has changed. *)
Theorem BakeDirectCharts_completes (tok : StopToken) (w : World) :
  vicinitiesReady w ->
  (forall n, (n < length (allDirectJobs w))%nat -> tok (polls_ w + n)%nat = false) ->
  exists w' t,
    BakeDirectCharts tok w = Ok true w' /\
    trace_ w' = trace_ w ++ t /\
    storedDirectLights t = allDirectJobs w /\
    map fst (allDirectJobs w) = allLightmaps (chunkVicinities (cache_ w)) (chunks_ w) /\
    directLights (cache_ w') = storeAll (allDirectJobs w) (directLights (cache_ w)) /\
    lightmaps (cache_ w') = lightmaps (cache_ w) /\
    chunkVicinities (cache_ w') = chunkVicinities (cache_ w) /\
    pollAnswers t = replicate (length (allDirectJobs w)) false /\
    polls_ w' = (polls_ w + length (allDirectJobs w))%nat.
Proof.
  intros Hready Hfalse.
  pose proof (allDirectJobs_indices w (chunks_ w) Hready) as Hindices.
  unfold allDirectJobs in *.
  assert (Hdirect : BakeDirectCharts tok w =
            Ok true (afterDirect w (flat_map (chunkDirectJobs w) (chunks_ w))
                       (directTrace (chunkDirectJobs w) (chunks_ w)
                          (length (flat_map (chunkDirectJobs w) (chunks_ w))))
                       (length (flat_map (chunkDirectJobs w) (chunks_ w))))).
  { unfold BakeDirectCharts. run. rewrite bind_unfold.
    rewrite (directChunks_run tok (chunks_ w) w
               (length (flat_map (chunkDirectJobs w) (chunks_ w))) Hready);
      [| intros n Hn _; now apply Hfalse | intros Hlt; lia].
    rewrite Nat.ltb_irrefl. run. reflexivity. }
  eexists _, _. split; [exact Hdirect|]. split; [reflexivity|].
  split; [rewrite storedDirectLights_directTrace; apply firstn_all|].
  split; [exact Hindices|].
  split; [reflexivity|]. split; [reflexivity|]. split; [reflexivity|].
  split; [now apply pollAnswers_directTrace_all|reflexivity].
Qed.

(** *** The final lightmaps of the cache *)

Lemma storedLightmaps_app (t1 t2 : list Event) :
  storedLightmaps (t1 ++ t2) = storedLightmaps t1 ++ storedLightmaps t2.
Proof. unfold storedLightmaps. apply omap_app. Qed.

Lemma storeLightmaps_app (s1 s2 : list (Z * BakedLightmap)) m :
  storeLightmaps (s1 ++ s2) m = storeLightmaps s2 (storeLightmaps s1 m).
Proof. unfold storeLightmaps. apply fold_left_app. Qed.

Lemma lightmapsStored_refl w : lightmapsStored w w.
Proof. exists []. now rewrite app_nil_r. Qed.

Lemma lightmapsStored_trans w1 w2 w3 :
  lightmapsStored w1 w2 -> lightmapsStored w2 w3 -> lightmapsStored w1 w3.
Proof.
  intros (t1 & Ht1 & Hm1) (t2 & Ht2 & Hm2). exists (t1 ++ t2).
  split; [now rewrite Ht2, Ht1, app_assoc|].
  now rewrite storedLightmaps_app, storeLightmaps_app, <- Hm1.
Qed.

Lemma lightmapsStored_quiet w w' t :
  trace_ w' = trace_ w ++ t -> storedLightmaps t = [] ->
  lightmaps (cache_ w') = lightmaps (cache_ w) -> lightmapsStored w w'.
Proof. intros Ht Hquiet Hm. exists t. split; [exact Ht|]. now rewrite Hquiet. Qed.

Lemma storedLightmaps_loads (l : list Z) : storedLightmaps (map EvLoadDirectLight l) = [].
Proof. induction l as [|i l IH]; [reflexivity|exact IH]. Qed.

Lemma storedLightmaps_probes chunk (lights : list BakedLight) :
  storedLightmaps (map (EvBakeDirectLightForLightProbes chunk) lights) = [].
Proof. induction lights as [|light lights IH]; [reflexivity|exact IH]. Qed.

Lemma storedLightmaps_saves chunk l t : saveShape chunk l t -> storedLightmaps t = [].
Proof. induction 1; [reflexivity|assumption|assumption]. Qed.

Lemma bakeIndirectChart_lightmapsStored tok v table mesh loc i w r w' :
  bakeIndirectChart tok v table mesh loc i w = Ok r w' -> lightmapsStored w w'.
Proof.
  intros Hrun.
  unfold bakeIndirectChart, IsStopped, LoadDirectLight, viewDirect, readDirect,
    writeDirect, StoreLightmap in Hrun.
  run_in Hrun.
  destruct (tok (polls_ w)); run_in Hrun.
  { injection Hrun as _ <-. now apply (lightmapsStored_quiet _ _ [EvIsStopped true]). }
  destruct (lightmaps_ v !! i) as [lightmapIndex|] eqn:Hidx; [|discriminate].
  run_in Hrun.
  destruct (geometryBuffers_ v !! i) as [geometryBuffer|]; [|discriminate].
  grind Hrun.
  all: injection Hrun as _ <-.
  all: eexists; world_simpl; (split; [rewrite <- !app_assoc; reflexivity|reflexivity]).
Qed.

Lemma bakeIndirectChunk_lightmapsStored tok loc chunk w r w' :
  bakeIndirectChunk tok loc chunk w = Ok r w' -> lightmapsStored w w'.
Proof.
  intros Hrun. unfold bakeIndirectChunk, LoadChunkVicinity in Hrun. run_in Hrun.
  destruct (chunkVicinities (cache_ w) !! chunk) as [v|] eqn:Hv; [|discriminate].
  apply bind_Ok_inv in Hrun as (table & w1 & Hload & Hrun).
  unfold loadRequiredDirectLightmaps in Hload. run_in Hload.
  apply loadRequired_inv in Hload. subst w1.
  unfold viewDirect in Hrun. run_in Hrun.
  apply bind_Ok_inv in Hrun as (r1 & w2 & Hloop & Hrun).
  apply (foldBreak_rel lightmapsStored) in Hloop;
    [|apply lightmapsStored_refl|apply lightmapsStored_trans
     |intros ? ? ? ? ?; apply bakeIndirectChart_lightmapsStored].
  assert (Hstart : lightmapsStored w
            (with_trace
               (((trace_ w ++ [EvLoadChunkVicinity chunk])
                 ++ map EvLoadDirectLight (requiredDirectLightmaps v))
                ++ [EvBakeIndirectLightForLightProbes chunk]) w)).
  { eapply lightmapsStored_quiet; world_simpl;
      [rewrite <- !app_assoc; reflexivity| |reflexivity].
    cbn [app]. change (storedLightmaps (EvLoadChunkVicinity chunk :: ?t))
      with (storedLightmaps t).
    now rewrite storedLightmaps_app, storedLightmaps_loads. }
  world_simpl. apply (lightmapsStored_trans _ _ _ Hstart).
  apply (lightmapsStored_trans _ _ _ Hloop). clear Hstart Hloop.
  destruct r1 as [loc'|].
  - unfold bakeDirectLightProbes, saveLightProbes, forEach in Hrun.
    match type of Hrun with context [foldM (bakedLights_ v) ?d _] =>
      destruct (bakeDirectLightProbes_from chunk v (bakedLights_ v) d w2)
        as [data' Hprobes] end.
    rewrite (bind_Ok _ _ _ _ _ Hprobes) in Hrun.
    apply bind_Ok_inv in Hrun as ([] & w3 & Hsave & Hrun).
    apply saveLightProbes_inv in Hsave as (_ & _ & Hcache & saves & Hsaves & Hsshape).
    run_in Hrun. injection Hrun as _ <-. world_simpl.
    eapply lightmapsStored_quiet;
      [rewrite Hsaves; world_simpl; rewrite <- app_assoc; reflexivity
      | now rewrite storedLightmaps_app, storedLightmaps_probes,
          (storedLightmaps_saves _ _ _ Hsshape)
      | now rewrite Hcache].
  - run_in Hrun. injection Hrun as _ <-. apply lightmapsStored_refl.
Qed.

Lemma BakeIndirectAndFilter_lightmapsStored tok w b w' :
  BakeIndirectAndFilter tok w = Ok b w' -> lightmapsStored w w'.
Proof.
  intros Hrun. unfold BakeIndirectAndFilter in Hrun. run_in Hrun.
  apply bind_Ok_inv in Hrun as (r & w1 & Hloop & Hrun).
  apply (foldBreak_rel lightmapsStored) in Hloop;
    [|apply lightmapsStored_refl|apply lightmapsStored_trans
     |intros ? ? ? ? ?; apply bakeIndirectChunk_lightmapsStored].
  run_in Hrun. now injection Hrun as _ <-.
Qed.

(** The indices of the final lightmaps stored, read off the calls. *)
Lemma storedIndices_chartLoop s v l b t :
  chartLoopShape s v l b t ->
  exists n, (if b then n = length l else (n < length l)%nat) /\
            map fst (storedLightmaps t) = take n (lightmapsAt v l).
Proof.
  induction 1 as [|i l|i l idx direct indirect lm b t Hidx Hfinal _ IH].
  - exists 0%nat. split; reflexivity.
  - exists 0%nat. split; [cbn; lia|reflexivity].
  - destruct IH as (n & Hn & Hstored). exists (S n). cbn [length]. split.
    + destruct b; lia.
    + rewrite (lightmapsAt_cons v i l idx Hidx). cbn [take chartEvents app].
      change (storedLightmaps (EvIsStopped false :: EvLoadDirectLight idx
                               :: EvStoreLightmap idx lm :: t))
        with ((idx, lm) :: storedLightmaps t).
      cbn [map fst]. now rewrite Hstored.
Qed.

Lemma storedIndices_chunk V s chunk b t :
  chunkShape V s chunk b t ->
  exists n, (if b then n = length (chunkLightmaps V chunk)
             else (n < length (chunkLightmaps V chunk))%nat) /\
            map fst (storedLightmaps t) = take n (chunkLightmaps V chunk).
Proof.
  intros [v b' loop tail Hv Hloop Htail]. unfold chunkLightmaps. rewrite Hv.
  apply storedIndices_chartLoop in Hloop as (n & Hn & Hstored).
  unfold indices, lightmapsAt in *. rewrite length_seq in Hn.
  rewrite lookup_all in Hstored. exists n. split; [exact Hn|].
  change (storedLightmaps (EvLoadChunkVicinity chunk :: ?t)) with (storedLightmaps t).
  rewrite storedLightmaps_app, storedLightmaps_loads. cbn [app].
  change (storedLightmaps (EvBakeIndirectLightForLightProbes chunk :: ?t))
    with (storedLightmaps t).
  rewrite storedLightmaps_app, map_app, Hstored.
  assert (Htailstores : storedLightmaps tail = []).
  { destruct b'; [|now subst tail].
    destruct Htail as (saves & -> & Hsaves).
    now rewrite storedLightmaps_app, storedLightmaps_probes,
      (storedLightmaps_saves _ _ _ Hsaves). }
  rewrite Htailstores. cbn [map]. now rewrite app_nil_r.
Qed.

Lemma storedIndices_phase V s l b t :
  phaseShape V s l b t ->
  exists n, (if b then n = length (allLightmaps V l)
             else (n < length (allLightmaps V l))%nat) /\
            map fst (storedLightmaps t) = take n (allLightmaps V l).
Proof.
  unfold allLightmaps.
  induction 1 as [|chunk l t Hchunk|chunk l t b t' Hchunk _ IH]; cbn [flat_map].
  - exists 0%nat. split; reflexivity.
  - apply storedIndices_chunk in Hchunk as (n & Hn & Hstored). exists n.
    rewrite length_app. split; [lia|].
    now rewrite Hstored, take_app_le by lia.
  - apply storedIndices_chunk in Hchunk as (n & -> & Hstored).
    destruct IH as (n' & Hn' & Hstored').
    exists (length (chunkLightmaps V chunk) + n')%nat. rewrite length_app. split.
    + destruct b; lia.
    + rewrite storedLightmaps_app, map_app, Hstored, Hstored', firstn_all.
      now rewrite take_app_add'.
Qed.

(** X8: in a run of [BakeIndirectAndFilter] that returns, the final
    lightmaps stored are those of the first [n] lightmaps of the chunk list,
    in order, one store each; [n] is the number of all the lightmaps when
    it returns [true] and less when it returns [false] (the stop token
    fired before lightmap [n]).  The final lightmaps of the cache are those
    it held before with the stored ones put in; no entry is removed. *)
Theorem BakeIndirectAndFilter_stores_lightmaps
  (tok : StopToken) (w w' : World) (b : bool) (t : list Event) :
  BakeIndirectAndFilter tok w = Ok b w' ->
  trace_ w' = trace_ w ++ t ->
  exists n,
    (if b then n = length (allLightmaps (chunkVicinities (cache_ w)) (chunks_ w))
     else (n < length (allLightmaps (chunkVicinities (cache_ w)) (chunks_ w)))%nat) /\
    map fst (storedLightmaps t) =
      take n (allLightmaps (chunkVicinities (cache_ w)) (chunks_ w)) /\
    lightmaps (cache_ w') = storeLightmaps (storedLightmaps t) (lightmaps (cache_ w)) /\
    dom (lightmaps (cache_ w)) ⊆ dom (lightmaps (cache_ w')).
Proof.
  intros Hrun Ht.
  pose proof (BakeIndirectAndFilter_lightmapsStored _ _ _ _ Hrun) as (t1 & Ht1 & Hcache).
  rewrite Ht1 in Ht. apply app_inv_head in Ht. subst t1.
  apply BakeIndirectAndFilter_shape in Hrun as [_ (t0 & Ht0 & Hshape)].
  rewrite Ht0 in Ht1. apply app_inv_head in Ht1. subst t0.
  apply storedIndices_phase in Hshape as (n & Hn & Hstored).
  exists n. split; [exact Hn|]. split; [exact Hstored|]. split; [exact Hcache|].
  rewrite Hcache. clear. generalize (lightmaps (cache_ w)).
  induction (storedLightmaps t) as [|[idx lm] stores IH]; intros m; [reflexivity|].
  cbn [storeLightmaps fold_left fst snd]. etransitivity; [|apply IH].
  rewrite dom_insert. set_solver.
Qed.

End BakeFacts.

(** ** Bake: the direct buffers of the cache *)

Section DirectBufferFacts.
Context `{Collaborators}.

Lemma directBuffersKept_refl w : directBuffersKept w w.
Proof. repeat split. Qed.

Lemma directBuffersKept_trans w1 w2 w3 :
  directBuffersKept w1 w2 -> directBuffersKept w2 w3 -> directBuffersKept w1 w3.
Proof.
  intros (Hs1 & Hd1 & Hk1) (Hs2 & Hd2 & Hk2). split; [congruence|].
  split; [congruence|]. intros Hoff. rewrite Hk2, Hk1; [reflexivity|exact Hoff|].
  now rewrite Hs1.
Qed.

Lemma directBuffersKept_quiet w w' :
  settings_ w' = settings_ w -> cache_ w' = cache_ w -> directBuffersKept w w'.
Proof. intros Hs Hc. unfold directBuffersKept. rewrite Hc. now repeat split. Qed.

Lemma bakeIndirectChart_directBuffersKept tok v table mesh loc i w r w' :
  bakeIndirectChart tok v table mesh loc i w = Ok r w' -> directBuffersKept w w'.
Proof.
  intros Hrun.
  unfold bakeIndirectChart, IsStopped, LoadDirectLight, viewDirect, readDirect,
    writeDirect, StoreLightmap in Hrun.
  run_in Hrun.
  destruct (tok (polls_ w)); run_in Hrun.
  { injection Hrun as _ <-. now apply directBuffersKept_quiet. }
  destruct (lightmaps_ v !! i) as [lightmapIndex|] eqn:Hidx; [|discriminate].
  run_in Hrun.
  destruct (geometryBuffers_ v !! i) as [geometryBuffer|]; [|discriminate].
  grind Hrun.
  all: injection Hrun as _ <-.
  all: unfold directBuffersKept; world_simpl.
  all: split; [reflexivity|]; split; [|intros Hoff].
  all: try reflexivity.
  all: try (apply dom_insert_lookup_L; eauto).
  all: match goal with Hb : (0 <? _) = true |- _ => apply Z.ltb_lt in Hb; lia end.
Qed.

Lemma bakeIndirectChunk_directBuffersKept tok loc chunk w r w' :
  bakeIndirectChunk tok loc chunk w = Ok r w' -> directBuffersKept w w'.
Proof.
  intros Hrun. unfold bakeIndirectChunk, LoadChunkVicinity in Hrun. run_in Hrun.
  destruct (chunkVicinities (cache_ w) !! chunk) as [v|] eqn:Hv; [|discriminate].
  apply bind_Ok_inv in Hrun as (table & w1 & Hload & Hrun).
  unfold loadRequiredDirectLightmaps in Hload. run_in Hload.
  apply loadRequired_inv in Hload. subst w1.
  unfold viewDirect in Hrun. run_in Hrun.
  apply bind_Ok_inv in Hrun as (r1 & w2 & Hloop & Hrun).
  apply (foldBreak_rel directBuffersKept) in Hloop;
    [|apply directBuffersKept_refl|apply directBuffersKept_trans
     |intros ? ? ? ? ?; apply bakeIndirectChart_directBuffersKept].
  world_simpl.
  assert (Hstart : directBuffersKept w w2).
  { destruct Hloop as (Hs & Hd & Hk). world_simpl. now repeat split. }
  apply (directBuffersKept_trans _ _ _ Hstart). clear Hstart Hloop.
  destruct r1 as [loc'|].
  - unfold bakeDirectLightProbes, saveLightProbes, forEach in Hrun.
    match type of Hrun with context [foldM (bakedLights_ v) ?d _] =>
      destruct (bakeDirectLightProbes_from chunk v (bakedLights_ v) d w2)
        as [data' Hprobes] end.
    rewrite (bind_Ok _ _ _ _ _ Hprobes) in Hrun.
    apply bind_Ok_inv in Hrun as ([] & w3 & Hsave & Hrun).
    apply saveLightProbes_inv in Hsave as ((Hs & _) & _ & Hcache & _).
    run_in Hrun. injection Hrun as _ <-. world_simpl.
    now apply directBuffersKept_quiet.
  - run_in Hrun. injection Hrun as _ <-. apply directBuffersKept_refl.
Qed.

Lemma BakeIndirectAndFilter_directBuffersKept tok w b w' :
  BakeIndirectAndFilter tok w = Ok b w' -> directBuffersKept w w'.
Proof.
  intros Hrun. unfold BakeIndirectAndFilter in Hrun. run_in Hrun.
  apply bind_Ok_inv in Hrun as (r & w1 & Hloop & Hrun).
  apply (foldBreak_rel directBuffersKept) in Hloop;
    [|apply directBuffersKept_refl|apply directBuffersKept_trans
     |intros ? ? ? ? ?; apply bakeIndirectChunk_directBuffersKept].
  run_in Hrun. now injection Hrun as _ <-.
Qed.

(** X9: [BakeIndirectAndFilter] neither adds nor removes a direct buffer of
    the cache, and when the direct filter is off (its kernel radius is not
    positive) it leaves every direct buffer as it is. *)
Theorem BakeIndirectAndFilter_keeps_direct_buffers
  (tok : StopToken) (w w' : World) (b : bool) :
  BakeIndirectAndFilter tok w = Ok b w' ->
  dom (directLights (cache_ w')) = dom (directLights (cache_ w)) /\
  (directFilter_kernelRadius_ (settings_ w) <= 0 ->
   directLights (cache_ w') = directLights (cache_ w)).
Proof.
  intros Hrun. exact (proj2 (BakeIndirectAndFilter_directBuffersKept _ _ _ _ Hrun)).
Qed.

End DirectBufferFacts.

(** ** Bake: what a successful run leaves for CommitScene *)

Section ReadyFacts.
Context `{Collaborators}.

Lemma directStored_refl w : directStored w w.
Proof. exists []. now rewrite app_nil_r. Qed.

Lemma directStored_trans w1 w2 w3 :
  directStored w1 w2 -> directStored w2 w3 -> directStored w1 w3.
Proof.
  intros (t1 & Ht1 & Hm1) (t2 & Ht2 & Hm2). exists (t1 ++ t2).
  split; [now rewrite Ht2, Ht1, app_assoc|].
  now rewrite storedDirectLights_app, storeAll_app, <- Hm1.
Qed.

Lemma bakeDirectChart_directStored tok v u i w r w' :
  bakeDirectChart tok v u i w = Ok r w' -> directStored w w'.
Proof.
  intros Hrun. unfold bakeDirectChart, IsStopped, StoreDirectLight in Hrun.
  run_in Hrun.
  destruct (tok (polls_ w)); run_in Hrun.
  { injection Hrun as _ <-. exists [EvIsStopped true]. split; reflexivity. }
  destruct (lightmaps_ v !! i) as [lightmapIndex|]; [|discriminate]. run_in Hrun.
  destruct (geometryBuffers_ v !! i) as [geometryBuffer|]; [|discriminate].
  run_in Hrun. injection Hrun as _ <-. eexists. world_simpl.
  split; [rewrite <- !app_assoc; reflexivity|reflexivity].
Qed.

Lemma BakeDirectCharts_directStored tok w b w' :
  BakeDirectCharts tok w = Ok b w' -> directStored w w'.
Proof.
  intros Hrun. unfold BakeDirectCharts in Hrun. run_in Hrun.
  apply bind_Ok_inv in Hrun as (r & w1 & Hloop & Hrun).
  run_in Hrun. injection Hrun as _ <-.
  apply (foldBreak_rel directStored) in Hloop;
    [exact Hloop|apply directStored_refl|apply directStored_trans|].
  clear. intros u chunk w0 r w0' Hchunk.
  unfold bakeDirectChunk, LoadChunkVicinity in Hchunk. run_in Hchunk.
  destruct (chunkVicinities (cache_ w0) !! chunk) as [v|]; [|discriminate].
  run_in Hchunk.
  apply (foldBreak_rel directStored) in Hchunk;
    [|apply directStored_refl|apply directStored_trans
     |intros ? ? ? ? ?; apply bakeDirectChart_directStored].
  eapply directStored_trans; [|exact Hchunk].
  exists [EvLoadChunkVicinity chunk]. split; reflexivity.
Qed.

Lemma storedDirect_directLoop s v l t :
  directLoopShape s v l true t ->
  map fst (storedDirectLights t) = lightmapsAt v l.
Proof.
  remember true as b eqn:Hb.
  induction 1 as [|i l|i l idx gb b t Hidx Hgb _ IH]; [reflexivity|discriminate|].
  rewrite (lightmapsAt_cons v i l idx Hidx). unfold jobEvents. cbn [app fst snd].
  change (storedDirectLights (EvIsStopped false :: EvStoreDirectLight idx ?baked :: t))
    with ((idx, baked) :: storedDirectLights t).
  cbn [map fst]. now rewrite IH.
Qed.

Lemma storedDirect_directPhase V s l t :
  directPhaseShape V s l true t ->
  map fst (storedDirectLights t) = allLightmaps V l.
Proof.
  remember true as b eqn:Hb. unfold allLightmaps.
  induction 1 as [|chunk l v t Hv Hloop|chunk l v t b t' Hv Hloop _ IH];
    [reflexivity|discriminate|].
  cbn [flat_map]. unfold chunkLightmaps at 1. rewrite Hv.
  change (storedDirectLights (EvLoadChunkVicinity chunk :: ?t))
    with (storedDirectLights t).
  rewrite storedDirectLights_app, map_app, IH by exact Hb. f_equal.
  rewrite (storedDirect_directLoop _ _ _ _ Hloop).
  unfold lightmapsAt, indices. apply lookup_all.
Qed.

Lemma storeAll_lookup (jobs : list DirectJob) :
  forall m idx, In idx (map fst jobs) -> is_Some (storeAll jobs m !! idx).
Proof.
  induction jobs as [|[i baked] jobs IH] using rev_ind; intros m idx Hin;
    [contradiction|].
  rewrite map_app in Hin. rewrite storeAll_app. cbn [storeAll fold_left fst snd].
  destruct (decide (i = idx)) as [->|Hne].
  - rewrite lookup_insert_eq. eauto.
  - rewrite lookup_insert_ne by exact Hne. apply IH.
    apply in_app_or in Hin as [Hin|[Hin|[]]]; [exact Hin|contradiction].
Qed.

Lemma storeLightmaps_lookup (stores : list (Z * BakedLightmap)) :
  forall m idx, In idx (map fst stores) ->
  exists baked, In (idx, baked) stores /\ storeLightmaps stores m !! idx = Some baked.
Proof.
  induction stores as [|[i baked] stores IH] using rev_ind; intros m idx Hin;
    [contradiction|].
  rewrite map_app in Hin. rewrite storeLightmaps_app.
  cbn [storeLightmaps fold_left fst snd].
  destruct (decide (i = idx)) as [->|Hne].
  - exists baked. rewrite lookup_insert_eq. split; [|reflexivity].
    apply in_or_app. right. now left.
  - rewrite lookup_insert_ne by exact Hne.
    apply in_app_or in Hin as [Hin|[Hin|[]]]; [|contradiction].
    destruct (IH m idx Hin) as (baked' & Hbaked & Hlookup). exists baked'.
    split; [apply in_or_app; now left|exact Hlookup].
Qed.

Lemma storedLightmaps_In (t : list Event) idx baked :
  In (idx, baked) (storedLightmaps t) -> In (EvStoreLightmap idx baked) t.
Proof.
  unfold storedLightmaps. intros Hin.
  apply list_elem_of_In, list_elem_of_omap in Hin as (e & He & Hstore).
  destruct e; try discriminate. injection Hstore as -> ->.
  now apply list_elem_of_In.
Qed.

Lemma Bake_true_inv tok w w' :
  Bake tok w = Ok true w' ->
  exists w1, BakeDirectCharts tok w = Ok true w1 /\
             BakeIndirectAndFilter tok w1 = Ok true w'.
Proof.
  intros Hrun. unfold Bake in Hrun.
  apply bind_Ok_inv in Hrun as (direct & w1 & Hdirect & Hrun).
  destruct direct; cbn [negb] in Hrun; [|run_in Hrun; discriminate].
  apply bind_Ok_inv in Hrun as (indirect & w2 & Hindirect & Hrun).
  destruct indirect; cbn [negb] in Hrun; run_in Hrun; [|discriminate].
  injection Hrun as <-. eauto.
Qed.

(** X11: when [Bake] returns [true], the chunk list, the settings and the
    vicinities are as before, and for every lightmap of every chunk of the
    list the cache holds a direct buffer and a final lightmap, the final
    lightmap with the configured number of texels: what [CommitScene]
    loads is there. *)
Theorem Bake_success_fills_cache (tok : StopToken) (w w' : World) :
  Bake tok w = Ok true w' ->
  chunks_ w' = chunks_ w /\ settings_ w' = settings_ w /\
  chunkVicinities (cache_ w') = chunkVicinities (cache_ w) /\
  forall lightmapIndex,
    In lightmapIndex (allLightmaps (chunkVicinities (cache_ w)) (chunks_ w)) ->
    is_Some (directLights (cache_ w') !! lightmapIndex) /\
    exists baked,
      lightmaps (cache_ w') !! lightmapIndex = Some baked /\
      length (lightmap_ baked) =
        Z.to_nat (wrap32 (lightmapSize_ (settings_ w) * lightmapSize_ (settings_ w))).
Proof.
  intros Hrun. apply Bake_true_inv in Hrun as (w1 & Hdirect & Hindirect).
  pose proof (BakeDirectCharts_directStored _ _ _ _ Hdirect) as (t1 & Ht1 & Hcache1).
  pose proof (BakeDirectCharts_shape _ _ _ _ Hdirect)
    as ((Hs1 & Hc1 & Hn1 & Hv1) & t1' & Ht1' & Hshape1).
  rewrite Ht1 in Ht1'. apply app_inv_head in Ht1'. subst t1'.
  pose proof (BakeIndirectAndFilter_lightmapsStored _ _ _ _ Hindirect)
    as (t2 & Ht2 & Hcache2).
  pose proof (BakeIndirectAndFilter_shape _ _ _ _ Hindirect)
    as ((Hs2 & Hc2 & Hn2 & Hv2) & t2' & Ht2' & Hshape2).
  rewrite Ht2 in Ht2'. apply app_inv_head in Ht2'. subst t2'.
  pose proof (BakeIndirectAndFilter_directBuffersKept _ _ _ _ Hindirect)
    as (_ & Hdom & _).
  rewrite Hs1, Hc1, Hv1 in Hshape2.
  split; [congruence|]. split; [congruence|]. split; [congruence|].
  intros idx Hin. split.
  - apply elem_of_dom. rewrite Hdom. apply elem_of_dom. rewrite Hcache1.
    apply storeAll_lookup. now rewrite (storedDirect_directPhase _ _ _ _ Hshape1).
  - pose proof (storedIndices_phase _ _ _ _ _ Hshape2) as (n & -> & Hstored).
    rewrite firstn_all in Hstored. rewrite <- Hstored in Hin.
    destruct (storeLightmaps_lookup _ (lightmaps (cache_ w1)) idx Hin)
      as (baked & Hbaked & Hlookup).
    exists baked. split; [now rewrite Hcache2|].
    apply storedLightmaps_In in Hbaked.
    destruct (phaseShape_stores _ _ _ _ _ _ _ Hshape2 Hbaked)
      as (direct & indirect & Hfinal).
    now apply generateFinalImage_texels in Hfinal as [Hlen _].
Qed.

End ReadyFacts.

(** ** CommitScene: the images saved *)

Section CommitFacts.
Context `{Collaborators}.

Lemma errors_app (t1 t2 : list Event) : errors (t1 ++ t2) = errors t1 ++ errors t2.
Proof. unfold errors. apply omap_app. Qed.

Lemma loadedLightmaps_app (t1 t2 : list Event) :
  loadedLightmaps (t1 ++ t2) = loadedLightmaps t1 ++ loadedLightmaps t2.
Proof. unfold loadedLightmaps. apply omap_app. Qed.

Lemma savedImages_app (t1 t2 : list Event) :
  savedImages (t1 ++ t2) = savedImages t1 ++ savedImages t2.
Proof. unfold savedImages. apply omap_app. Qed.

(** One lightmap: its final lightmap is loaded and one image is saved
    under its file name. *)
Lemma stitchAndSaveLightmap_inv numTexels v loc i w loc' w' :
  stitchAndSaveLightmap numTexels v loc i w = Ok loc' w' ->
  exists lightmapIndex,
    lightmaps_ v !! i = Some lightmapIndex /\
    chunks_ w' = chunks_ w /\ settings_ w' = settings_ w /\ cache_ w' = cache_ w /\
    trace_ w' = trace_ w
      ++ [EvLoadLightmap lightmapIndex;
          EvCreateDirsRecursive (GetPath (GetLightmapFileName (settings_ w) lightmapIndex));
          EvSaveImage (GetLightmapFileName (settings_ w) lightmapIndex)
            (lightmapImage loc')].
Proof.
  intros Hrun. unfold stitchAndSaveLightmap, LoadLightmap, fs_CreateDirsRecursive in Hrun.
  run_in Hrun.
  destruct (lightmaps_ v !! i) as [lightmapIndex|] eqn:Hidx; [|discriminate].
  run_in Hrun.
  destruct (geometryBuffers_ v !! i) as [geometryBuffer|]; [|discriminate].
  run_in Hrun.
  destruct (fillBuffer _ _ _ _ _) as [filled|]; [|discriminate]. run_in Hrun.
  destruct (generateImage _ _ _ _) as [image|]; [|discriminate]. run_in Hrun.
  injection Hrun as <- <-. exists lightmapIndex. world_simpl.
  cbn [lightmapImage]. rewrite <- !app_assoc. repeat split.
Qed.

(** The loop over the lightmaps of a chunk. *)
Lemma stitchLoop_inv numTexels v (l : list nat) :
  forall loc w loc' w',
  foldM l loc (stitchAndSaveLightmap numTexels v) w = Ok loc' w' ->
  chunks_ w' = chunks_ w /\ settings_ w' = settings_ w /\ cache_ w' = cache_ w /\
  exists t,
    trace_ w' = trace_ w ++ t /\ errors t = [] /\
    loadedLightmaps t = lightmapsAt v l /\
    map fst (savedImages t) = map (GetLightmapFileName (settings_ w)) (lightmapsAt v l).
Proof.
  induction l as [|i l IH]; intros loc w loc' w' Hrun; cbn [foldM] in Hrun.
  - run_in Hrun. injection Hrun as _ <-. repeat split. exists [].
    rewrite app_nil_r. repeat split.
  - apply bind_Ok_inv in Hrun as (loc1 & w1 & Hone & Hrest).
    apply stitchAndSaveLightmap_inv in Hone as (idx & Hidx & Hc1 & Hs1 & Hcache1 & Ht1).
    apply IH in Hrest as (Hc & Hs & Hcache & t & Ht & Herrors & Hloads & Hsaved).
    split; [congruence|]. split; [congruence|]. split; [congruence|].
    eexists. split; [rewrite Ht, Ht1, <- app_assoc; reflexivity|].
    rewrite (lightmapsAt_cons v i l idx Hidx).
    rewrite errors_app, loadedLightmaps_app, savedImages_app, map_app.
    rewrite Herrors, Hloads, Hsaved, Hs1. repeat split.
Qed.

(** The loop over the chunks. *)
Lemma stitchChunks_inv numTexels (chunks : list IntVector3) :
  forall loc w loc' w',
  foldM chunks loc
    (fun loc chunk =>
       let* chunkVicinity := LoadChunkVicinity chunk in
       foldM (indices (lightmaps_ chunkVicinity)) loc
         (stitchAndSaveLightmap numTexels chunkVicinity)) w = Ok loc' w' ->
  chunks_ w' = chunks_ w /\ settings_ w' = settings_ w /\ cache_ w' = cache_ w /\
  exists t,
    trace_ w' = trace_ w ++ t /\ errors t = [] /\
    loadedLightmaps t = allLightmaps (chunkVicinities (cache_ w)) chunks /\
    map fst (savedImages t) =
      map (GetLightmapFileName (settings_ w))
          (allLightmaps (chunkVicinities (cache_ w)) chunks).
Proof.
  unfold allLightmaps.
  induction chunks as [|chunk chunks IH]; intros loc w loc' w' Hrun; cbn [foldM] in Hrun.
  - run_in Hrun. injection Hrun as _ <-. repeat split. exists [].
    rewrite app_nil_r. repeat split.
  - apply bind_Ok_inv in Hrun as (loc1 & w1 & Hchunk & Hrest).
    unfold LoadChunkVicinity in Hchunk. run_in Hchunk.
    destruct (chunkVicinities (cache_ w) !! chunk) as [v|] eqn:Hv; [|discriminate].
    run_in Hchunk.
    apply stitchLoop_inv in Hchunk as (Hc1 & Hs1 & Hcache1 & t1 & Ht1 & He1 & Hl1 & Hi1).
    world_simpl.
    apply IH in Hrest as (Hc & Hs & Hcache & t & Ht & Herrors & Hloads & Hsaved).
    split; [congruence|]. split; [congruence|]. split; [congruence|].
    exists (EvLoadChunkVicinity chunk :: t1 ++ t).
    split; [rewrite Ht, Ht1, <- !app_assoc; reflexivity|].
    cbn [flat_map]. unfold chunkLightmaps at 1 3. rewrite Hv.
    unfold lightmapsAt, indices in Hl1, Hi1. rewrite lookup_all in Hl1, Hi1.
    change (errors (EvLoadChunkVicinity chunk :: ?t)) with (errors t).
    change (loadedLightmaps (EvLoadChunkVicinity chunk :: ?t)) with (loadedLightmaps t).
    change (savedImages (EvLoadChunkVicinity chunk :: ?t)) with (savedImages t).
    rewrite errors_app, loadedLightmaps_app, savedImages_app, !map_app.
    rewrite He1, Hl1, Hi1, Herrors, Hloads, Hsaved, Hcache1, Hs1. repeat split.
Qed.

(** X12: when the image can be allocated and [CommitScene] returns, it has
    loaded the final lightmap of every lightmap of every chunk of the list,
    in order, and saved one image for each under the file name of the
    lightmap.  It reports no error, whatever [Image::SaveFile] and
    [CreateDirsRecursive] answer, and leaves the cache, the settings and
    the chunk list as they are. *)
Theorem CommitScene_saves_every_lightmap (w w' : World) (t : list Event) :
  CommitScene w = Ok tt w' ->
  (SetSize NewImage (lightmapSize_ (settings_ w)) (lightmapSize_ (settings_ w)) 4).1
  = true ->
  trace_ w' = trace_ w ++ t ->
  errors t = [] /\
  loadedLightmaps t = allLightmaps (chunkVicinities (cache_ w)) (chunks_ w) /\
  map fst (savedImages t) =
    map (GetLightmapFileName (settings_ w))
        (allLightmaps (chunkVicinities (cache_ w)) (chunks_ w)) /\
  cache_ w' = cache_ w /\ settings_ w' = settings_ w /\ chunks_ w' = chunks_ w.
Proof.
  intros Hrun Hsized Ht. unfold CommitScene, StitchAndSaveImages in Hrun.
  run_in Hrun. cbn zeta in Hrun. rewrite Hsized in Hrun. cbn [negb] in Hrun.
  run_in Hrun.
  apply bind_Ok_inv in Hrun as (loc' & w1 & Hloop & Hrun).
  run_in Hrun. injection Hrun as <-.
  apply stitchChunks_inv in Hloop as (Hc & Hs & Hcache & t1 & Ht1 & Herrors & Hloads & Hsaved).
  world_simpl. rewrite Ht1, <- app_assoc in Ht. apply app_inv_head in Ht. subst t.
  cbn [app].
  change (errors (EvInitializeStitchingContext ?n :: t1)) with (errors t1).
  change (loadedLightmaps (EvInitializeStitchingContext ?n :: t1))
    with (loadedLightmaps t1).
  change (savedImages (EvInitializeStitchingContext ?n :: t1)) with (savedImages t1).
  repeat split; assumption.
Qed.

Lemma fold_left_same {A B} (f g : A -> B -> A) (l : list B) :
  (forall a x, f a x = g a x) -> forall a, fold_left f l a = fold_left g l a.
Proof.
  intros Hfg. induction l as [|x l IH]; intros a; [reflexivity|].
  cbn [fold_left]. now rewrite Hfg, IH.
Qed.

(** X13: the image generated from the blend buffer depends on the red,
    green and blue values of the buffer only: two buffers that differ in
    their alpha values alone give the same image. *)
Theorem generateImage_ignores_alpha (numTexels : Z)
  (geometryBuffer : LightmapChartGeometryBuffer) (buffer1 buffer2 : list Vector4)
  (image : Image) :
  map Vector4_to_Vector3 buffer1 = map Vector4_to_Vector3 buffer2 ->
  generateImage numTexels geometryBuffer buffer1 image =
  generateImage numTexels geometryBuffer buffer2 image.
Proof.
  intros Hrgb. unfold generateImage. apply fold_left_same. intros acc i.
  assert (Hi : Vector4_to_Vector3 <$> buffer1 !! i = Vector4_to_Vector3 <$> buffer2 !! i).
  { rewrite <- !list_lookup_fmap.
    change (Vector4_to_Vector3 <$> buffer1) with (map Vector4_to_Vector3 buffer1).
    change (Vector4_to_Vector3 <$> buffer2) with (map Vector4_to_Vector3 buffer2).
    now rewrite Hrgb. }
  unfold exportTexel. destruct acc as [image'|]; [|reflexivity].
  cbn [mbind option_bind].
  destruct (buffer1 !! i) as [texel1|], (buffer2 !! i) as [texel2|];
    cbn [fmap option_fmap option_map mbind option_bind] in *;
    try discriminate; [|reflexivity].
  assert (Heq : Vector4_to_Vector3 texel1 = Vector4_to_Vector3 texel2) by congruence.
  now rewrite Heq.
Qed.

End CommitFacts.

(** ** Initialize: the state after a success *)

Section InitializeFacts.
Context `{Collaborators}.
Import Locality LocalityFacts.

(** X14: when [Initialize] returns [true], the output directory of the
    settings is the resolved one with its trailing slash, the collector is
    locked with these settings, the chunk list holds the chunks of the
    collector, each as often as the collector lists it, in ascending order
    of their keys, and the global illumination component of the scene
    refers to the GI data file by its resource name.  The cache and the
    chart counter are as before. *)
Theorem Initialize_success (w w' : World) :
  Initialize w = Ok true w' ->
  outputDirectory_ (incremental_ (settings_ w')) = resolvedOutputDirectory w /\
  collector_ w' = LockScene (collector_ w) (settings_ w') /\
  Permutation (GetChunks (collector_ w')) (chunks_ w') /\
  (forall base, baseChunkIndex (GetChunks (collector_ w')) = Some base ->
     Sorted (fun a b => Swizzle a base <= Swizzle b base) (chunks_ w')) /\
  globalIllumination_ w' =
    Some ("BinaryFile", GetResourceName (resourceDirs_ w) (giFileNameOf w)) /\
  cache_ w' = cache_ w /\ numLightmapCharts_ w' = numLightmapCharts_ w.
Proof.
  intros Hrun.
  unfold Initialize, findOutputDirectory, initializeGIDataFile, fs_CreateDir,
    URHO3D_LOGERROR in Hrun.
  unfold giFileNameOf, resolvedOutputDirectory.
  grind Hrun.
  all: try discriminate Hrun.
  all: injection Hrun as <-; world_simpl.
  all: repeat split; try apply sortChunks_sorted.
Qed.

End InitializeFacts.

(** ** Edge cases *)

Section EdgeFacts.
Context `{Collaborators}.

(** X15: when [Initialize] returns [false], the global illumination
    component of the scene keeps the file reference it had, and the cache,
    the lightmap list of the scene and the chart counter are as before;
    the collector is as before or already locked. *)
Theorem Initialize_failure_keeps_scene (w w' : World) :
  Initialize w = Ok false w' ->
  globalIllumination_ w' = globalIllumination_ w /\
  cache_ w' = cache_ w /\ sceneLightmaps_ w' = sceneLightmaps_ w /\
  numLightmapCharts_ w' = numLightmapCharts_ w /\
  (collector_ w' = collector_ w \/
   collector_ w' = LockScene (collector_ w) (settings_ w')).
Proof.
  intros Hrun.
  unfold Initialize, findOutputDirectory, initializeGIDataFile, fs_CreateDir,
    URHO3D_LOGERROR in Hrun.
  grind Hrun.
  all: try discriminate Hrun.
  all: injection Hrun as <-; world_simpl.
  all: repeat split; auto.
Qed.

(** X16: the image export reads the final lightmap through the handle the
    cache returns without testing it.  When the cache holds no final
    lightmap for a lightmap of a chunk and the lightmaps have at least one
    texel, the pass of [StitchAndSaveImages] over that lightmap reads
    through the null handle: no image is saved. *)
Theorem stitchAndSaveLightmap_missing_lightmap
  (numTexels : Z) (v : BakedChunkVicinity) (loc : StitchLocals) (i : nat) (w : World)
  (lightmapIndex : Z) (geometryBuffer : LightmapChartGeometryBuffer) :
  lightmaps_ v !! i = Some lightmapIndex ->
  geometryBuffers_ v !! i = Some geometryBuffer ->
  lightmaps (cache_ w) !! lightmapIndex = None ->
  0 < numTexels ->
  exists w',
    stitchAndSaveLightmap numTexels v loc i w = Fault w' /\
    trace_ w' = trace_ w ++ [EvLoadLightmap lightmapIndex] /\
    cache_ w' = cache_ w /\ fileSystem_ w' = fileSystem_ w.
Proof.
  intros Hidx Hgb Hmissing Htexels.
  assert (Hfill : fillBuffer (settings_ w) numTexels None geometryBuffer loc = None).
  { unfold fillBuffer. destruct (_ && _); [reflexivity|].
    unfold copyToBuffer, upto.
    destruct (Z.to_nat numTexels) as [|n] eqn:Hn; [lia|].
    cbn [seq fold_left]. unfold copyTexel at 2. cbn [mbind option_bind].
    now rewrite copyTexel_None. }
  unfold stitchAndSaveLightmap, LoadLightmap. run. rewrite Hidx. run.
  rewrite Hmissing, Hgb. run. rewrite Hfill.
  eexists. split; [reflexivity|]. world_simpl. repeat split.
Qed.

End EdgeFacts.

(** ** The further properties on the small scene *)

Section FurtherExamples.
Import Example.
#[local] Existing Instance types.
#[local] Existing Instance engine.

(** X1 on two resource directories of which the second is a prefix of the
    file name. *)
Lemma GetResourceName_round_trip_witness :
  Forall (fun d => String.prefix d "/out/a.png" = false) ["/data/"] /\
  String.prefix "/" "/out/a.png" = true /\
  "/" +:+ GetResourceName ["/data/"; "/"] "/out/a.png" = "/out/a.png" /\
  (Forall (fun d => String.prefix d "a.png" = false) ["/data/"; "/"] /\
   GetResourceName ["/data/"; "/"] "a.png" = EmptyString).
Proof.
  assert (Hbefore : Forall (fun d => String.prefix d "/out/a.png" = false) ["/data/"])
    by (apply List.Forall_cons; [reflexivity|apply List.Forall_nil]).
  assert (Hdir : String.prefix "/" "/out/a.png" = true) by reflexivity.
  assert (Hnone : Forall (fun d => String.prefix d "a.png" = false) ["/data/"; "/"])
    by (repeat (apply List.Forall_cons; [reflexivity|]); apply List.Forall_nil).
  split; [exact Hbefore|]. split; [exact Hdir|]. split.
  - exact (proj1 (proj1 (GetResourceName_round_trip ["/data/"; "/"] "/out/a.png")
                    ["/data/"] "/" [] eq_refl Hbefore Hdir)).
  - split; [exact Hnone|].
    exact (proj1 (proj2 (GetResourceName_round_trip ["/data/"; "/"] "a.png")) Hnone).
Defined.

(** X2 on the lightmaps 0 and 1 of the scene. *)
Lemma GetLightmapFileName_distinct_witness :
  0 <> 1 /\
  GetLightmapFileName (settings "/out/" 1) 0 <> GetLightmapFileName (settings "/out/" 1) 1.
Proof.
  assert (Hne : 0 <> 1) by discriminate.
  split; [exact Hne|]. exact (GetLightmapFileName_distinct (settings "/out/" 1) 0 1 Hne).
Defined.

(** X5 on two chunks at the far end of the range. *)
Lemma Swizzle_distinct_in_range_witness :
  inKeyRange (mkIntVector3 0 0 0) (mkIntVector3 2047 0 1023) /\
  inKeyRange (mkIntVector3 0 0 0) (mkIntVector3 2047 1 1023) /\
  mkIntVector3 2047 0 1023 <> mkIntVector3 2047 1 1023 /\
  Locality.Swizzle (mkIntVector3 2047 0 1023) (mkIntVector3 0 0 0) <>
  Locality.Swizzle (mkIntVector3 2047 1 1023) (mkIntVector3 0 0 0) /\
  Locality.compareSwizzled (mkIntVector3 0 0 0)
    (mkIntVector3 2047 0 1023) (mkIntVector3 2047 1 1023) =
  negb (Locality.compareSwizzled (mkIntVector3 0 0 0)
          (mkIntVector3 2047 1 1023) (mkIntVector3 2047 0 1023)).
Proof.
  assert (Ha : inKeyRange (mkIntVector3 0 0 0) (mkIntVector3 2047 0 1023))
    by (unfold inKeyRange; cbn [x_ y_ z_]; lia).
  assert (Hb : inKeyRange (mkIntVector3 0 0 0) (mkIntVector3 2047 1 1023))
    by (unfold inKeyRange; cbn [x_ y_ z_]; lia).
  assert (Hne : mkIntVector3 2047 0 1023 <> mkIntVector3 2047 1 1023) by discriminate.
  split; [exact Ha|]. split; [exact Hb|]. split; [exact Hne|].
  exact (KeyFacts.Swizzle_distinct_in_range _ _ _ Ha Hb Hne).
Defined.

(** X7 on the scene with a token that never stops. *)
Lemma BakeDirectCharts_completes_witness :
  vicinitiesReady scene /\
  (forall n, (n < length (allDirectJobs scene))%nat ->
     never (polls_ scene + n)%nat = false) /\
  exists w' t,
    BakeDirectCharts never scene = Ok true w' /\
    trace_ w' = trace_ scene ++ t /\
    storedDirectLights t = [(0, [texel]); (1, [texel])] /\
    directLights (cache_ w') = <[1 := [texel]]> (<[0 := [texel]]> ∅) /\
    pollAnswers t = [false; false] /\
    polls_ w' = 2%nat.
Proof.
  assert (Hnever : forall n, (n < length (allDirectJobs scene))%nat ->
                     never (polls_ scene + n)%nat = false) by reflexivity.
  split; [exact example_vicinitiesReady|]. split; [exact Hnever|].
  destruct (BakeDirectCharts_completes never scene example_vicinitiesReady Hnever)
    as (w' & t & Hrun & Ht & Hstored & _ & Hcache & _ & _ & Hpolls & Hcount).
  exists w', t. split; [exact Hrun|]. split; [exact Ht|]. split; [exact Hstored|].
  split; [exact Hcache|]. split; [exact Hpolls|exact Hcount].
Defined.

(** X8 on the scene after its direct phase, stopped at the second lightmap
    of the indirect phase: the final lightmap of lightmap 0 is stored and
    that of lightmap 1 is not. *)
Lemma BakeIndirectAndFilter_stores_lightmaps_witness :
  BakeIndirectAndFilter (stopAt 3) directDone =
    Ok false (finalWorld (BakeIndirectAndFilter (stopAt 3) directDone)) /\
  trace_ (finalWorld (BakeIndirectAndFilter (stopAt 3) directDone)) =
    trace_ directDone ++ callsOf directDone (BakeIndirectAndFilter (stopAt 3) directDone) /\
  storedLightmaps (callsOf directDone (BakeIndirectAndFilter (stopAt 3) directDone)) =
    [(0, bakedTexel)] /\
  allLightmaps (chunkVicinities (cache_ directDone)) (chunks_ directDone) = [0; 1] /\
  exists n,
    (n < length (allLightmaps (chunkVicinities (cache_ directDone))
                   (chunks_ directDone)))%nat /\
    map fst (storedLightmaps
               (callsOf directDone (BakeIndirectAndFilter (stopAt 3) directDone))) =
      take n (allLightmaps (chunkVicinities (cache_ directDone)) (chunks_ directDone)) /\
    lightmaps (cache_ (finalWorld (BakeIndirectAndFilter (stopAt 3) directDone))) =
      storeLightmaps
        (storedLightmaps
           (callsOf directDone (BakeIndirectAndFilter (stopAt 3) directDone)))
        (lightmaps (cache_ directDone)).
Proof.
  assert (Hrun : BakeIndirectAndFilter (stopAt 3) directDone =
                 Ok false (finalWorld (BakeIndirectAndFilter (stopAt 3) directDone)))
    by (vm_compute; reflexivity).
  assert (Ht : trace_ (finalWorld (BakeIndirectAndFilter (stopAt 3) directDone)) =
               trace_ directDone
               ++ callsOf directDone (BakeIndirectAndFilter (stopAt 3) directDone))
    by (vm_compute; reflexivity).
  split; [exact Hrun|]. split; [exact Ht|]. split; [vm_compute; reflexivity|].
  split; [vm_compute; reflexivity|].
  destruct (BakeIndirectAndFilter_stores_lightmaps (stopAt 3) directDone _ false _ Hrun Ht)
    as (n & Hn & Hstored & Hcache & _).
  exists n. split; [exact Hn|]. split; [exact Hstored|exact Hcache].
Defined.

(** X9 on the scene after its direct phase: the direct filter is off. *)
Lemma BakeIndirectAndFilter_keeps_direct_buffers_witness :
  BakeIndirectAndFilter never directDone =
    Ok true (finalWorld (BakeIndirectAndFilter never directDone)) /\
  directFilter_kernelRadius_ (settings_ directDone) <= 0 /\
  dom (directLights (cache_ (finalWorld (BakeIndirectAndFilter never directDone)))) =
    dom (directLights (cache_ directDone)) /\
  directLights (cache_ (finalWorld (BakeIndirectAndFilter never directDone))) =
    directLights (cache_ directDone).
Proof.
  assert (Hrun : BakeIndirectAndFilter never directDone =
                 Ok true (finalWorld (BakeIndirectAndFilter never directDone)))
    by (vm_compute; reflexivity).
  assert (Hoff : directFilter_kernelRadius_ (settings_ directDone) <= 0)
    by (vm_compute; discriminate).
  split; [exact Hrun|]. split; [exact Hoff|].
  destruct (BakeIndirectAndFilter_keeps_direct_buffers never directDone _ true Hrun)
    as [Hdom Hkept].
  split; [exact Hdom|exact (Hkept Hoff)].
Defined.

(** X11 on the scene. *)
Lemma Bake_success_fills_cache_witness :
  Bake never scene = Ok true baked /\
  allLightmaps (chunkVicinities (cache_ scene)) (chunks_ scene) = [0; 1] /\
  forall lightmapIndex,
    In lightmapIndex (allLightmaps (chunkVicinities (cache_ scene)) (chunks_ scene)) ->
    is_Some (directLights (cache_ baked) !! lightmapIndex) /\
    exists lm,
      lightmaps (cache_ baked) !! lightmapIndex = Some lm /\
      length (lightmap_ lm) =
        Z.to_nat (wrap32 (lightmapSize_ (settings_ scene) * lightmapSize_ (settings_ scene))).
Proof.
  assert (Hrun : Bake never scene = Ok true baked) by (vm_compute; reflexivity).
  split; [exact Hrun|]. split; [vm_compute; reflexivity|].
  exact (proj2 (proj2 (proj2 (Bake_success_fills_cache never scene baked Hrun)))).
Defined.

(** X12 on the baked scene, on a file system that refuses the image of
    lightmap 0: the image is saved all the same and no error is
    reported. *)
Lemma CommitScene_saves_every_lightmap_witness :
  CommitScene bakedRefused = Ok tt (finalWorld (CommitScene bakedRefused)) /\
  (SetSize NewImage (lightmapSize_ (settings_ bakedRefused))
     (lightmapSize_ (settings_ bakedRefused)) 4).1 = true /\
  trace_ (finalWorld (CommitScene bakedRefused)) =
    trace_ bakedRefused ++ callsOf bakedRefused (CommitScene bakedRefused) /\
  (Image_SaveFile (fileSystem_ bakedRefused) savedImage "/out/lightmap-0.png").1 = false /\
  errors (callsOf bakedRefused (CommitScene bakedRefused)) = [] /\
  loadedLightmaps (callsOf bakedRefused (CommitScene bakedRefused)) = [0; 1] /\
  map fst (savedImages (callsOf bakedRefused (CommitScene bakedRefused))) =
    ["/out/lightmap-0.png"; "/out/lightmap-1.png"].
Proof.
  assert (Hrun : CommitScene bakedRefused = Ok tt (finalWorld (CommitScene bakedRefused)))
    by (vm_compute; reflexivity).
  assert (Hsized : (SetSize NewImage (lightmapSize_ (settings_ bakedRefused))
                      (lightmapSize_ (settings_ bakedRefused)) 4).1 = true)
    by (vm_compute; reflexivity).
  assert (Ht : trace_ (finalWorld (CommitScene bakedRefused)) =
               trace_ bakedRefused ++ callsOf bakedRefused (CommitScene bakedRefused))
    by (vm_compute; reflexivity).
  split; [exact Hrun|]. split; [exact Hsized|]. split; [exact Ht|].
  split; [vm_compute; reflexivity|].
  destruct (CommitScene_saves_every_lightmap bakedRefused _ _ Hrun Hsized Ht)
    as (Herrors & Hloads & Hsaved & _).
  split; [exact Herrors|]. split.
  - rewrite Hloads. vm_compute. reflexivity.
  - rewrite Hsaved. vm_compute. reflexivity.
Defined.

(** X13 on two buffers of one texel that differ in alpha. *)
Lemma generateImage_ignores_alpha_witness :
  map Vector4_to_Vector3 [mkVector4 fone fone fzero fone] =
  map Vector4_to_Vector3 [mkVector4 fone fone fzero fzero] /\
  generateImage 1 geometryBuffer [mkVector4 fone fone fzero fone] [] =
  generateImage 1 geometryBuffer [mkVector4 fone fone fzero fzero] [].
Proof.
  assert (Hrgb : map Vector4_to_Vector3 [mkVector4 fone fone fzero fone] =
                 map Vector4_to_Vector3 [mkVector4 fone fone fzero fzero])
    by reflexivity.
  split; [exact Hrgb|].
  exact (generateImage_ignores_alpha 1 geometryBuffer _ _ [] Hrgb).
Defined.

(** X14 on the scene. *)
Lemma Initialize_success_witness :
  Initialize scene = Ok true (finalWorld (Initialize scene)) /\
  outputDirectory_ (incremental_ (settings_ (finalWorld (Initialize scene)))) = "/out/" /\
  chunks_ (finalWorld (Initialize scene)) = [chunkA; chunkB] /\
  Permutation (GetChunks (collector_ (finalWorld (Initialize scene))))
    (chunks_ (finalWorld (Initialize scene))) /\
  globalIllumination_ (finalWorld (Initialize scene)) = Some ("BinaryFile", "out/gi.bin").
Proof.
  assert (Hrun : Initialize scene = Ok true (finalWorld (Initialize scene)))
    by (vm_compute; reflexivity).
  split; [exact Hrun|].
  destruct (Initialize_success scene _ Hrun) as (Hdir & _ & Hperm & _ & Hgi & _).
  split; [rewrite Hdir; vm_compute; reflexivity|].
  split; [vm_compute; reflexivity|]. split; [exact Hperm|].
  rewrite Hgi. vm_compute. reflexivity.
Defined.

(** X15 on the scene that was never saved. *)
Lemma Initialize_failure_keeps_scene_witness :
  Initialize unsavedScene = Ok false (finalWorld (Initialize unsavedScene)) /\
  globalIllumination_ (finalWorld (Initialize unsavedScene)) =
    globalIllumination_ unsavedScene /\
  cache_ (finalWorld (Initialize unsavedScene)) = cache_ unsavedScene.
Proof.
  assert (Hrun : Initialize unsavedScene = Ok false (finalWorld (Initialize unsavedScene)))
    by (vm_compute; reflexivity).
  split; [exact Hrun|].
  destruct (Initialize_failure_keeps_scene unsavedScene _ Hrun) as (Hgi & Hcache & _).
  split; [exact Hgi|exact Hcache].
Defined.

(** X16 on the scene after its direct phase, which has no final lightmap
    yet. *)
Lemma stitchAndSaveLightmap_missing_lightmap_witness :
  lightmaps_ vicinityA !! 0%nat = Some 0 /\
  geometryBuffers_ vicinityA !! 0%nat = Some geometryBuffer /\
  lightmaps (cache_ directDone) !! 0 = None /\
  0 < 1 /\
  exists w',
    stitchAndSaveLightmap 1 vicinityA stitchLocals 0 directDone = Fault w' /\
    trace_ w' = trace_ directDone ++ [EvLoadLightmap 0] /\
    cache_ w' = cache_ directDone /\ fileSystem_ w' = fileSystem_ directDone.
Proof.
  assert (Hidx : lightmaps_ vicinityA !! 0%nat = Some 0) by reflexivity.
  assert (Hgb : geometryBuffers_ vicinityA !! 0%nat = Some geometryBuffer) by reflexivity.
  assert (Hmissing : lightmaps (cache_ directDone) !! 0 = None)
    by (vm_compute; reflexivity).
  assert (Htexels : 0 < 1) by reflexivity.
  split; [exact Hidx|]. split; [exact Hgb|]. split; [exact Hmissing|].
  split; [exact Htexels|].
  exact (stitchAndSaveLightmap_missing_lightmap 1 vicinityA stitchLocals 0 directDone
           0 geometryBuffer Hidx Hgb Hmissing Htexels).
Defined.

End FurtherExamples.
